(** * big_rl: reward noise, multitask weighting and the PPO loss generators

    A shallow embedding of the parts of [big_rl/minigrid/script.py],
    [big_rl/minigrid/train_mtft.py] and
    [big_rl/minigrid/plasticity/plot_from_wandb.py] that carry algorithmic
    content, together with the [RewardNoise] filter exercised by
    [test/minigrid/envs/test_reward_noise.py].

    Conventions.
    - Python [int] is [Z]; loop counters that only count up from [0] are [nat].
    - Tensors and numpy arrays of floats are lists over [R]: arithmetic is the
      exact arithmetic of the reals, so rounding, overflow, [inf] and [nan]
      are outside the model.  A two-dimensional tensor is a list of rows.
    - A Python generator is a resumable machine: a state type and a [resume]
      function that runs the body up to the next [yield], to the end of the
      body, or to an uncaught exception.
    - The policy network, the categorical distribution, the GAE estimator and
      the clipped policy-gradient loss are collaborators of the code (torch
      and frankenstein); they are section variables. *)

From Stdlib Require Import Reals Lra List ZArith Lia Bool Permutation.
Import ListNotations.

Set Implicit Arguments.

(** ** Exceptions and generators *)

Inductive exn : Type :=
| ZeroDivisionError
| IndexError
| AssertionError
| ValueError
| ConfigurationError.

Inductive result (A : Type) : Type :=
| Ok (a : A)
| Raise (e : exn).

Arguments Ok {A} a.
Arguments Raise {A} e.

Definition bind {A B : Type} (m : result A) (k : A -> result B) : result B :=
  match m with
  | Ok a => k a
  | Raise e => Raise e
  end.

Notation "x <- m ;; k" := (bind m (fun x => k))
  (at level 61, m at next level, right associativity).

(** What one [next()] on a generator can do. *)
Inductive outcome (S Y : Type) : Type :=
| Yielded (y : Y) (s : S)   (* suspended at a [yield] *)
| Returned                  (* body finished: StopIteration *)
| Raised (e : exn).         (* uncaught exception *)

Arguments Yielded {S Y} y s.
Arguments Returned {S Y}.
Arguments Raised {S Y} e.

(** ** RewardNoise *)

Module RewardNoise.

(** Modelled from the spec: the class [RewardNoise] lives in
    [big_rl/minigrid/envs.py], which is not part of the sources at hand; only
    its tests are.  The deterministic policies of section 4.1 are modelled:
    the pair (mode, trigger) with its parameter is fixed at construction. *)
Inductive policy : Type :=
| NoNoise
| ZeroCycleSteps (on_length off_length : nat)
| ZeroCycleTrials (on_trials off_trials : nat)
| StopSteps (n : nat)
| StopTrials (n : nat).

(** Modelled from the spec: the state of a [RewardNoise] instance, the
    policy and the two counters that only move forward. *)
Record t : Type := mk {
  noise : policy;
  step_count : nat;
  trial_count : nat
}.

(** Modelled from the spec: construction, with both counters at zero. *)
Definition make (p : policy) : t :=
  {| noise := p; step_count := 0; trial_count := 0 |}.

(** Modelled from the spec: [trial_finished()] advances the trial counter. *)
Definition trial_finished (s : t) : t :=
  {| noise := noise s; step_count := step_count s;
     trial_count := S (trial_count s) |}.

Section Apply.
Context {A : Type} (zero : A).

(** Modelled from the spec: the cycle test shared by the two cycle
    triggers, [(index mod (on + off)) < on], a configuration error when
    the cycle has length zero. *)
Definition cycle_pass (on off index : nat) (raw : A) : result A :=
  if Nat.eqb (on + off) 0 then Raise ConfigurationError
  else Ok (if Nat.ltb (index mod (on + off)) on then raw else zero).

(** Modelled from the spec: [apply(raw_reward)].  The step counter is
    advanced first, whatever the mode; the policies then read
    [step_count - 1] (cycles) or [step_count] (stop after N steps). *)
Definition apply (s : t) (raw : A) : result (A * t) :=
  let s' := {| noise := noise s; step_count := S (step_count s);
               trial_count := trial_count s |} in
  r <- match noise s with
       | NoNoise => Ok raw
       | ZeroCycleSteps on off =>
           cycle_pass on off (step_count s' - 1) raw
       | ZeroCycleTrials on off =>
           cycle_pass on off (trial_count s') raw
       | StopSteps n =>
           Ok (if Nat.leb (step_count s') n then raw else zero)
       | StopTrials n =>
           Ok (if Nat.ltb (trial_count s') n then raw else zero)
       end ;;
  Ok (r, s').

(** Successive calls [apply(x1)], [apply(x2)], ... on one instance. *)
Fixpoint apply_all (s : t) (raws : list A) : result (list A * t) :=
  match raws with
  | [] => Ok ([], s)
  | x :: rest =>
      p <- apply s x ;;
      q <- apply_all (snd p) rest ;;
      Ok (fst p :: fst q, snd q)
  end.
End Apply.

(** The rewards returned by a sequence of calls, when none raised. *)
Definition fst_ok {A : Type} (r : result (list A * t)) : option (list A) :=
  match r with
  | Ok p => Some (fst p)
  | Raise _ => None
  end.

End RewardNoise.

(** ** Tensors *)

Module Tensor.
Local Open Scope R_scope.

(** [a > b] on floats, as a test. *)
Definition Rgtb (a b : R) : bool := if Rlt_dec b a then true else false.
(** [a >= b] on floats, as a test. *)
Definition Rgeb (a b : R) : bool := if Rle_dec b a then true else false.

(** Elementwise binary operation on two tensors of one shape. *)
Fixpoint zip_with {A B C : Type} (f : A -> B -> C)
         (xs : list A) (ys : list B) : list C :=
  match xs, ys with
  | x :: xs', y :: ys' => f x y :: zip_with f xs' ys'
  | _, _ => []
  end.

(** [t.sum()] *)
Definition tsum (t : list R) : R := fold_right Rplus 0 t.

(** [t.mean()] *)
Definition mean (t : list R) : R := tsum t / INR (length t).

(** [t.std()]: torch's default is the unbiased estimator, with [N - 1]
    under the root. *)
Definition std (t : list R) : R :=
  sqrt (tsum (map (fun x => (x - mean t) ^ 2) t) / (INR (length t) - 1)).

(** [(t - t.mean()) / (t.std() + 1e-8)] *)
Definition normalize (t : list R) : list R :=
  map (fun x => (x - mean t) / (std t + 1e-8)) t.

(** [torch.clamp(x, lo, hi)], that is [min(max(x, lo), hi)];
    [np.clip] computes the same. *)
Definition clamp (x lo hi : R) : R := Rmin (Rmax x lo) hi.

(** [torch.max(a, b)], elementwise. *)
Definition tmax (a b : list R) : list R := zip_with Rmax a b.

(** [seq[lo:hi]] for non-negative bounds, clamped to the length as Python
    does; negative bounds count from the end. *)
Definition slice_bound (len i : Z) : Z :=
  if (i <? 0)%Z then Z.max (i + len) 0 else Z.min i len.

Definition py_slice {A : Type} (l : list A) (lo hi : Z) : list A :=
  let len := Z.of_nat (length l) in
  let a := slice_bound len lo in
  let b := slice_bound len hi in
  firstn (Z.to_nat (b - a)) (skipn (Z.to_nat a) l).

(** [t[inds]] with an index array.  Every index array of the program is a
    slice of a shuffle of [arange(len(t))]; [d] stands for an element that
    is never read. *)
Definition gather {A : Type} (d : A) (t : list A) (inds : list Z) : list A :=
  map (fun i => nth (Z.to_nat i) t d) inds.

(** [a[mask]] with a boolean mask of the shape of [a]. *)
Fixpoint mask_select {A : Type} (mask : list bool) (a : list A) : list A :=
  match mask, a with
  | m :: mask', x :: a' =>
      if m then x :: mask_select mask' a' else mask_select mask' a'
  | _, _ => []
  end.

(** [a[mask] = v] with a boolean mask of the shape of [a]. *)
Definition mask_assign {A : Type} (mask : list bool) (a : list A) (v : A)
  : list A :=
  zip_with (fun (m : bool) x => if m then v else x) mask a.

(** [torch.where(mask.unsqueeze(1), a, b)] on tensors of shape [N, D]: the
    mask of shape [N, 1] is broadcast along each row. *)
Fixpoint where_rows {A : Type} (mask : list bool) (a b : list (list A))
  : list (list A) :=
  match mask, a, b with
  | m :: mask', ra :: a', rb :: b' =>
      zip_with (fun x y => if m then x else y) ra rb :: where_rows mask' a' b'
  | _, _, _ => []
  end.

(** [l[i] = v] on a numpy array; [None] is the [IndexError] of an index
    past the end. *)
Fixpoint set_item {A : Type} (l : list A) (i : nat) (v : A)
  : option (list A) :=
  match l, i with
  | [], _ => None
  | _ :: l', O => Some (v :: l')
  | x :: l', S i' => option_map (cons x) (set_item l' i' v)
  end.
End Tensor.

(** ** Multitask weighting (script.py) *)

Module MultitaskDynamicWeight.
Import Tensor.
Local Open Scope R_scope.

(** The attributes set by [__init__].  The three arrays are distinct
    objects: [np.array] copies its argument, so [_score] is not an alias of
    [_random_score].  The arrays are arrays of floats (with scores given as
    Python integers numpy would make integer arrays, and the assignment in
    [step] would truncate). *)
Record t : Type := mk {
  _max_score : list R;
  _random_score : list R;
  _temperature : R;
  _ema_weight : R;
  _score : list R
}.

(** [__init__(max_score, random_score, temperature, ema_weight)] *)
Definition init (max_score random_score : list R)
           (temperature ema_weight : R) : t :=
  {| _max_score := max_score;
     _random_score := random_score;
     _temperature := temperature;
     _ema_weight := ema_weight;
     _score := random_score |}.

(** The inner loop of [step]: [for s in task_scores: self._score[i] = ...]. *)
Fixpoint step_task (w : R) (score : list R) (i : nat) (task_scores : list R)
  : result (list R) :=
  match task_scores with
  | [] => Ok score
  | s :: rest =>
      match nth_error score i with
      | None => Raise IndexError
      | Some x =>
          match set_item score i (x * w + s * (1 - w)) with
          | None => Raise IndexError
          | Some score' => step_task w score' i rest
          end
      end
  end.

(** The outer loop of [step]: [for i, task_scores in enumerate(scores)]. *)
Fixpoint step_from (w : R) (score : list R) (i : nat)
         (scores : list (list R)) : result (list R) :=
  match scores with
  | [] => Ok score
  | task_scores :: rest =>
      score' <- step_task w score i task_scores ;;
      step_from w score' (S i) rest
  end.

(** [step(scores)] *)
Definition step (st : t) (scores : list (list R)) : result t :=
  score' <- step_from (_ema_weight st) (_score st) 0 scores ;;
  Ok {| _max_score := _max_score st;
        _random_score := _random_score st;
        _temperature := _temperature st;
        _ema_weight := _ema_weight st;
        _score := score' |}.

(** A sequence of [step] calls. *)
Fixpoint steps (st : t) (calls : list (list (list R))) : result t :=
  match calls with
  | [] => Ok st
  | scores :: rest => st' <- step st scores ;; steps st' rest
  end.

(** The [weight] property. *)
Definition weight (st : t) : list R :=
  let relative_score :=
    zip_with (fun a b => a / b)
      (map Ropp (zip_with Rminus (_score st) (_random_score st)))
      (zip_with Rminus (_max_score st) (_random_score st)) in
  let x := map (fun z => exp (z / _temperature st)) relative_score in
  map (fun xi => xi / tsum x) x.

(** The spec's reading of [weight], to compare with the code:
    [softmax((randomScore - score) / (maxScore - randomScore) / temperature)]. *)
Definition softmax (z : list R) : list R :=
  map (fun zi => exp zi / tsum (map exp z)) z.

Definition deficit (st : t) : list R :=
  zip_with (fun rs m_r => rs / m_r / _temperature st)
    (zip_with Rminus (_random_score st) (_score st))
    (zip_with Rminus (_max_score st) (_random_score st)).
End MultitaskDynamicWeight.

Module MultitaskStaticWeight.
Import Tensor.
Local Open Scope R_scope.

Record t : Type := mk { _weight : list R }.

(** [__init__(weight)]: the assertion on every entry, then the division
    by the sum.  Both branches of the [isinstance] test compute the same
    tensor. *)
Definition init (weight : list R) : result t :=
  if forallb (fun w => Rgeb w 0) weight
  then Ok {| _weight := map (fun w => w / tsum weight) weight |}
  else Raise AssertionError.

(** [step(scores)]: the body is [...]. *)
Definition step (st : t) (scores : list (list R)) : t := st.

(** A sequence of [step] calls. *)
Definition steps (st : t) (calls : list (list (list R))) : t :=
  fold_left step calls st.

(** The [weight] property. *)
Definition weight (st : t) : list R := _weight st.
End MultitaskStaticWeight.

(** ** Running a generator to the end *)

Inductive ending : Type :=
| Finished            (* the generator returned *)
| Failed (e : exn)    (* the generator raised *)
| Unfinished.         (* the consumer stopped asking *)

(** [drain resume k s] calls [next()] at most [k] times and collects what
    was yielded. *)
Fixpoint drain {S Y : Type} (resume : S -> outcome S Y) (k : nat) (s : S)
  : list Y * ending :=
  match k with
  | O => ([], Unfinished)
  | S k' =>
      match resume s with
      | Yielded y s' =>
          let (ys, e) := drain resume k' s' in (y :: ys, e)
      | Returned => ([], Finished)
      | Raised e => ([], Failed e)
      end
  end.

(** [drive resume ws s] calls [next()] once per element of [ws]: the
    consumer changes the world (the model parameters) between two calls. *)
Fixpoint drive {W S Y : Type} (resume : W -> S -> outcome S Y)
         (ws : list W) (s : S) : list Y * ending :=
  match ws with
  | [] => ([], Unfinished)
  | w :: ws' =>
      match resume w s with
      | Yielded y s' =>
          let (ys, e) := drive resume ws' s' in (y :: ys, e)
      | Returned => ([], Finished)
      | Raised e => ([], Failed e)
      end
  end.

(** ** Minibatch enumeration (train_mtft.py) *)

Module Minibatch.
Import Tensor.
Local Open Scope Z_scope.

(** [a // b] *)
Definition floordiv (a b : Z) : result Z :=
  if b =? 0 then Raise ZeroDivisionError else Ok (a / b).

(** [a % b] *)
Definition pymod (a b : Z) : result Z :=
  if b =? 0 then Raise ZeroDivisionError else Ok (a mod b).

(** [np.arange(n)] *)
Definition arange (n : Z) : list Z := map Z.of_nat (seq 0 (Z.to_nat n)).

Section Enum.
(** [shuffle k a] is the array left by the [k]-th call (from 0) of
    [np.random.shuffle] when it is given the array [a]. *)
Variable shuffle : nat -> list Z -> list Z.

Variables batch_size minibatch_size num_minibatches : Z.
Variable replace : bool.

(** The frame of the generator [enum_minibatches(batch_size,
    minibatch_size, num_minibatches, replace)] after its first [next()]: the
    array [indices], which [shuffle] permutes in place, the number of
    shuffles made so far, and, without replacement, [n] and the loop counter
    [i], with replacement, the current value [c] of
    [range(0, batch_size, minibatch_size)].

    What is yielded is a numpy view of [indices]; the model yields the
    content the view has at the [yield], which is what the consumer reads: it
    uses each index array before it asks for the next one. *)
Inductive state : Type :=
| Start
| Loop (indices : list Z) (n : Z) (i : Z) (shuffles : nat)
| LoopReplace (indices : list Z) (c : Z) (shuffles : nat).

(** One turn of [for i in range(num_minibatches)], up to its [yield]. *)
Definition loop (indices : list Z) (n i : Z) (shuffles : nat)
  : outcome state (list Z) :=
  if num_minibatches <=? i then Returned
  else
    match pymod i n with
    | Raise e => Raised e
    | Ok j =>
        let indices' := if j =? 0 then shuffle shuffles indices
                        else indices in
        let shuffles' := if j =? 0 then S shuffles else shuffles in
        Yielded
          (py_slice indices' (j * minibatch_size)
                             ((j + 1) * minibatch_size))
          (Loop indices' n (i + 1) shuffles')
    end.

(** One turn of [for _ in range(0, batch_size, minibatch_size)], up to its
    [yield]. *)
Definition loop_replace (indices : list Z) (c : Z) (shuffles : nat)
  : outcome state (list Z) :=
  if (if 0 <? minibatch_size then c <? batch_size else batch_size <? c)
  then
    let indices' := shuffle shuffles indices in
    Yielded (py_slice indices' 0 minibatch_size)
            (LoopReplace indices' (c + minibatch_size) (S shuffles))
  else Returned.

Definition enum_minibatches (s : state) : outcome state (list Z) :=
  match s with
  | Start =>
      let indices := arange batch_size in
      if replace then
        if minibatch_size =? 0 then Raised ValueError
        else loop_replace indices 0 0
      else
        match floordiv batch_size minibatch_size with
        | Raise e => Raised e
        | Ok n => loop indices n 0 0
        end
  | Loop indices n i shuffles => loop indices n i shuffles
  | LoopReplace indices c shuffles => loop_replace indices c shuffles
  end.

(** The array after [k] shuffles. *)
Fixpoint shuffled (k : nat) : list Z :=
  match k with
  | O => arange batch_size
  | S k' => shuffle k' (shuffled k')
  end.
End Enum.
End Minibatch.

(** ** PPO losses *)

Module PPO.
Import Tensor.
Local Open Scope R_scope.

(** Hyper-parameters shared by the two variants of [compute_ppo_losses]. *)
Record hyper : Type := mkHyper {
  discount : R;
  gae_lambda : R;
  norm_adv : bool;
  clip_vf_loss : option R;
  entropy_loss_coeff : R;
  vf_loss_coeff : R;
  target_kl : option R
}.

(** [logratio = lp - lp_old; ratio = logratio.exp();
    approx_kl = ((ratio - 1) - logratio).mean()] *)
Definition approx_kl_of (log_action_probs log_action_probs_old : list R) : R :=
  let logratio := zip_with Rminus log_action_probs log_action_probs_old in
  let ratio := map exp logratio in
  mean (zip_with Rminus (map (fun r => r - 1) ratio) logratio).

(** The value loss, clipped when [clip_vf_loss] is given. *)
Definition value_loss (clip : option R)
           (state_values state_values_old returns : list R) : R :=
  match clip with
  | Some c =>
      let v_loss_unclipped :=
        map (fun d => d ^ 2) (zip_with Rminus state_values returns) in
      let v_clipped :=
        zip_with Rplus state_values_old
          (map (fun d => clamp d (- c) c)
               (zip_with Rminus state_values state_values_old)) in
      let v_loss_clipped :=
        map (fun d => d ^ 2) (zip_with Rminus v_clipped returns) in
      let v_loss_max := tmax v_loss_unclipped v_loss_clipped in
      0.5 * mean v_loss_max
  | None =>
      0.5 * mean (map (fun d => d ^ 2) (zip_with Rminus state_values returns))
  end.

(** [if target_kl is not None: if approx_kl > target_kl: break] *)
Definition kl_break (target : option R) (approx_kl : R) : bool :=
  match target with
  | Some t => Rgtb approx_kl t
  | None => false
  end.

(** The advantages a minibatch of the flattened variant feeds to the policy
    loss: the batch is split first, the minibatch is normalized next. *)
Definition minibatch_advantages (norm : bool) (flat_advantages : list R)
           (mb_inds : list Z) : list R :=
  let mb_advantages := gather 0 flat_advantages mb_inds in
  if norm then normalize mb_advantages else mb_advantages.


Section Collaborators.
(** Model parameters, observations of one environment slot, actions and
    action logits. *)
Variables Params Obs Act Logits : Type.

(** [torch.distributions.Categorical(logits=l)]: [.log_prob(a)] and
    [.entropy()], on flattened batches. *)
Variable log_prob : list Logits -> list Act -> list R.
Variable entropy : list Logits -> list R.

(** [frankenstein.advantage.gae.generalized_advantage_estimate], on
    tensors of shape [n-1, num_envs]. *)
Variable generalized_advantage_estimate :
  list (list R) -> list (list R) -> list (list R) -> list (list bool) ->
  R -> R -> list (list R).

(** [frankenstein.loss.policy_gradient.clipped_advantage_policy_gradient_loss],
    an elementwise loss, on flattened batches. *)
Variable clipped_advantage_policy_gradient_loss :
  list R -> list R -> list R -> list bool -> R -> list R.

Variable preprocess_input_fn : option (Obs -> Obs).

Definition preprocess (o : list Obs) : list Obs :=
  match preprocess_input_fn with
  | Some f => map f o
  | None => o
  end.

(** *** The flattened variant (train_mtft.py) *)
Section Flat.
(** The feed-forward policy: a batch of observations to logits and
    values. *)
Record net_output : Type := mkOut {
  out_action : list Logits;
  out_value : list R
}.
Variable model : Params -> list Obs -> net_output.

Variable shuffle : nat -> list Z -> list Z.
Variable obs0 : Obs.
Variable act0 : Act.

(** What the code reads from the [VecHistoryBuffer]: time-major
    tensors, [n] rows of observations, rewards and terminals, [n-1]
    rows of actions. *)
Record history : Type := mkHistory {
  obs : list (list Obs);
  action : list (list Act);
  reward : list (list R);
  terminal : list (list bool)
}.

Record loss_record : Type := mkLoss {
  loss : R;
  loss_pi : R;
  loss_vf : R;
  loss_entropy : R;
  approx_kl : R;
  state_value : list R;
  rec_entropy : list R
}.

(** The flattened tensors computed before the minibatch loop. *)
Record flat : Type := mkFlat {
  flat_obs : list Obs;
  flat_action : list Act;
  flat_terminals : list bool;
  flat_returns : list R;
  flat_advantages : list R;
  flat_log_action_probs_old : list R;
  flat_state_values_old : list R
}.

Variable hp : hyper.
Variables minibatch_size num_minibatches : Z.

(** [(n-1) * num_training_envs], the [batch_size] handed to
    [enum_minibatches]. *)
Definition batch_size_of (h : history) : Z :=
  let n := length (obs h) in
  let num_training_envs := length (hd [] (reward h)) in
  ((Z.of_nat n - 1) * Z.of_nat num_training_envs)%Z.

(** The code from the top of the function to the creation of the
    minibatch generator. *)
Definition flatten (theta : Params) (h : history) : flat * Z :=
  let n := length (obs h) in
  let net_out := map (fun o => model theta (preprocess o)) (obs h) in
  let state_values_old := map out_value net_out in
  let log_action_probs_old :=
    log_prob (concat (firstn (n - 1) (map out_action net_out)))
             (concat (action h)) in
  let advantages :=
    generalized_advantage_estimate
      (firstn (n - 1) state_values_old)
      (skipn 1 state_values_old)
      (skipn 1 (reward h))
      (skipn 1 (terminal h))
      (discount hp) (gae_lambda hp) in
  let returns :=
    zip_with (zip_with Rplus) advantages
             (firstn (n - 1) state_values_old) in
  ({| flat_obs := concat (firstn (n - 1) (map preprocess (obs h)));
      flat_action := concat (firstn (n - 1) (action h));
      flat_terminals := concat (firstn (n - 1) (terminal h));
      flat_returns := concat (firstn (n - 1) returns);
      flat_advantages := concat (firstn (n - 1) advantages);
      flat_log_action_probs_old := log_action_probs_old;
      flat_state_values_old :=
        concat (firstn (n - 1) state_values_old) |},
   batch_size_of h).

(** The body of [for _, mb_inds in enumerate(minibatches)] up to its
    [yield]. *)
Definition minibatch_record (theta : Params) (f : flat)
           (mb_inds : list Z) : loss_record :=
  let mb_obs := gather obs0 (flat_obs f) mb_inds in
  let mb_action := gather act0 (flat_action f) mb_inds in
  let mb_returns := gather 0 (flat_returns f) mb_inds in
  let mb_terminals := gather false (flat_terminals f) mb_inds in
  let mb_log_action_probs_old :=
    gather 0 (flat_log_action_probs_old f) mb_inds in
  let mb_state_values_old :=
    gather 0 (flat_state_values_old f) mb_inds in
  let net_out := model theta mb_obs in
  let mb_state_values := out_value net_out in
  let mb_log_action_probs := log_prob (out_action net_out) mb_action in
  let mb_entropy := entropy (out_action net_out) in
  let kl := approx_kl_of mb_log_action_probs mb_log_action_probs_old in
  let mb_advantages :=
    minibatch_advantages (norm_adv hp) (flat_advantages f) mb_inds in
  let pg_loss :=
    mean (clipped_advantage_policy_gradient_loss
            mb_log_action_probs mb_log_action_probs_old
            mb_advantages mb_terminals 0.1) in
  let v_loss :=
    value_loss (clip_vf_loss hp)
               mb_state_values mb_state_values_old mb_returns in
  let entropy_loss := mean mb_entropy in
  {| loss := pg_loss - entropy_loss_coeff hp * entropy_loss
             + v_loss * vf_loss_coeff hp;
     loss_pi := pg_loss;
     loss_vf := v_loss;
     loss_entropy := - entropy_loss;
     approx_kl := kl;
     state_value := mb_state_values;
     rec_entropy := mb_entropy |}.

(** The generator.  [FStart] is the generator before its first
    [next()]; [FYielded] is the frame suspended at the [yield], with the
    flattened tensors, the batch size, the state of the minibatch
    generator and the [approx_kl] of the record just yielded. *)
Inductive flat_state : Type :=
| FStart (h : history)
| FYielded (f : flat) (batch_size : Z) (mbs : Minibatch.state) (kl : R).

(** Ask the minibatch generator for the next index array and run the
    loop body on it. *)
Definition flat_next (theta : Params) (f : flat) (batch_size : Z)
           (mbs : Minibatch.state) : outcome flat_state loss_record :=
  match Minibatch.enum_minibatches shuffle batch_size minibatch_size
          num_minibatches false mbs with
  | Yielded mb_inds mbs' =>
      let r := minibatch_record theta f mb_inds in
      Yielded r (FYielded f batch_size mbs' (approx_kl r))
  | Returned => Returned
  | Raised e => Raised e
  end.

(** [compute_ppo_losses] of train_mtft.py: one [next()], with the
    model parameters as they are at that moment. *)
Definition compute_ppo_losses_flat (theta : Params) (s : flat_state)
  : outcome flat_state loss_record :=
  match s with
  | FStart h =>
      let (f, batch_size) := flatten theta h in
      flat_next theta f batch_size Minibatch.Start
  | FYielded f batch_size mbs kl =>
      if kl_break (target_kl hp) kl then Returned
      else flat_next theta f batch_size mbs
  end.
End Flat.

(** *** The stateful-recurrent variant (script.py) *)
Section Recurrent.
(** The hidden state: one tensor of shape [num_envs, D] per recurrent
    layer. *)
Definition hidden_state : Type := list (list (list R)).

Record rnet_output : Type := mkROut {
  rout_action : list Logits;
  rout_value : list R;
  rout_hidden : hidden_state
}.

(** The recurrent policy and its [init_hidden(batch_size)]. *)
Variable rmodel : Params -> list Obs -> hidden_state -> rnet_output.
Variable init_hidden : Params -> nat -> hidden_state.

(** [big_rl.utils.zip2], which is not among the sources at hand: it
    pairs the observations with the terminal masks, step by step. *)
Variable zip2 :
  list (list Obs) -> list (list bool) -> list (list Obs * list bool).

(** [tuple(torch.where(term.unsqueeze(1), init_h, h)
           for init_h, h in zip(initial_hidden, curr_hidden))] *)
Definition reset_hidden (term : list bool)
           (initial_hidden curr_hidden : hidden_state) : hidden_state :=
  zip_with (where_rows term) initial_hidden curr_hidden.


(** [history.misc['hidden']] holds, per layer, the hidden states of
    every step of the rollout. *)
Record rhistory : Type := mkRHistory {
  r_obs : list (list Obs);
  r_action : list (list Act);
  r_reward : list (list R);
  r_terminal : list (list bool);
  r_hidden : list (list (list (list R)))
}.

Record rloss_record : Type := mkRLoss {
  r_loss : R;
  r_loss_pi : R;
  r_loss_vf : R;
  r_loss_entropy : R;
  r_approx_kl : R;
  r_output : list rnet_output;
  r_final_hidden : hidden_state
}.

(** [for o, term in zip2(obs, terminal)]: replay the trajectory through
    the network, resetting the hidden state of the slots whose episode
    ended.  Returns the outputs and the last [curr_hidden]. *)
Fixpoint replay (theta : Params) (initial_hidden : hidden_state)
         (steps : list (list Obs * list bool))
         (curr_hidden : hidden_state)
  : list rnet_output * hidden_state :=
  match steps with
  | [] => ([], curr_hidden)
  | (o, term) :: rest =>
      let h := reset_hidden term initial_hidden curr_hidden in
      let no := rmodel theta (preprocess o) h in
      let (outs, last) := replay theta initial_hidden rest (rout_hidden no) in
      (no :: outs, last)
  end.

(** [tuple([h[0].detach() for h in hidden])] *)
Definition first_hidden (h : rhistory) : hidden_state :=
  map (fun layer => hd [] layer) (r_hidden h).

(** What the no-gradient block at the top leaves for the epochs. *)
Record frozen : Type := mkFrozen {
  fr_history : rhistory;
  fr_state_values_old : list R;
  fr_log_action_probs_old : list R;
  fr_advantages : list R;
  fr_returns : list R
}.

Variable rhp : hyper.
Variable num_epochs : Z.

(** The no-gradient block: old values and log-probabilities, GAE,
    returns, and the normalization of the advantages.  Tensors of shape
    [n-1, num_envs] are kept flattened: every later use is elementwise
    or a reduction over all entries. *)
Definition freeze (theta : Params) (h : rhistory) : frozen :=
  let n := length (r_obs h) in
  let num_training_envs := length (hd [] (r_reward h)) in
  let initial_hidden := init_hidden theta num_training_envs in
  let net_out :=
    fst (replay theta initial_hidden (zip2 (r_obs h) (r_terminal h))
                (first_hidden h)) in
  let state_values_old := map rout_value net_out in
  let log_action_probs_old :=
    log_prob (concat (firstn (n - 1) (map rout_action net_out)))
             (concat (r_action h)) in
  let advantages :=
    concat (generalized_advantage_estimate
              (firstn (n - 1) state_values_old)
              (skipn 1 state_values_old)
              (skipn 1 (r_reward h))
              (skipn 1 (r_terminal h))
              (discount rhp) (gae_lambda rhp)) in
  let returns :=
    zip_with Rplus advantages
             (concat (firstn (n - 1) state_values_old)) in
  let advantages :=
    if norm_adv rhp then normalize advantages else advantages in
  {| fr_history := h;
     fr_state_values_old := concat (firstn (n - 1) state_values_old);
     fr_log_action_probs_old := log_action_probs_old;
     fr_advantages := advantages;
     fr_returns := returns |}.

(** The body of [for _ in range(num_epochs)] up to its [yield]. *)
Definition epoch_record (theta : Params) (f : frozen) : rloss_record :=
  let h := fr_history f in
  let n := length (r_obs h) in
  let num_training_envs := length (hd [] (r_reward h)) in
  let initial_hidden := init_hidden theta num_training_envs in
  let (net_out, curr_hidden) :=
    replay theta initial_hidden (zip2 (r_obs h) (r_terminal h))
           (first_hidden h) in
  let state_values := map rout_value net_out in
  let logits := concat (firstn (n - 1) (map rout_action net_out)) in
  let log_action_probs := log_prob logits (concat (r_action h)) in
  let ent := entropy logits in
  let kl := approx_kl_of log_action_probs (fr_log_action_probs_old f) in
  let pg_loss :=
    mean (clipped_advantage_policy_gradient_loss
            log_action_probs (fr_log_action_probs_old f)
            (fr_advantages f)
            (concat (firstn (n - 1) (r_terminal h))) 0.1) in
  let v_loss :=
    value_loss (clip_vf_loss rhp)
               (concat (firstn (n - 1) state_values))
               (fr_state_values_old f) (fr_returns f) in
  let entropy_loss := mean ent in
  {| r_loss := pg_loss - entropy_loss_coeff rhp * entropy_loss
               + v_loss * vf_loss_coeff rhp;
     r_loss_pi := pg_loss;
     r_loss_vf := v_loss;
     r_loss_entropy := - entropy_loss;
     r_approx_kl := kl;
     r_output := net_out;
     r_final_hidden := curr_hidden |}.

(** The generator.  [RStart] is the generator before its first
    [next()]; [RYielded] is the frame suspended at the [yield] of epoch
    [i], with the [approx_kl] of the record just yielded. *)
Inductive rec_state : Type :=
| RStart (h : rhistory)
| RYielded (f : frozen) (i : Z) (kl : R).

(** Enter epoch [i] of [range(num_epochs)]. *)
Definition epoch (theta : Params) (f : frozen) (i : Z)
  : outcome rec_state rloss_record :=
  if (num_epochs <=? i)%Z then Returned
  else
    let r := epoch_record theta f in
    Yielded r (RYielded f i (r_approx_kl r)).

(** [compute_ppo_losses] of script.py: one [next()], with the model
    parameters as they are at that moment. *)
Definition compute_ppo_losses_rec (theta : Params) (s : rec_state)
  : outcome rec_state rloss_record :=
  match s with
  | RStart h => epoch theta (freeze theta h) 0
  | RYielded f i kl =>
      if kl_break (target_kl rhp) kl then Returned
      else epoch theta f (i + 1)
  end.
End Recurrent.
End Collaborators.
End PPO.

(** ** The rollout loop of [train_single_env] (script.py) *)

Module Rollout.
Import Tensor.
Local Open Scope R_scope.

Record config : Type := mkConfig {
  reward_scale : R;
  reward_clip : option R
}.

Section Env.
Variables Params Obs Act Logits : Type.
Variable rmodel :
  Params -> list Obs -> PPO.hidden_state -> PPO.rnet_output Logits.
Variable init_hidden : Params -> nat -> PPO.hidden_state.

(** The dictionary comprehension that scales the observations and drops
    the ignored keys. *)
Variable preprocess : list Obs -> list Obs.

(** What one turn of the loop receives from outside: the action drawn by
    [action_dist.sample()] and the tuple returned by [env.step(action)];
    [e_info_reward] is [info['reward']] when the key is present. *)
Record env_step : Type := mkEnvStep {
  e_action : list Act;
  e_obs : list Obs;
  e_reward : list R;
  e_terminated : list bool;
  e_truncated : list bool;
  e_info_reward : option (list R)
}.

(** The [VecHistoryBuffer], as far as the loop writes to it. *)
Record history_buffer : Type := mkBuffer {
  obs_history : list (list Obs);
  action_history : list (list Act);
  reward_history : list (list R);
  terminal_history : list (list bool);
  misc_history : list PPO.hidden_state
}.

Definition append_action (h : history_buffer) (a : list Act)
  : history_buffer :=
  {| obs_history := obs_history h;
     action_history := action_history h ++ [a];
     reward_history := reward_history h;
     terminal_history := terminal_history h;
     misc_history := misc_history h |}.

Definition append_obs (h : history_buffer) (o : list Obs) (r : list R)
           (done : list bool) (hidden : PPO.hidden_state)
  : history_buffer :=
  {| obs_history := obs_history h ++ [o];
     action_history := action_history h;
     reward_history := reward_history h ++ [r];
     terminal_history := terminal_history h ++ [done];
     misc_history := misc_history h ++ [hidden] |}.

(** The local variables of [train_single_env] that the loop updates. *)
Record state : Type := mkState {
  obs : list Obs;
  hidden : PPO.hidden_state;
  episode_true_reward : list R;
  episode_reward : list R;
  episode_steps : list R;
  episode_rewards : list R;
  history : history_buffer;
  global_step : Z
}.

(** Two states of the loop with the same reward statistics; the
    observations, the hidden state, the step counts and the history may
    differ. *)
Definition same_accumulators (s1 s2 : state) : Prop :=
  episode_true_reward s1 = episode_true_reward s2
  /\ episode_reward s1 = episode_reward s2
  /\ episode_rewards s1 = episode_rewards s2.

Variable theta : Params.
Variable num_envs : nat.
Variable cfg : config.

(** [reward *= reward_scale], then [np.clip] when [reward_clip] is given. *)
Definition shape_reward (reward : list R) : list R :=
  let reward := map (fun r => r * reward_scale cfg) reward in
  match reward_clip cfg with
  | Some c => map (fun r => clamp r (- c) c) reward
  | None => reward
  end.

(** One turn of [for _ in range(rollout_length)]. *)
Definition rollout_step (st : state) (e : env_step) : state :=
  let model_output := rmodel theta (preprocess (obs st)) (hidden st) in
  let hidden1 := PPO.rout_hidden model_output in
  let done := zip_with orb (e_terminated e) (e_truncated e) in
  let history1 := append_action (history st) (e_action e) in
  let episode_reward1 := zip_with Rplus (episode_reward st) (e_reward e) in
  let episode_true_reward1 :=
    zip_with Rplus (episode_true_reward st)
      (match e_info_reward e with
       | Some r => r
       | None => e_reward e
       end) in
  let episode_steps1 := map (fun x => x + 1) (episode_steps st) in
  let reward := shape_reward (e_reward e) in
  let history2 := append_obs history1 (e_obs e) reward done hidden1 in
  if existsb (fun b => b) done then
    {| obs := e_obs e;
       hidden := PPO.reset_hidden done (init_hidden theta num_envs) hidden1;
       episode_true_reward := mask_assign done episode_true_reward1 0;
       episode_reward := mask_assign done episode_reward1 0;
       episode_steps := mask_assign done episode_steps1 0;
       episode_rewards :=
         episode_rewards st ++ mask_select done episode_reward1;
       history := history2;
       global_step := (global_step st + Z.of_nat num_envs)%Z |}
  else
    {| obs := e_obs e;
       hidden := hidden1;
       episode_true_reward := episode_true_reward1;
       episode_reward := episode_reward1;
       episode_steps := episode_steps1;
       episode_rewards := episode_rewards st;
       history := history2;
       global_step := (global_step st + Z.of_nat num_envs)%Z |}.

(** The rollout phase of one cycle: [episode_rewards = []], then the
    loop, one turn per answer of the environment. *)
Definition rollout (st : state) (steps : list env_step) : state :=
  fold_left rollout_step steps
    {| obs := obs st;
       hidden := hidden st;
       episode_true_reward := episode_true_reward st;
       episode_reward := episode_reward st;
       episode_steps := episode_steps st;
       episode_rewards := [];
       history := history st;
       global_step := global_step st |}.
End Env.
End Rollout.

(** ** A small instance of the collaborators *)

(** A policy with one real parameter, used to run the generators on
    concrete trajectories: the logit of every sample is the parameter itself,
    every value estimate is zero, the advantage estimate is the reward and the
    policy-gradient loss is the advantage. *)
Module Toy.
Local Open Scope R_scope.

Definition log_prob (logits : list R) (a : list unit) : list R := logits.

Definition entropy (logits : list R) : list R := map (fun _ => 0) logits.

Definition generalized_advantage_estimate
           (state_values next_state_values rewards : list (list R))
           (terminals : list (list bool)) (discount gae_lambda : R)
  : list (list R) := rewards.

Definition clipped_advantage_policy_gradient_loss
           (log_action_probs old_log_action_probs advantages : list R)
           (terminals : list bool) (epsilon : R) : list R := advantages.

Definition model (theta : R) (o : list unit) : PPO.net_output R :=
  PPO.mkOut (map (fun _ => theta) o) (map (fun _ => 0) o).

Definition rmodel (theta : R) (o : list unit) (h : PPO.hidden_state)
  : PPO.rnet_output R :=
  PPO.mkROut (map (fun _ => theta) o) (map (fun _ => 0) o) h.

Definition init_hidden (theta : R) (n : nat) : PPO.hidden_state :=
  [repeat [0] n].

Definition zip2 (o : list (list unit)) (t : list (list bool))
  : list (list unit * list bool) := combine o t.

(** A shuffle that leaves the array as it is. *)
Definition shuffle (k : nat) (a : list Z) : list Z := a.

Definition hp : PPO.hyper :=
  PPO.mkHyper 0.99 0.95 true None 0.01 0.5 (Some 0).

(** Two observations of four environments; the rewards of the one
    transition are 0, 2, 10 and 12. *)
Definition history4 : PPO.history unit unit :=
  PPO.mkHistory
    [[tt; tt; tt; tt]; [tt; tt; tt; tt]]
    [[tt; tt; tt; tt]]
    [[0; 0; 0; 0]; [0; 2; 10; 12]]
    [[false; false; false; false]; [false; false; false; false]].

(** Two observations of one environment, with one recurrent layer. *)
Definition rhistory1 : PPO.rhistory unit unit :=
  PPO.mkRHistory
    [[tt]; [tt]]
    [[tt]]
    [[0]; [1]]
    [[false]; [false]]
    [[[[0]]]].

Definition flat_resume (minibatch_size num_minibatches : Z) :=
  PPO.compute_ppo_losses_flat
    log_prob entropy generalized_advantage_estimate
    clipped_advantage_policy_gradient_loss None model shuffle tt tt hp
    minibatch_size num_minibatches.

Definition rec_resume (num_epochs : Z) :=
  PPO.compute_ppo_losses_rec
    log_prob entropy generalized_advantage_estimate
    clipped_advantage_policy_gradient_loss None rmodel init_hidden zip2 hp
    num_epochs.
(** Two environments about to take one step: the first episode ends with
    reward 5, the second goes on with reward 7. *)
Definition rollout_state0 : Rollout.state unit unit :=
  Rollout.mkState [tt; tt] [[[0]; [0]]] [0; 0] [0; 0] [0; 0] []
                  (Rollout.mkBuffer [] [] [] [] []) 0.

Definition env_step1 : Rollout.env_step unit unit :=
  Rollout.mkEnvStep [tt; tt] [tt; tt] [5; 7] [true; false] [false; false]
                    None.

Definition rollout (theta : R) (cfg : Rollout.config)
  : Rollout.state unit unit -> list (Rollout.env_step unit unit) ->
    Rollout.state unit unit :=
  Rollout.rollout rmodel init_hidden (fun o : list unit => o) theta 2 cfg.
End Toy.

(** ** The loss of one outer iteration of [train] (script.py) *)

Module Train.
Import Tensor.
Local Open Scope R_scope.

(** The two multitask weighting strategies behind [multitask_weight]. *)
Inductive multitask : Type :=
| Dynamic (st : MultitaskDynamicWeight.t)
| Static (st : MultitaskStaticWeight.t).

(** [assert c], then the rest. *)
Definition assert_then {A : Type} (c : bool) (k : result A) : result A :=
  if c then k else Raise AssertionError.

(** The construction of [multitask_weight] at the top of [train], for
    [num_envs] environment groups: the dynamic strategy when
    [use_multitask_dynamic_weighting] is set, else the static one when
    [multitask_static_weight] is given, else none. *)
Definition make_multitask (num_envs : nat)
           (env_random_score env_max_score : option (list R))
           (use_multitask_dynamic_weighting : bool)
           (multitask_dynamic_weight_temperature : R)
           (multitask_static_weight : option (list R))
  : result (option multitask) :=
  if use_multitask_dynamic_weighting then
    assert_then (match multitask_static_weight with
                 | None => true
                 | Some _ => false
                 end)
      (match env_random_score, env_max_score with
       | None, _ => Raise AssertionError
       | Some _, None => Raise AssertionError
       | Some random_score, Some max_score =>
           assert_then (Nat.eqb (length random_score) (length max_score))
             (assert_then (Nat.eqb (length random_score) num_envs)
                (Ok (Some (Dynamic
                             (MultitaskDynamicWeight.init
                                max_score random_score
                                multitask_dynamic_weight_temperature
                                0.99)))))
       end)
  else
    match multitask_static_weight with
    | Some w =>
        assert_then (Nat.eqb (length w) num_envs)
          (st <- MultitaskStaticWeight.init w ;; Ok (Some (Static st)))
    | None => Ok None
    end.

(** [multitask_weight.step(scores)] *)
Definition multitask_step (m : multitask) (scores : list (list R))
  : result multitask :=
  match m with
  | Dynamic st => st' <- MultitaskDynamicWeight.step st scores ;; Ok (Dynamic st')
  | Static st => Ok (Static (MultitaskStaticWeight.step st scores))
  end.

(** [multitask_weight.weight] *)
Definition multitask_weight (m : multitask) : list R :=
  match m with
  | Dynamic st => MultitaskDynamicWeight.weight st
  | Static st => MultitaskStaticWeight.weight st
  end.

(** The loss that one iteration of the loop over the zipped trainers
    back-propagates: with a weighting strategy, [step] on the episode
    returns of every task, then [(all_losses * weight).sum()]; without one,
    the mean of the losses.  Returns the loss and the strategy after the
    step. *)
Definition mean_loss (m : option multitask)
           (losses : list R) (episode_rewards : list (list R))
  : result (R * option multitask) :=
  match m with
  | Some mw =>
      mw' <- multitask_step mw episode_rewards ;;
      Ok (tsum (zip_with Rmult losses (multitask_weight mw')), Some mw')
  | None => Ok (mean losses, None)
  end.
End Train.

(** ** Resampling and smoothing of curves (plasticity/plot_from_wandb.py) *)

Module Plot.
Import Tensor.
Local Open Scope R_scope.

(** [l[i]] on a Python list: a negative index counts from the end, an
    index outside the list raises. *)
Definition py_index {A : Type} (l : list A) (i : Z) : result A :=
  let j := if (i <? 0)%Z then (i + Z.of_nat (length l))%Z else i in
  if (j <? 0)%Z then Raise IndexError
  else match nth_error l (Z.to_nat j) with
       | Some a => Ok a
       | None => Raise IndexError
       end.

(** [linear(p1, p2, x)]: the line through [p1] and [p2] at [x]; the
    division of two Python numbers raises when the divisor is zero. *)
Definition linear (p1 p2 : R * R) (x : R) : result R :=
  let (x1, y1) := p1 in
  let (x2, y2) := p2 in
  if Req_dec_T (x2 - x1) 0 then Raise ZeroDivisionError
  else Ok (y1 + (x - x1) * (y2 - y1) / (x2 - x1)).

(** The values of the argument [extrapolation]; [ExOther] is any string
    besides ['linear'], ['constant'] and ['none']. *)
Inductive extrapolation : Type :=
| ExLinear
| ExConstant
| ExNone
| ExOther.

(** The [if/elif/else] chain on [extrapolation] that both ends of the data
    go through: what is appended to [resampled_data] for the abscissa
    [x_xi] next to the data point [d]; [lin] is the call to [linear] of the
    ['linear'] branch. *)
Definition extrapolate (e : extrapolation) (lin : result R)
           (x_xi : R) (d : R * R) : result (list (R * R)) :=
  match e with
  | ExLinear => y <- lin ;; Ok [(x_xi, y)]
  | ExConstant => Ok [(x_xi, snd d)]
  | ExNone => Ok []
  | ExOther => Raise ValueError
  end.

(** What the rest of the loop adds after the points [pts] of this turn;
    [None] is a loop that has not ended within the turns it was given. *)
Definition then_points (pts : result (list (R * R)))
           (rest : option (result (list (R * R))))
  : option (result (list (R * R))) :=
  match pts with
  | Raise e => Some (Raise e)
  | Ok l =>
      match rest with
      | None => None
      | Some (Raise e) => Some (Raise e)
      | Some (Ok l') => Some (Ok (l ++ l'))
      end
  end.

(** No two consecutive data points share their abscissa. *)
Definition consecutive_distinct (data : list (R * R)) : Prop :=
  forall i, (S i < length data)%nat ->
            fst (nth i data (0, 0)) <> fst (nth (S i) data (0, 0)).

(** The abscissas of the data increase strictly. *)
Definition increasing (data : list (R * R)) : Prop :=
  forall i, (S i < length data)%nat ->
            fst (nth i data (0, 0)) < fst (nth (S i) data (0, 0)).

Section Resample.
Variable data : list (R * R).
Variable x : list R.
Variable e : extrapolation.

(** [while xi < len(x) and di < len(data)], at most [turns] turns. *)
Fixpoint resample_loop (turns : nat) (xi di : nat)
  : option (result (list (R * R))) :=
  match turns with
  | O => None
  | S turns' =>
      if Nat.ltb xi (length x) && Nat.ltb di (length data) then
        let x_xi := nth xi x 0 in
        let d := nth di data (0, 0) in
        if Rle_dec x_xi (fst d) then
          then_points
            (if Nat.eqb di 0 then
               extrapolate e
                 (d1 <- py_index data (Z.of_nat di + 1) ;; linear d d1 x_xi)
                 x_xi d
             else
               d0 <- py_index data (Z.of_nat di - 1) ;;
               y <- linear d0 d x_xi ;;
               Ok [(x_xi, y)])
            (resample_loop turns' (S xi) di)
        else if (Z.of_nat di =? Z.of_nat (length data) - 1)%Z then
          then_points
            (extrapolate e
               (d0 <- py_index data (Z.of_nat di - 1) ;; linear d0 d x_xi)
               x_xi d)
            (resample_loop turns' (S xi) di)
        else resample_loop turns' xi (S di)
      else Some (Ok [])
  end.

(** [resample_data(data, x, extrapolation)]: every turn of the loop
    advances [xi] or [di], so [len(x) + len(data) + 1] turns are enough. *)
Definition resample_data : option (result (list (R * R))) :=
  resample_loop (S (length x + length data)) 0 0.
End Resample.

(** The loop of [plot_ema]: [y_ema[i] = y[i] if i == 0 else
    alpha*y_ema[i-1] + (1-alpha)*y[i]], on an array of floats. *)
Fixpoint ema_from (alpha prev : R) (y : list R) : list R :=
  match y with
  | [] => []
  | yi :: rest =>
      let v := alpha * prev + (1 - alpha) * yi in
      v :: ema_from alpha v rest
  end.

Definition y_ema (alpha : R) (y : list R) : list R :=
  match y with
  | [] => []
  | y0 :: rest => y0 :: ema_from alpha y0 rest
  end.
End Plot.

(** ** Theorems *)

Module RewardNoiseFacts.
Import RewardNoise.

Section Cycle.
Context {A : Type} (zero : A).

Lemma cycle_pass_defined (on off i : nat) (x : A) :
  (on, off) <> (0, 0) ->
  cycle_pass zero on off i x =
    Ok (if Nat.ltb (i mod (on + off)) on then x else zero).
Proof.
  intros Hne. unfold cycle_pass.
  destruct (Nat.eqb (on + off) 0) eqn:E; [|reflexivity].
  apply Nat.eqb_eq in E. exfalso. apply Hne.
  f_equal; lia.
Qed.

(** From a state that has already served [c] calls, the [i]-th further
    call sees the index [c + i]. *)
Lemma apply_all_cycle_steps (on off : nat) (xs : list A) :
  (on, off) <> (0, 0) ->
  forall c tc,
  exists ys s',
    apply_all zero (mk (ZeroCycleSteps on off) c tc) xs = Ok (ys, s')
    /\ length ys = length xs
    /\ forall i x, nth_error xs i = Some x ->
         nth_error ys i =
           Some (if Nat.ltb ((c + i) mod (on + off)) on then x else zero).
Proof.
  intros Hne. induction xs as [|x xs IH]; intros c tc.
  - exists [], (mk (ZeroCycleSteps on off) c tc).
    repeat split. intros [|i] y; discriminate.
  - destruct (IH (S c) tc) as (ys & s' & Hrun & Hlen & Hnth).
    exists ((if Nat.ltb (c mod (on + off)) on then x else zero) :: ys), s'.
    repeat split.
    + simpl apply_all. unfold RewardNoise.apply. simpl noise. simpl step_count.
      simpl trial_count.
      replace (S c - 1) with c by lia.
      rewrite cycle_pass_defined by assumption.
      simpl. rewrite Hrun. reflexivity.
    + simpl. now rewrite Hlen.
    + intros [|i] y Hy; simpl in Hy |- *.
      * injection Hy as <-. now rewrite Nat.add_0_r.
      * rewrite (Hnth i y Hy). now replace (c + S i) with (S c + i) by lia.
Qed.
End Cycle.

(** C2.  For [RewardNoise('zero', (onLen, offLen), 'cycle_steps')] with
    [(onLen, offLen) <> (0, 0)], every call succeeds and the [k]-th call
    ([k] from 1) returns its input when [(k - 1) mod (onLen + offLen) <
    onLen] and zero otherwise; with [(2, 3)] the calls [apply(1)], ...,
    [apply(10)] return [1, 2, 0, 0, 0, 6, 7, 0, 0, 0]. *)
Theorem zero_cycle_steps_kth_call
        (A : Type) (zero : A) (on off : nat) (xs : list A) :
  (on, off) <> (0, 0) ->
  (exists ys s',
      apply_all zero (make (ZeroCycleSteps on off)) xs = Ok (ys, s')
      /\ length ys = length xs
      /\ forall k x, 1 <= k -> nth_error xs (k - 1) = Some x ->
           nth_error ys (k - 1) =
             Some (if Nat.ltb ((k - 1) mod (on + off)) on then x else zero))
  /\ (exists s',
        apply_all 0%Z (make (ZeroCycleSteps 2 3))
                  [1; 2; 3; 4; 5; 6; 7; 8; 9; 10]%Z
        = Ok ([1; 2; 0; 0; 0; 6; 7; 0; 0; 0]%Z, s')).
Proof.
  intros Hne. split.
  - destruct (apply_all_cycle_steps zero xs Hne 0 0)
      as (ys & s' & Hrun & Hlen & Hnth).
    exists ys, s'. repeat split; try assumption.
    intros k x _ Hx. exact (Hnth (k - 1) x Hx).
  - eexists. vm_compute. reflexivity.
Qed.

Lemma zero_cycle_steps_kth_call_witness :
  (2, 3) <> (0, 0)
  /\ exists ys s',
       apply_all 0%Z (make (ZeroCycleSteps 2 3)) [5; 6; 7; 8]%Z = Ok (ys, s')
       /\ length ys = 4
       /\ forall k x, 1 <= k -> nth_error [5; 6; 7; 8]%Z (k - 1) = Some x ->
            nth_error ys (k - 1) =
              Some (if Nat.ltb ((k - 1) mod (2 + 3)) 2 then x else 0%Z).
Proof.
  split; [discriminate|].
  apply (zero_cycle_steps_kth_call 0%Z (on := 2) (off := 3) [5; 6; 7; 8]%Z).
  discriminate.
Defined.

(** C7.  [RewardNoise('zero', (0, 0), 'cycle_steps')] raises a
    configuration error on its first [apply] call, whatever the reward, so
    that no sequence of calls returns anything; and [(0, 0)] is the only
    cycle for which the first call raises. *)
Theorem zero_cycle_steps_0_0_raises (A : Type) (zero raw : A) :
  apply zero (make (ZeroCycleSteps 0 0)) raw = Raise ConfigurationError
  /\ (forall rest,
        apply_all zero (make (ZeroCycleSteps 0 0)) (raw :: rest)
        = Raise ConfigurationError)
  /\ (forall on off,
        apply zero (make (ZeroCycleSteps on off)) raw
        = Raise ConfigurationError
        <-> (on, off) = (0, 0)).
Proof.
  split; [reflexivity|]. split; [reflexivity|].
  intros on off. split.
  - intros H. destruct (Nat.eq_dec (on + off) 0) as [E|E].
    + f_equal; lia.
    + exfalso. unfold apply, make in H. cbn [noise step_count] in H.
      rewrite cycle_pass_defined in H; [discriminate|].
      intros Hp. injection Hp as -> ->. now apply E.
  - intros H. injection H as -> ->. reflexivity.
Qed.

(** *** The deterministic tests of test_reward_noise.py, on the model *)

Example test_no_noise :
  fst_ok (apply_all 0%Z (make NoNoise) [0; 1; 12]%Z) = Some [0; 1; 12]%Z.
Proof. reflexivity. Qed.

Example test_zero_noise_cycle_steps_1_1 :
  fst_ok (apply_all 0%Z (make (ZeroCycleSteps 1 1)) [1; 2; 3; 4; 5; 6]%Z)
  = Some [1; 0; 3; 0; 5; 0]%Z.
Proof. reflexivity. Qed.

Example test_zero_noise_cycle_steps_1_2 :
  fst_ok (apply_all 0%Z (make (ZeroCycleSteps 1 2)) [1; 2; 3; 4; 5; 6; 7]%Z)
  = Some [1; 0; 0; 4; 0; 0; 7]%Z.
Proof. reflexivity. Qed.

Example test_stop_noise_0_steps :
  fst_ok (apply_all 0%Z (make (StopSteps 0)) [1; 2; 3; 4; 5; 6]%Z)
  = Some [0; 0; 0; 0; 0; 0]%Z.
Proof. reflexivity. Qed.

Example test_stop_noise_3_steps :
  fst_ok (apply_all 0%Z (make (StopSteps 3)) [1; 2; 3; 4; 5; 6]%Z)
  = Some [1; 2; 3; 0; 0; 0]%Z.
Proof. reflexivity. Qed.

Example test_zero_noise_cycle_trials_1_1 :
  (p1 <- apply_all 0%Z (make (ZeroCycleTrials 1 1)) [1]%Z ;;
   p2 <- apply_all 0%Z (trial_finished (snd p1)) [2; 3]%Z ;;
   p3 <- apply_all 0%Z (trial_finished (snd p2)) [4; 5; 6]%Z ;;
   p4 <- apply_all 0%Z (trial_finished (snd p3)) [7]%Z ;;
   p5 <- apply_all 0%Z (trial_finished (snd p4)) [8; 9]%Z ;;
   Ok (fst p1 ++ fst p2 ++ fst p3 ++ fst p4 ++ fst p5))
  = Ok [1; 0; 0; 4; 5; 6; 0; 8; 9]%Z.
Proof. reflexivity. Qed.

Example test_stop_noise_1_trials :
  (p1 <- apply_all 0%Z (make (StopTrials 1)) [1; 2; 3]%Z ;;
   p2 <- apply_all 0%Z (trial_finished (snd p1)) [4; 5; 6]%Z ;;
   Ok (fst p1 ++ fst p2))
  = Ok [1; 2; 3; 0; 0; 0]%Z.
Proof. reflexivity. Qed.

End RewardNoiseFacts.

(** ** Facts about tensors *)

Module TensorFacts.
Import Tensor.
Local Open Scope R_scope.

Lemma zip_with_length {A B C : Type} (f : A -> B -> C) xs ys :
  length (zip_with f xs ys) = Nat.min (length xs) (length ys).
Proof.
  revert ys. induction xs as [|x xs IH]; intros [|y ys]; simpl; auto.
Qed.

Lemma tsum_app (a b : list R) : tsum (a ++ b) = tsum a + tsum b.
Proof.
  induction a as [|x a IH]; simpl.
  - lra.
  - unfold tsum in *. simpl. rewrite IH. lra.
Qed.

Lemma tsum_map_div (l : list R) (s : R) :
  tsum (map (fun x => x / s) l) = tsum l / s.
Proof.
  induction l as [|x l IH]; unfold tsum in *; simpl.
  - unfold Rdiv. lra.
  - rewrite IH. unfold Rdiv. lra.
Qed.


Lemma tsum_repeat (x : R) (n : nat) : tsum (repeat x n) = INR n * x.
Proof.
  induction n as [|n IH].
  - unfold tsum. simpl. lra.
  - change (tsum (repeat x (S n))) with (x + tsum (repeat x n)).
    rewrite IH, S_INR. lra.
Qed.


Lemma set_item_length {A : Type} (l l' : list A) (i : nat) (v : A) :
  set_item l i v = Some l' -> length l' = length l.
Proof.
  revert i l'. induction l as [|x l IH]; intros [|i] l' H; simpl in H;
    try discriminate.
  - now inversion H.
  - destruct (set_item l i v) as [l0|] eqn:E; simpl in H; [|discriminate].
    inversion H; subst. simpl. f_equal. eauto.
Qed.





End TensorFacts.

(** ** Facts about the multitask weights *)

Module MultitaskFacts.
Import Tensor TensorFacts.
Local Open Scope R_scope.

Module Static.
Import MultitaskStaticWeight.

Lemma forallb_nonneg (w : list R) :
  Forall (fun x => 0 <= x) w -> forallb (fun x => Rgeb x 0) w = true.
Proof.
  induction 1 as [|x l Hx _ IH]; simpl; [reflexivity|].
  rewrite IH. unfold Rgeb. destruct (Rle_dec 0 x); [reflexivity|contradiction].
Qed.

Lemma steps_id (st : t) (calls : list (list (list R))) : steps st calls = st.
Proof.
  unfold steps. revert st. induction calls as [|c calls IH]; intro st; simpl.
  - reflexivity.
  - apply IH.
Qed.

(** C8.  A [MultitaskStaticWeight] built from a non-negative vector with
    positive sum is constructed without error, its [weight] sums to 1,
    and no sequence of [step] calls, whatever their arguments, changes
    it. *)
Theorem static_weight_sums_to_one_and_is_fixed
        (w : list R) (calls : list (list (list R))) :
  Forall (fun x => 0 <= x) w ->
  0 < tsum w ->
  exists st,
    init w = Ok st
    /\ tsum (weight st) = 1
    /\ weight (steps st calls) = weight st
    /\ tsum (weight (steps st calls)) = 1.
Proof.
  intros Hnonneg Hsum.
  exists {| _weight := map (fun x => x / tsum w) w |}.
  assert (Hone : tsum (map (fun x => x / tsum w) w) = 1).
  { rewrite tsum_map_div. field. lra. }
  repeat split.
  - unfold init. now rewrite forallb_nonneg.
  - exact Hone.
  - now rewrite steps_id.
  - rewrite steps_id. exact Hone.
Qed.

Lemma static_weight_sums_to_one_and_is_fixed_witness :
  Forall (fun x => 0 <= x) [1; 3]
  /\ 0 < tsum [1; 3]
  /\ exists st,
       init [1; 3] = Ok st
       /\ tsum (weight st) = 1
       /\ weight (steps st [[[5]; [7]]; [[]; [2; 2]]]) = weight st
       /\ tsum (weight (steps st [[[5]; [7]]; [[]; [2; 2]]])) = 1.
Proof.
  assert (H1 : Forall (fun x => 0 <= x) [1; 3]).
  { repeat constructor; lra. }
  assert (H2 : 0 < tsum [1; 3]).
  { unfold tsum. simpl. lra. }
  split; [exact H1|]. split; [exact H2|].
  exact (static_weight_sums_to_one_and_is_fixed
           [[[5]; [7]]; [[]; [2; 2]]] H1 H2).
Defined.
End Static.
Module Dynamic.
Import MultitaskDynamicWeight.

Lemma step_task_length w score i task_scores score' :
  step_task w score i task_scores = Ok score' ->
  length score' = length score.
Proof.
  revert score. induction task_scores as [|s rest IH]; intros score H;
    simpl in H.
  - now inversion H.
  - destruct (nth_error score i) as [x|]; [|discriminate].
    destruct (set_item score i (x * w + s * (1 - w))) as [sc|] eqn:E;
      [|discriminate].
    rewrite (IH _ H). eapply set_item_length; eauto.
Qed.

Lemma step_from_length w scores : forall score i score',
  step_from w score i scores = Ok score' ->
  length score' = length score.
Proof.
  induction scores as [|ts rest IH]; intros score i score' H; simpl in H.
  - now inversion H.
  - destruct (step_task w score i ts) as [sc|e] eqn:E; simpl in H;
      [|discriminate].
    rewrite (IH _ _ _ H). eapply step_task_length; eauto.
Qed.

(** [step] only writes [_score], and keeps its shape. *)
Lemma step_frame st scores st' :
  step st scores = Ok st' ->
  _max_score st' = _max_score st
  /\ _random_score st' = _random_score st
  /\ _temperature st' = _temperature st
  /\ length (_score st') = length (_score st).
Proof.
  unfold step. intros H.
  destruct (step_from (_ema_weight st) (_score st) 0 scores) as [sc|e] eqn:E;
    simpl in H; [|discriminate].
  inversion H; subst; simpl. repeat split.
  eapply step_from_length; eauto.
Qed.


(** The exponent the code computes is the spec's deficit. *)
Lemma relative_score_deficit (T : R) (r : list R) : forall s m,
  map (fun z => z / T)
      (zip_with (fun a b => a / b)
                (map Ropp (zip_with Rminus s r)) (zip_with Rminus m r))
  = zip_with (fun rs m_r => rs / m_r / T)
             (zip_with Rminus r s) (zip_with Rminus m r).
Proof.
  induction r as [|r0 r IH]; intros [|s0 s] [|m0 m]; simpl; try reflexivity.
  rewrite IH. f_equal. unfold Rdiv, Rminus. ring.
Qed.

Lemma weight_softmax st : weight st = softmax (deficit st).
Proof.
  unfold weight, softmax, deficit.
  rewrite <- relative_score_deficit.
  rewrite !map_map. reflexivity.
Qed.

Lemma softmax_length z : length (softmax z) = length z.
Proof. unfold softmax. now rewrite length_map. Qed.




Lemma deficit_length st :
  length (_max_score st) = length (_random_score st) ->
  length (_score st) = length (_random_score st) ->
  length (deficit st) = length (_random_score st).
Proof.
  intros H1 H2. unfold deficit. rewrite !zip_with_length. lia.
Qed.


End Dynamic.
End MultitaskFacts.

(** ** Facts about the hidden-state reset and the rollout loop *)

Module RolloutFacts.
Import Tensor TensorFacts.
Local Open Scope R_scope.

Lemma nth_error_zip_with {A B C : Type} (f : A -> B -> C) :
  forall xs ys i x y,
    nth_error xs i = Some x -> nth_error ys i = Some y ->
    nth_error (zip_with f xs ys) i = Some (f x y).
Proof.
  induction xs as [|x0 xs IH]; intros [|y0 ys] [|i] x y Hx Hy;
    simpl in *; try discriminate.
  - injection Hx as <-. injection Hy as <-. reflexivity.
  - eauto.
Qed.



Lemma existsb_false_nth (mask : list bool) :
  existsb (fun b => b) mask = false ->
  forall k m, nth_error mask k = Some m -> m = false.
Proof.
  induction mask as [|b mask IH]; intros H [|k] m Hk; simpl in *;
    try discriminate.
  - apply orb_false_elim in H. destruct H. congruence.
  - apply orb_false_elim in H. destruct H. eauto.
Qed.


Section Env.
Variables Params Obs Act Logits : Type.
Variable preprocess_input_fn : option (Obs -> Obs).
Variable rmodel :
  Params -> list Obs -> PPO.hidden_state -> PPO.rnet_output Logits.
Variable init_hidden : Params -> nat -> PPO.hidden_state.
Variable preprocess : list Obs -> list Obs.

Local Abbreviation step :=
  (Rollout.rollout_step rmodel init_hidden preprocess).
Local Abbreviation rollout :=
  (Rollout.rollout rmodel init_hidden preprocess).

Lemma rollout_step_same theta1 theta2 num_envs cfg1 cfg2
      (s1 s2 : Rollout.state Obs Act) e :
  Rollout.same_accumulators s1 s2 ->
  Rollout.same_accumulators (step theta1 num_envs cfg1 s1 e)
                            (step theta2 num_envs cfg2 s2 e).
Proof.
  unfold Rollout.same_accumulators.
  intros (Ht & Hr & Hrs).
  unfold Rollout.rollout_step. rewrite Ht, Hr, Hrs.
  destruct (existsb (fun b => b)
              (zip_with orb (Rollout.e_terminated e) (Rollout.e_truncated e)));
    simpl; repeat split.
Qed.

Lemma fold_rollout_step_same theta1 theta2 num_envs cfg1 cfg2 steps :
  forall s1 s2 : Rollout.state Obs Act,
    Rollout.same_accumulators s1 s2 ->
    Rollout.same_accumulators
      (fold_left (step theta1 num_envs cfg1) steps s1)
      (fold_left (step theta2 num_envs cfg2) steps s2).
Proof.
  induction steps as [|e steps IH]; intros s1 s2 H; simpl.
  - exact H.
  - apply IH. now apply rollout_step_same.
Qed.

Lemma rollout_step_reward_history theta num_envs cfg
      (st : Rollout.state Obs Act) e :
  Rollout.reward_history (Rollout.history (step theta num_envs cfg st e))
  = Rollout.reward_history (Rollout.history st)
    ++ [Rollout.shape_reward cfg (Rollout.e_reward e)].
Proof.
  unfold Rollout.rollout_step.
  destruct (existsb (fun b => b)
              (zip_with orb (Rollout.e_terminated e) (Rollout.e_truncated e)));
    reflexivity.
Qed.

Lemma fold_rollout_step_reward_history theta num_envs cfg steps :
  forall st : Rollout.state Obs Act,
    Rollout.reward_history
      (Rollout.history (fold_left (step theta num_envs cfg) steps st))
    = Rollout.reward_history (Rollout.history st)
      ++ map (fun e => Rollout.shape_reward cfg (Rollout.e_reward e)) steps.
Proof.
  induction steps as [|e steps IH]; intro st; simpl.
  - now rewrite app_nil_r.
  - rewrite IH, rollout_step_reward_history, <- app_assoc. reflexivity.
Qed.

(** C10.  In the rollout loop of [train_single_env] the accumulators
    [episode_reward] and [episode_true_reward] add the reward as the
    environment returned it, and [episode_rewards] collects
    [episode_reward] of the finished slots, all before [reward_scale] and
    [reward_clip] touch the reward; the history receives the scaled, then
    clipped reward.  So two rollouts that start with the same accumulators
    and see the same environment answers end with the same
    [episode_rewards] and accumulators, whatever their [reward_scale] and
    [reward_clip] (and whatever the model parameters, which training on
    differently shaped rewards makes differ). *)
Theorem episode_rewards_ignore_reward_shaping
        theta1 theta2 num_envs (cfg1 cfg2 : Rollout.config)
        (s1 s2 : Rollout.state Obs Act)
        (steps : list (Rollout.env_step Obs Act)) :
  Rollout.episode_reward s1 = Rollout.episode_reward s2 ->
  Rollout.episode_true_reward s1 = Rollout.episode_true_reward s2 ->
  (Rollout.episode_rewards (rollout theta1 num_envs cfg1 s1 steps)
   = Rollout.episode_rewards (rollout theta2 num_envs cfg2 s2 steps)
   /\ Rollout.episode_reward (rollout theta1 num_envs cfg1 s1 steps)
      = Rollout.episode_reward (rollout theta2 num_envs cfg2 s2 steps)
   /\ Rollout.episode_true_reward (rollout theta1 num_envs cfg1 s1 steps)
      = Rollout.episode_true_reward (rollout theta2 num_envs cfg2 s2 steps))
  /\ (forall e,
        let done := zip_with orb (Rollout.e_terminated e)
                             (Rollout.e_truncated e) in
        let raw_sum := zip_with Rplus (Rollout.episode_reward s1)
                                (Rollout.e_reward e) in
        let raw_true_sum :=
          zip_with Rplus (Rollout.episode_true_reward s1)
            (match Rollout.e_info_reward e with
             | Some r => r
             | None => Rollout.e_reward e
             end) in
        Rollout.episode_rewards (step theta1 num_envs cfg1 s1 e)
        = Rollout.episode_rewards s1
          ++ (if existsb (fun b => b) done
              then mask_select done raw_sum else [])
        /\ Rollout.episode_reward (step theta1 num_envs cfg1 s1 e)
           = (if existsb (fun b => b) done
              then mask_assign done raw_sum 0 else raw_sum)
        /\ Rollout.episode_true_reward (step theta1 num_envs cfg1 s1 e)
           = (if existsb (fun b => b) done
              then mask_assign done raw_true_sum 0 else raw_true_sum))
  /\ Rollout.reward_history
       (Rollout.history (rollout theta1 num_envs cfg1 s1 steps))
     = Rollout.reward_history (Rollout.history s1)
       ++ map (fun e =>
                 map (fun r =>
                        match Rollout.reward_clip cfg1 with
                        | Some c =>
                            clamp (r * Rollout.reward_scale cfg1) (- c) c
                        | None => r * Rollout.reward_scale cfg1
                        end)
                     (Rollout.e_reward e))
              steps.
Proof.
  intros Hr Ht. split; [|split].
  - unfold Rollout.rollout.
    match goal with
    | |- context [fold_left (step theta1 _ _) steps ?a] =>
        match goal with
        | |- context [fold_left (step theta2 _ _) steps ?b] =>
            destruct (@fold_rollout_step_same
                        theta1 theta2 num_envs cfg1 cfg2 steps a b)
              as (Ht' & Hr' & Hrs')
        end
    end.
    + unfold Rollout.same_accumulators. simpl. repeat split; assumption.
    + repeat split; assumption.
  - intros e done raw_sum raw_true_sum. subst done raw_sum raw_true_sum.
    unfold Rollout.rollout_step.
    destruct (existsb (fun b => b)
                (zip_with orb (Rollout.e_terminated e) (Rollout.e_truncated e)));
      simpl; repeat split. now rewrite app_nil_r.
  - unfold Rollout.rollout. rewrite fold_rollout_step_reward_history. simpl.
    f_equal. apply map_ext. intro e. unfold Rollout.shape_reward.
    destruct (Rollout.reward_clip cfg1); now rewrite ?map_map.
Qed.

End Env.

Lemma episode_rewards_ignore_reward_shaping_witness :
  Rollout.episode_rewards
    (Toy.rollout 0 (Rollout.mkConfig 1 (Some 1)) Toy.rollout_state0
                 [Toy.env_step1])
  = [0 + 5]
  /\ Rollout.episode_rewards
       (Toy.rollout 1 (Rollout.mkConfig 10 None) Toy.rollout_state0
                    [Toy.env_step1])
     = [0 + 5]
  /\ Rollout.reward_history
       (Rollout.history
          (Toy.rollout 0 (Rollout.mkConfig 1 (Some 1)) Toy.rollout_state0
                       [Toy.env_step1]))
     = [[clamp (5 * 1) (- 1) 1; clamp (7 * 1) (- 1) 1]].
Proof.
  destruct (@episode_rewards_ignore_reward_shaping
              R unit unit R Toy.rmodel Toy.init_hidden (fun o => o)
              0 1 2%nat (Rollout.mkConfig 1 (Some 1))
              (Rollout.mkConfig 10 None)
              Toy.rollout_state0 Toy.rollout_state0 [Toy.env_step1]
              eq_refl eq_refl)
    as ((Hsame & _ & _) & _ & Hhist).
  split; [reflexivity|].
  split; [unfold Toy.rollout; rewrite <- Hsame; reflexivity|].
  unfold Toy.rollout. rewrite Hhist. reflexivity.
Defined.

End RolloutFacts.

(** ** Facts about generators *)

Module GeneratorFacts.

(** If a generator returns on the [next()] that follows a record satisfying
    [stop], then such a record is the last one of any run, and the run
    ends by a normal return as soon as the consumer asks once more. *)
Lemma drive_stops {W St Y : Type} (resume : W -> St -> outcome St Y)
      (stop : Y -> Prop) :
  (forall w s y s', resume w s = Yielded y s' -> stop y ->
                    forall w', resume w' s' = Returned) ->
  forall ws s i y,
    nth_error (fst (drive resume ws s)) i = Some y -> stop y ->
    nth_error (fst (drive resume ws s)) (S i) = None
    /\ (S i < length ws -> snd (drive resume ws s) = Finished).
Proof.
  intros Hstop. induction ws as [|w ws IH]; intros s i y Hy Hs.
  - destruct i; discriminate.
  - simpl in *. destruct (resume w s) as [y0 s0| |e] eqn:E.
    + destruct (drive resume ws s0) as [ys e0] eqn:D. simpl in *.
      destruct i as [|i]; simpl in *.
      * injection Hy as <-.
        destruct ws as [|w' ws'].
        -- simpl in D. injection D as <- <-. split; [reflexivity|]. simpl. lia.
        -- simpl in D. rewrite (Hstop _ _ _ _ E Hs w') in D.
           injection D as <- <-. split; reflexivity.
      * specialize (IH s0 i y). rewrite D in IH. simpl in IH.
        destruct (IH Hy Hs) as [H1 H2]. split; [exact H1|].
        intros Hlt. apply H2. lia.
    + destruct i; discriminate.
    + destruct i; discriminate.
Qed.

Lemma drive_length {W St Y : Type} (resume : W -> St -> outcome St Y) :
  forall ws s, length (fst (drive resume ws s)) <= length ws.
Proof.
  induction ws as [|w ws IH]; intro s; simpl.
  - lia.
  - destruct (resume w s) as [y0 s0| |e]; simpl; try lia.
    specialize (IH s0). destruct (drive resume ws s0). simpl in *. lia.
Qed.

End GeneratorFacts.

(** ** Facts about the PPO loss generators *)

Module PPOFacts.
Import Tensor TensorFacts GeneratorFacts.
Local Open Scope R_scope.

Lemma kl_break_above (t kl : R) : kl > t -> PPO.kl_break (Some t) kl = true.
Proof.
  intros H. unfold PPO.kl_break, Rgtb.
  destruct (Rlt_dec t kl) as [_|n]; [reflexivity|].
  exfalso. apply n. exact H.
Qed.

Lemma kl_break_not_above (t kl : R) :
  kl <= t -> PPO.kl_break (Some t) kl = false.
Proof.
  intros H. unfold PPO.kl_break, Rgtb.
  destruct (Rlt_dec t kl) as [Hlt|_]; [lra|reflexivity].
Qed.

Section Collaborators.
Variables Params Obs Act Logits : Type.
Variable log_prob : list Logits -> list Act -> list R.
Variable entropy : list Logits -> list R.
Variable generalized_advantage_estimate :
  list (list R) -> list (list R) -> list (list R) -> list (list bool) ->
  R -> R -> list (list R).
Variable clipped_advantage_policy_gradient_loss :
  list R -> list R -> list R -> list bool -> R -> list R.
Variable preprocess_input_fn : option (Obs -> Obs).
Variable model : Params -> list Obs -> PPO.net_output Logits.
Variable shuffle : nat -> list Z -> list Z.
Variable obs0 : Obs.
Variable act0 : Act.
Variable rmodel :
  Params -> list Obs -> PPO.hidden_state -> PPO.rnet_output Logits.
Variable init_hidden : Params -> nat -> PPO.hidden_state.
Variable zip2 :
  list (list Obs) -> list (list bool) -> list (list Obs * list bool).
Variable hp : PPO.hyper.
Variables minibatch_size num_minibatches num_epochs : Z.

Local Abbreviation flat_resume :=
  (PPO.compute_ppo_losses_flat
     log_prob entropy generalized_advantage_estimate
     clipped_advantage_policy_gradient_loss preprocess_input_fn
     model shuffle obs0 act0 hp minibatch_size num_minibatches).

Local Abbreviation rec_resume :=
  (PPO.compute_ppo_losses_rec
     log_prob entropy generalized_advantage_estimate
     clipped_advantage_policy_gradient_loss preprocess_input_fn
     rmodel init_hidden zip2 hp num_epochs).

(** The frame suspended at a [yield] remembers the [approx_kl] of the
    record it yielded. *)
Lemma flat_yield_frame theta s r s' :
  flat_resume theta s = Yielded r s' ->
  exists f batch_size mbs,
    s' = PPO.FYielded f batch_size mbs (PPO.approx_kl r).
Proof.
  unfold PPO.compute_ppo_losses_flat, PPO.flat_next. intros H.
  destruct s as [h|f bs mbs kl].
  - destruct (PPO.flatten _ _ _ _ _ _ h) as [f bs].
    destruct (Minibatch.enum_minibatches _ _ _ _ _ _) as [mb mbs'| |e];
      try discriminate.
    injection H as <- <-. now exists f, bs, mbs'.
  - destruct (PPO.kl_break _ kl); [discriminate|].
    destruct (Minibatch.enum_minibatches _ _ _ _ _ _) as [mb mbs'| |e];
      try discriminate.
    injection H as <- <-. now exists f, bs, mbs'.
Qed.

Lemma rec_yield_frame theta s r s' :
  rec_resume theta s = Yielded r s' ->
  exists f i, s' = PPO.RYielded f i (PPO.r_approx_kl r).
Proof.
  unfold PPO.compute_ppo_losses_rec, PPO.epoch. intros H.
  destruct s as [h|f i kl].
  - destruct (num_epochs <=? 0)%Z; [discriminate|].
    injection H as <- <-. eauto.
  - destruct (PPO.kl_break _ kl); [discriminate|].
    destruct (num_epochs <=? i + 1)%Z; [discriminate|].
    injection H as <- <-. eauto.
Qed.

Lemma flat_stops_after (t : R) theta s r s' :
  PPO.target_kl hp = Some t ->
  flat_resume theta s = Yielded r s' -> PPO.approx_kl r > t ->
  forall theta', flat_resume theta' s' = Returned.
Proof.
  intros Ht Hy Hkl theta'.
  destruct (flat_yield_frame _ _ Hy) as (f & bs & mbs & ->).
  simpl. rewrite Ht, kl_break_above by assumption. reflexivity.
Qed.

Lemma rec_stops_after (t : R) theta s r s' :
  PPO.target_kl hp = Some t ->
  rec_resume theta s = Yielded r s' -> PPO.r_approx_kl r > t ->
  forall theta', rec_resume theta' s' = Returned.
Proof.
  intros Ht Hy Hkl theta'.
  destruct (rec_yield_frame _ _ Hy) as (f & i & ->).
  simpl. rewrite Ht, kl_break_above by assumption. reflexivity.
Qed.

(** C3.  With [target_kl] set to [t], in both variants of
    [compute_ppo_losses]: the [next()] that follows a record whose
    [approx_kl] exceeds [t] returns, it neither yields nor raises; hence in
    every run, whatever the model parameters at each [next()], such a
    record is the last one yielded and the run ends by a normal return. *)
Theorem target_kl_stops_the_generator (t : R) :
  PPO.target_kl hp = Some t ->
  (forall theta s r s',
      flat_resume theta s = Yielded r s' -> PPO.approx_kl r > t ->
      forall theta', flat_resume theta' s' = Returned)
  /\ (forall thetas s i r,
        nth_error (fst (drive flat_resume thetas s)) i = Some r ->
        PPO.approx_kl r > t ->
        nth_error (fst (drive flat_resume thetas s)) (S i) = None
        /\ ((S i < length thetas)%nat ->
            snd (drive flat_resume thetas s) = Finished))
  /\ (forall theta s r s',
        rec_resume theta s = Yielded r s' -> PPO.r_approx_kl r > t ->
        forall theta', rec_resume theta' s' = Returned)
  /\ (forall thetas s i r,
        nth_error (fst (drive rec_resume thetas s)) i = Some r ->
        PPO.r_approx_kl r > t ->
        nth_error (fst (drive rec_resume thetas s)) (S i) = None
        /\ ((S i < length thetas)%nat ->
            snd (drive rec_resume thetas s) = Finished)).
Proof.
  intros Ht. repeat split.
  - intros. eapply flat_stops_after; eauto.
  - eapply (drive_stops flat_resume (fun r => PPO.approx_kl r > t)); eauto.
    intros. eapply flat_stops_after; eauto.
  - eapply (drive_stops flat_resume (fun r => PPO.approx_kl r > t)); eauto.
    intros. eapply flat_stops_after; eauto.
  - intros. eapply rec_stops_after; eauto.
  - eapply (drive_stops rec_resume (fun r => PPO.r_approx_kl r > t)); eauto.
    intros. eapply rec_stops_after; eauto.
  - eapply (drive_stops rec_resume (fun r => PPO.r_approx_kl r > t)); eauto.
    intros. eapply rec_stops_after; eauto.
Qed.

Lemma flatten_batch_size theta (h : PPO.history Obs Act) :
  snd (PPO.flatten log_prob generalized_advantage_estimate
                   preprocess_input_fn model hp theta h)
  = PPO.batch_size_of h.
Proof. reflexivity. Qed.

(** With [1 <= minibatch_size <= batch_size] and at least one minibatch
    asked for, the first [next()] on [enum_minibatches] yields. *)
Lemma enum_minibatches_first (batch_size : Z) :
  (1 <= num_minibatches)%Z ->
  (1 <= minibatch_size)%Z ->
  (minibatch_size <= batch_size)%Z ->
  exists mb_inds mbs,
    Minibatch.enum_minibatches shuffle batch_size minibatch_size
                               num_minibatches false Minibatch.Start
    = Yielded mb_inds mbs.
Proof.
  intros Hn Hm Hb. simpl. unfold Minibatch.floordiv.
  destruct (minibatch_size =? 0)%Z eqn:E0; [apply Z.eqb_eq in E0; lia|].
  unfold Minibatch.loop.
  destruct (num_minibatches <=? 0)%Z eqn:E1; [apply Z.leb_le in E1; lia|].
  unfold Minibatch.pymod.
  assert (Hq : (1 <= batch_size / minibatch_size)%Z).
  { apply Z.div_le_lower_bound; lia. }
  destruct (batch_size / minibatch_size =? 0)%Z eqn:E2;
    [apply Z.eqb_eq in E2; lia|].
  eauto.
Qed.

(** C9, as amended.  Both variants of [compute_ppo_losses] yield a record
    on their first [next()], whatever [target_kl] is: the recurrent one
    when [num_epochs >= 1], the flattened one when [num_minibatches >= 1]
    and [1 <= minibatch_size <= batch_size]. *)
Theorem first_record_is_yielded
        theta (hr : PPO.rhistory Obs Act) (hf : PPO.history Obs Act) :
  ((1 <= num_epochs)%Z ->
   exists r s', rec_resume theta (PPO.RStart hr) = Yielded r s')
  /\ ((1 <= num_minibatches)%Z ->
      (1 <= minibatch_size)%Z ->
      (minibatch_size <= PPO.batch_size_of hf)%Z ->
      exists r s', flat_resume theta (PPO.FStart hf) = Yielded r s').
Proof.
  split.
  - intros He. simpl. unfold PPO.epoch.
    destruct (num_epochs <=? 0)%Z eqn:E; [apply Z.leb_le in E; lia|].
    eauto.
  - intros Hn Hm Hb. unfold PPO.compute_ppo_losses_flat.
    pose proof (flatten_batch_size theta hf) as Hbs.
    destruct (PPO.flatten _ _ _ _ _ _ hf) as [f bs]. simpl in Hbs. subst bs.
    unfold PPO.flat_next.
    destruct (enum_minibatches_first Hn Hm Hb) as (mb & mbs & ->).
    eauto.
Qed.

Local Abbreviation record_of :=
  (PPO.minibatch_record
     log_prob entropy clipped_advantage_policy_gradient_loss
     model obs0 act0 hp).

Local Abbreviation flatten_of :=
  (PPO.flatten log_prob generalized_advantage_estimate
               preprocess_input_fn model hp).

Local Abbreviation epoch_record_of :=
  (PPO.epoch_record
     log_prob entropy clipped_advantage_policy_gradient_loss
     preprocess_input_fn rmodel init_hidden zip2 hp).

Local Abbreviation freeze_of :=
  (PPO.freeze log_prob generalized_advantage_estimate
              preprocess_input_fn rmodel init_hidden zip2 hp).


Lemma flat_resume_start theta (h : PPO.history Obs Act) :
  flat_resume theta (PPO.FStart h)
  = PPO.flat_next log_prob entropy clipped_advantage_policy_gradient_loss
                  model shuffle obs0 act0 hp minibatch_size num_minibatches
                  theta (fst (flatten_of theta h)) (PPO.batch_size_of h)
                  Minibatch.Start.
Proof. reflexivity. Qed.

Lemma rec_resume_start theta (h : PPO.rhistory Obs Act) :
  rec_resume theta (PPO.RStart h)
  = PPO.epoch log_prob entropy clipped_advantage_policy_gradient_loss
              preprocess_input_fn rmodel init_hidden zip2 hp num_epochs
              theta (freeze_of theta h) 0.
Proof. reflexivity. Qed.





End Collaborators.
(** *** Runs of the small instance *)

Lemma first_record_is_yielded_witness :
  (1 <= 1)%Z /\ (1 <= PPO.batch_size_of Toy.history4)%Z
  /\ (exists r s', Toy.rec_resume 1 0 (PPO.RStart Toy.rhistory1) = Yielded r s')
  /\ (exists r s',
         Toy.flat_resume 1 1 0 (PPO.FStart Toy.history4) = Yielded r s').
Proof.
  assert (H1 : (1 <= 1)%Z) by lia.
  assert (H4 : (1 <= PPO.batch_size_of Toy.history4)%Z) by (vm_compute; discriminate).
  split; [exact H1|]. split; [exact H4|].
  pose proof (@first_record_is_yielded
                R unit unit R Toy.log_prob Toy.entropy
                Toy.generalized_advantage_estimate
                Toy.clipped_advantage_policy_gradient_loss None
                Toy.model Toy.shuffle tt tt Toy.rmodel Toy.init_hidden
                Toy.zip2 Toy.hp 1%Z 1%Z 1%Z 0 Toy.rhistory1 Toy.history4)
    as [Hrec Hflat].
  split; [exact (Hrec H1) | exact (Hflat H1 H1 H4)].
Defined.

(** C9 as stated fails: with [minibatch_size = 0], which is at most the
    batch size, and [num_minibatches = 1], the first [next()] of the
    flattened variant raises [ZeroDivisionError] at
    [batch_size // minibatch_size] and no record is yielded. *)
Lemma flat_minibatch_size_zero_raises :
  (1 <= 1)%Z
  /\ (0 <= PPO.batch_size_of Toy.history4)%Z
  /\ Toy.flat_resume 0 1 0 (PPO.FStart Toy.history4)
     = Raised ZeroDivisionError.
Proof.
  split; [lia|]. split; [vm_compute; discriminate|]. reflexivity.
Qed.

Lemma toy_kl_same_parameters :
  PPO.approx_kl_of [0] [0] = 0.
Proof.
  unfold PPO.approx_kl_of, mean, tsum. simpl.
  replace (0 - 0) with 0 by lra. rewrite exp_0. lra.
Qed.

Lemma toy_kl_moved_parameters :
  PPO.approx_kl_of [1] [0] > 0.
Proof.
  unfold PPO.approx_kl_of, mean, tsum. simpl.
  assert (H : 1 + (1 - 0) < exp (1 - 0)) by (apply exp_ineq1; lra).
  lra.
Qed.

Lemma target_kl_stops_the_generator_witness :
  PPO.target_kl Toy.hp = Some 0
  /\ exists r0 s1 r1 s2,
       Toy.rec_resume 3 0 (PPO.RStart Toy.rhistory1) = Yielded r0 s1
       /\ Toy.rec_resume 3 1 s1 = Yielded r1 s2
       /\ PPO.r_approx_kl r1 > 0
       /\ forall theta', Toy.rec_resume 3 theta' s2 = Returned.
Proof.
  split; [reflexivity|].
  pose (f := PPO.freeze Toy.log_prob Toy.generalized_advantage_estimate None
                        Toy.rmodel Toy.init_hidden Toy.zip2 Toy.hp
                        0 Toy.rhistory1).
  pose (rec := PPO.epoch_record
                 Toy.log_prob Toy.entropy
                 Toy.clipped_advantage_policy_gradient_loss None
                 Toy.rmodel Toy.init_hidden Toy.zip2 Toy.hp).
  assert (K0 : PPO.r_approx_kl (rec 0 f) = 0) by exact toy_kl_same_parameters.
  assert (K1 : PPO.r_approx_kl (rec 1 f) > 0) by exact toy_kl_moved_parameters.
  assert (E1 : Toy.rec_resume 3 1 (PPO.RYielded f 0 (PPO.r_approx_kl (rec 0 f)))
               = Yielded (rec 1 f)
                         (PPO.RYielded f (0 + 1) (PPO.r_approx_kl (rec 1 f)))).
  { unfold Toy.rec_resume, PPO.compute_ppo_losses_rec.
    change (PPO.target_kl Toy.hp) with (Some 0).
    rewrite kl_break_not_above by (rewrite K0; lra). reflexivity. }
  exists (rec 0 f), (PPO.RYielded f 0 (PPO.r_approx_kl (rec 0 f))),
         (rec 1 f), (PPO.RYielded f (0 + 1) (PPO.r_approx_kl (rec 1 f))).
  split; [reflexivity|]. split; [exact E1|]. split; [exact K1|].
  exact (proj1 (proj2 (proj2
           (@target_kl_stops_the_generator
              R unit unit R Toy.log_prob Toy.entropy
              Toy.generalized_advantage_estimate
              Toy.clipped_advantage_policy_gradient_loss None
              Toy.model Toy.shuffle tt tt Toy.rmodel Toy.init_hidden
              Toy.zip2 Toy.hp 1%Z 1%Z 3%Z 0 eq_refl)))
           1 _ _ _ E1 K1).
Defined.



End PPOFacts.

(** ** Facts about the minibatch enumeration *)

Module MinibatchFacts.
Import Tensor TensorFacts.
Local Open Scope Z_scope.

Lemma arange_NoDup (n : Z) : NoDup (Minibatch.arange n).
Proof.
  unfold Minibatch.arange. apply Finite.Injective_map_NoDup.
  - intros a b H. now apply Nat2Z.inj.
  - apply seq_NoDup.
Qed.

Lemma arange_length (n : Z) : length (Minibatch.arange n) = Z.to_nat n.
Proof. unfold Minibatch.arange. now rewrite length_map, length_seq. Qed.

(** An element of [l[lo:hi]] sits in [l] at a position of [[lo, hi)]. *)
Lemma py_slice_position {A : Type} (l : list A) (lo hi : Z) (x : A) :
  0 <= lo -> 0 <= hi ->
  In x (py_slice l lo hi) ->
  exists u : nat, lo <= Z.of_nat u < hi /\ nth_error l u = Some x.
Proof.
  intros Hlo Hhi Hin. unfold py_slice, slice_bound in Hin.
  destruct (lo <? 0) eqn:E1; [apply Z.ltb_lt in E1; lia|].
  destruct (hi <? 0) eqn:E2; [apply Z.ltb_lt in E2; lia|].
  apply In_nth_error in Hin. destruct Hin as [v Hv].
  rewrite nth_error_firstn in Hv.
  destruct (Nat.ltb v _) eqn:E3; [|discriminate].
  apply Nat.ltb_lt in E3. rewrite nth_error_skipn in Hv.
  exists (Z.to_nat (Z.min lo (Z.of_nat (length l))) + v)%nat.
  split; [lia|exact Hv].
Qed.

Lemma py_slice_length {A : Type} (l : list A) (lo hi : Z) :
  0 <= lo <= hi -> hi <= Z.of_nat (length l) ->
  Z.of_nat (length (py_slice l lo hi)) = hi - lo.
Proof.
  intros Hlo Hhi. unfold py_slice, slice_bound.
  destruct (lo <? 0) eqn:E1; [apply Z.ltb_lt in E1; lia|].
  destruct (hi <? 0) eqn:E2; [apply Z.ltb_lt in E2; lia|].
  rewrite length_firstn, length_skipn. lia.
Qed.

(** Two slices of an array without repetition, over disjoint ranges, share
    no element. *)
Lemma py_slice_disjoint {A : Type} (l : list A) (a b c d : Z) (x : A) :
  NoDup l -> 0 <= a -> 0 <= b -> b <= c -> 0 <= d ->
  In x (py_slice l a b) -> ~ In x (py_slice l c d).
Proof.
  intros Hnd Ha Hb Hbc Hd Hin1 Hin2.
  destruct (@py_slice_position A l a b x Ha Hb Hin1) as (u & Hu & Hxu).
  destruct (@py_slice_position A l c d x) as (v & Hv & Hxv);
    try lia; try assumption.
  assert (Huv : u = v).
  { apply (proj1 (NoDup_nth_error l) Hnd).
    - apply nth_error_Some. congruence.
    - congruence. }
  lia.
Qed.

(** The number of shuffles made before turn [i] of the loop. *)
Lemma shuffles_before (n i : Z) :
  1 <= n -> 0 <= i ->
  (i + 1 + n - 1) / n = i / n + 1
  /\ (i mod n = 0 -> (i + n - 1) / n = i / n)
  /\ (i mod n <> 0 -> (i + n - 1) / n = i / n + 1).
Proof.
  intros Hn Hi.
  pose proof (Z.div_mod i n ltac:(lia)) as Hdm.
  pose proof (Z.mod_pos_bound i n ltac:(lia)) as Hm.
  repeat split.
  - symmetry. apply (Z.div_unique _ _ _ (i mod n)); lia.
  - intros H0. symmetry. apply (Z.div_unique _ _ _ (n - 1)); lia.
  - intros H0. symmetry. apply (Z.div_unique _ _ _ (i mod n - 1)); lia.
Qed.

Section Enum.
Variable shuffle : nat -> list Z -> list Z.
Hypothesis shuffle_permutes : forall k a, Permutation a (shuffle k a).
Variables batch_size minibatch_size num_minibatches : Z.

Local Abbreviation enum :=
  (Minibatch.enum_minibatches shuffle batch_size minibatch_size
                              num_minibatches false).
Local Abbreviation shuffled := (Minibatch.shuffled shuffle batch_size).

Lemma shuffled_Permutation (k : nat) :
  Permutation (Minibatch.arange batch_size) (shuffled k).
Proof.
  induction k as [|k IH]; simpl.
  - apply Permutation_refl.
  - eapply Permutation_trans; [exact IH|apply shuffle_permutes].
Qed.

Lemma shuffled_NoDup (k : nat) : NoDup (shuffled k).
Proof.
  eapply Permutation_NoDup; [apply shuffled_Permutation|apply arange_NoDup].
Qed.

Lemma shuffled_length (k : nat) : length (shuffled k) = Z.to_nat batch_size.
Proof.
  rewrite <- (Permutation_length (shuffled_Permutation k)).
  apply arange_length.
Qed.

(** The index array yielded at turn [t] of the loop: the slice number
    [t mod n] of the array left by shuffle number [t / n]. *)
Lemma drain_loop (n : Z) (fuel : nat) :
  1 <= n ->
  forall i p m,
    0 <= i ->
    nth_error
      (fst (drain enum fuel
                  (Minibatch.Loop (shuffled (Z.to_nat ((i + n - 1) / n))) n i
                                  (Z.to_nat ((i + n - 1) / n))))) p
    = Some m ->
    let t := i + Z.of_nat p in
    t < num_minibatches
    /\ m = py_slice (shuffled (Z.to_nat (t / n + 1)))
                    ((t mod n) * minibatch_size)
                    ((t mod n + 1) * minibatch_size).
Proof.
  intros Hn. induction fuel as [|fuel IH]; intros i p m Hi H.
  - destruct p; discriminate.
  - cbn [drain Minibatch.enum_minibatches] in H.
    unfold Minibatch.loop, Minibatch.pymod in H.
    destruct (num_minibatches <=? i) eqn:E1.
    { destruct p; discriminate. }
    apply Z.leb_gt in E1.
    destruct (n =? 0) eqn:E2; [apply Z.eqb_eq in E2; lia|].
    destruct (@shuffles_before n i Hn Hi) as (Hnext & Hzero & Hnz).
    assert (Hq : 0 <= i / n) by (apply Z.div_pos; lia).
    assert (Harr :
              (if i mod n =? 0
               then shuffle (Z.to_nat ((i + n - 1) / n))
                            (shuffled (Z.to_nat ((i + n - 1) / n)))
               else shuffled (Z.to_nat ((i + n - 1) / n)))
              = shuffled (Z.to_nat ((i + 1 + n - 1) / n))).
    { rewrite Hnext. destruct (i mod n =? 0) eqn:E3.
      - apply Z.eqb_eq in E3. rewrite (Hzero E3).
        replace (Z.to_nat (i / n + 1)) with (S (Z.to_nat (i / n))) by lia.
        reflexivity.
      - apply Z.eqb_neq in E3. now rewrite (Hnz E3). }
    assert (Hcnt :
              (if i mod n =? 0
               then S (Z.to_nat ((i + n - 1) / n))
               else Z.to_nat ((i + n - 1) / n))
              = Z.to_nat ((i + 1 + n - 1) / n)).
    { rewrite Hnext. destruct (i mod n =? 0) eqn:E3.
      - apply Z.eqb_eq in E3. rewrite (Hzero E3). lia.
      - apply Z.eqb_neq in E3. now rewrite (Hnz E3). }
    rewrite Harr, Hcnt in H.
    specialize (IH (i + 1)).
    destruct (drain enum fuel _) as [ys e] eqn:D.
    cbn [fst] in *. destruct p as [|p]; cbn [nth_error] in H.
    + injection H as <-. cbv zeta. rewrite Z.add_0_r. split; [lia|].
      now rewrite Hnext.
    + specialize (IH p m ltac:(lia) H). cbv zeta in IH |- *.
      replace (i + Z.of_nat (S p)) with (i + 1 + Z.of_nat p) by lia.
      exact IH.
Qed.

(** The first [next()] computes [n] and enters the loop at turn 0. *)
Lemma drain_start (fuel : nat) :
  minibatch_size <> 0 ->
  drain enum fuel Minibatch.Start
  = drain enum fuel
          (Minibatch.Loop (shuffled 0) (batch_size / minibatch_size) 0 0).
Proof.
  intros Hm. destruct fuel as [|fuel]; [reflexivity|].
  cbn [drain Minibatch.enum_minibatches]. unfold Minibatch.floordiv.
  destruct (minibatch_size =? 0) eqn:E; [apply Z.eqb_eq in E; congruence|].
  reflexivity.
Qed.

(** The generator returns after [num_minibatches] index arrays. *)
Lemma drain_loop_total (n : Z) (fuel : nat) :
  n <> 0 ->
  forall indices i k,
    0 <= i <= num_minibatches ->
    (Z.to_nat (num_minibatches - i) < fuel)%nat ->
    snd (drain enum fuel (Minibatch.Loop indices n i k)) = Finished
    /\ length (fst (drain enum fuel (Minibatch.Loop indices n i k)))
       = Z.to_nat (num_minibatches - i).
Proof.
  intros Hn. induction fuel as [|fuel IH]; intros indices i k Hi Hf; [lia|].
  cbn [drain Minibatch.enum_minibatches].
  unfold Minibatch.loop, Minibatch.pymod.
  destruct (num_minibatches <=? i) eqn:E1.
  - apply Z.leb_le in E1. simpl. split; [reflexivity|lia].
  - apply Z.leb_gt in E1.
    destruct (n =? 0) eqn:E2; [apply Z.eqb_eq in E2; congruence|].
    match goal with
    | |- context [drain enum fuel (Minibatch.Loop ?a n (i + 1) ?c)] =>
        destruct (IH a (i + 1) c ltac:(lia) ltac:(lia)) as [H1 H2];
        destruct (drain enum fuel (Minibatch.Loop a n (i + 1) c)) as [ys e]
    end.
    simpl in *. split; [exact H1|]. rewrite H2. lia.
Qed.

(** C6.  For [enum_minibatches] with [replace=False], [batch_size >= 1]
    and [1 <= minibatch_size <= batch_size], under any shuffle that permutes
    its array: two different index arrays yielded within one pass (positions
    [p <> q] with [p // n = q // n], [n = batch_size // minibatch_size])
    have no index in common; each of them holds [minibatch_size] indices. *)
Theorem minibatches_of_a_pass_are_disjoint
        (fuel p q : nat) (mp mq : list Z) :
  1 <= batch_size ->
  1 <= minibatch_size <= batch_size ->
  nth_error (fst (drain enum fuel Minibatch.Start)) p = Some mp ->
  nth_error (fst (drain enum fuel Minibatch.Start)) q = Some mq ->
  p <> q ->
  Z.of_nat p / (batch_size / minibatch_size)
  = Z.of_nat q / (batch_size / minibatch_size) ->
  (forall x, In x mp -> ~ In x mq)
  /\ Z.of_nat (length mp) = minibatch_size
  /\ Z.of_nat (length mq) = minibatch_size.
Proof.
  intros Hb Hm Hp Hq Hpq Hpass.
  set (n := batch_size / minibatch_size) in *.
  assert (Hn : 1 <= n) by (apply Z.div_le_lower_bound; lia).
  assert (Hnm : n * minibatch_size <= batch_size).
  { rewrite Z.mul_comm. apply Z.mul_div_le. lia. }
  rewrite drain_start in Hp, Hq by lia.
  assert (H0 : Z.to_nat ((0 + n - 1) / n) = 0%nat).
  { rewrite Z.div_small by lia. reflexivity. }
  pose proof (@drain_loop n fuel Hn 0 p mp ltac:(lia)) as Lp.
  pose proof (@drain_loop n fuel Hn 0 q mq ltac:(lia)) as Lq.
  rewrite H0 in Lp, Lq.
  destruct (Lp Hp) as [_ Ep]. destruct (Lq Hq) as [_ Eq].
  clear Lp Lq. rewrite Z.add_0_l in Ep, Eq.
  pose proof (Z.div_mod (Z.of_nat p) n ltac:(lia)) as Dp.
  pose proof (Z.div_mod (Z.of_nat q) n ltac:(lia)) as Dq.
  pose proof (Z.mod_pos_bound (Z.of_nat p) n ltac:(lia)) as Bp.
  pose proof (Z.mod_pos_bound (Z.of_nat q) n ltac:(lia)) as Bq.
  assert (Hj : Z.of_nat p mod n <> Z.of_nat q mod n) by lia.
  rewrite <- Hpass in Eq.
  set (arr := shuffled (Z.to_nat (Z.of_nat p / n + 1))) in *.
  assert (Hnd : NoDup arr) by apply shuffled_NoDup.
  assert (Hlen : Z.of_nat (length arr) = batch_size).
  { unfold arr. rewrite shuffled_length. lia. }
  split; [|split].
  - intros x Hxp Hxq. subst mp mq.
    destruct (Z.lt_total (Z.of_nat p mod n) (Z.of_nat q mod n))
      as [Hlt|[Heq|Hgt]]; [|congruence|].
    + eapply (@py_slice_disjoint Z arr); [exact Hnd| | | | |exact Hxp|exact Hxq];
        nia.
    + eapply (@py_slice_disjoint Z arr); [exact Hnd| | | | |exact Hxq|exact Hxp];
        nia.
  - subst mp. rewrite py_slice_length; nia.
  - subst mq. rewrite py_slice_length; nia.
Qed.

End Enum.
(** A run with the shuffle that reverses the array: batches of 2 out of 4,
    two passes. *)
Lemma rev_shuffle_run :
  drain (Minibatch.enum_minibatches (fun _ a => rev a) 4 2 4 false) 5
        Minibatch.Start
  = ([[3; 2]; [1; 0]; [0; 1]; [2; 3]], Finished).
Proof. vm_compute. reflexivity. Qed.

(** With replacement, every turn shuffles and yields the head of the
    array. *)
Example rev_shuffle_run_replace :
  drain (Minibatch.enum_minibatches (fun _ a => rev a) 4 2 4 true) 5
        Minibatch.Start
  = ([[3; 2]; [0; 1]], Finished).
Proof. vm_compute. reflexivity. Qed.

Lemma minibatches_of_a_pass_are_disjoint_witness :
  (forall (k : nat) (a : list Z), Permutation a (rev a))
  /\ (1 <= 4 /\ 1 <= 2 <= 4)
  /\ nth_error
       (fst (drain (Minibatch.enum_minibatches
                      (fun _ a => rev a) 4 2 4 false) 5
                   Minibatch.Start)) 0
     = Some [3; 2]
  /\ nth_error
       (fst (drain (Minibatch.enum_minibatches
                      (fun _ a => rev a) 4 2 4 false) 5
                   Minibatch.Start)) 1
     = Some [1; 0]
  /\ Z.of_nat 0 / (4 / 2) = Z.of_nat 1 / (4 / 2)
  /\ (forall x, In x [3; 2] -> ~ In x [1; 0])
  /\ Z.of_nat (length [3; 2]) = 2
  /\ Z.of_nat (length [1; 0]) = 2.
Proof.
  assert (P : forall (k : nat) (a : list Z), Permutation a (rev a)).
  { intros _ a. apply Permutation_rev. }
  assert (B : 1 <= 4) by lia.
  assert (M : 1 <= 2 <= 4) by lia.
  assert (E0 : nth_error
                 (fst (drain (Minibatch.enum_minibatches
                                (fun _ a => rev a) 4 2 4 false) 5
                             Minibatch.Start)) 0
               = Some [3; 2]) by (vm_compute; reflexivity).
  assert (E1 : nth_error
                 (fst (drain (Minibatch.enum_minibatches
                                (fun _ a => rev a) 4 2 4 false) 5
                             Minibatch.Start)) 1
               = Some [1; 0]) by (vm_compute; reflexivity).
  assert (N : 0%nat <> 1%nat) by discriminate.
  assert (Q : Z.of_nat 0 / (4 / 2) = Z.of_nat 1 / (4 / 2)) by reflexivity.
  split; [exact P|]. split; [exact (conj B M)|].
  split; [exact E0|]. split; [exact E1|]. split; [exact Q|].
  exact (@minibatches_of_a_pass_are_disjoint
           (fun _ a => rev a) P 4 2 4 5%nat 0%nat 1%nat [3; 2] [1; 0]
           B M E0 E1 N Q).
Defined.

End MinibatchFacts.

(** ** Facts about resampling and smoothing *)

Module PlotFacts.
Import Tensor TensorFacts.
Local Open Scope R_scope.

Lemma linear_defined (p1 p2 : (R * R)) (x : R) :
  fst p1 <> fst p2 ->
  Plot.linear p1 p2 x
  = Ok (snd p1 + (x - fst p1) * (snd p2 - snd p1) / (fst p2 - fst p1)).
Proof.
  destruct p1 as [x1 y1], p2 as [x2 y2]. simpl. intros Hne.
  destruct (Req_dec_T (x2 - x1) 0) as [E|E]; [exfalso; apply Hne; lra|].
  reflexivity.
Qed.

Lemma linear_endpoints (p1 p2 : (R * R)) :
  fst p1 <> fst p2 ->
  Plot.linear p1 p2 (fst p1) = Ok (snd p1)
  /\ Plot.linear p1 p2 (fst p2) = Ok (snd p2).
Proof.
  intros Hne. rewrite !linear_defined by assumption.
  destruct p1 as [x1 y1], p2 as [x2 y2]. simpl in *.
  assert (Hd : x2 - x1 <> 0) by lra.
  split; f_equal; field; exact Hd.
Qed.

(** X22.  [linear(p1, p2, x)] raises [ZeroDivisionError] exactly when the
    two points have the same abscissa; otherwise the line passes through
    both points, and between them its value stays between their
    ordinates. *)
Theorem linear_through_both_points (p1 p2 : (R * R)) (x : R) :
  (fst p1 = fst p2 <-> Plot.linear p1 p2 x = Raise ZeroDivisionError)
  /\ (fst p1 <> fst p2 ->
      Plot.linear p1 p2 (fst p1) = Ok (snd p1)
      /\ Plot.linear p1 p2 (fst p2) = Ok (snd p2)
      /\ (fst p1 <= x <= fst p2 ->
          exists y, Plot.linear p1 p2 x = Ok y
                    /\ Rmin (snd p1) (snd p2) <= y <= Rmax (snd p1) (snd p2))).
Proof.
  split.
  - destruct p1 as [x1 y1], p2 as [x2 y2]. simpl.
    destruct (Req_dec_T (x2 - x1) 0) as [E|E]; split; intros H;
      try reflexivity; try discriminate; lra.
  - intros Hne. rewrite !linear_defined by assumption.
    destruct p1 as [x1 y1], p2 as [x2 y2]. simpl in *.
    assert (Hd : x2 - x1 <> 0) by lra.
    split; [f_equal; field; exact Hd|].
    split; [f_equal; field; exact Hd|].
    intros [Hlo Hhi]. eexists. split; [reflexivity|].
    assert (Hpos : 0 < x2 - x1) by lra.
    set (t := (x - x1) / (x2 - x1)).
    assert (Ht0 : 0 <= t).
    { unfold t. apply Rmult_le_pos; [lra|].
      apply Rlt_le, Rinv_0_lt_compat, Hpos. }
    assert (Ht1 : t <= 1).
    { unfold t. apply Rmult_le_reg_r with (x2 - x1); [exact Hpos|].
      unfold Rdiv. rewrite Rmult_assoc, Rinv_l by exact Hd. lra. }
    replace (y1 + (x - x1) * (y2 - y1) / (x2 - x1))
      with (y1 + t * (y2 - y1)) by (unfold t; field; exact Hd).
    unfold Rmin, Rmax. destruct (Rle_dec y1 y2); nra.
Qed.

Lemma linear_through_both_points_witness :
  fst (0, 1) <> fst (2, 5)
  /\ Plot.linear (0, 1) (2, 5) 0 = Ok 1
  /\ Plot.linear (0, 1) (2, 5) 2 = Ok 5.
Proof.
  assert (H : fst (0, 1) <> fst (2, 5)) by (simpl; lra).
  split; [exact H|].
  destruct (proj2 (linear_through_both_points (0, 1) (2, 5) 1) H)
    as (H1 & H2 & _).
  split; [exact H1 | exact H2].
Defined.

(** The exponential moving average stays in the interval that holds the
    previous value and the samples. *)
Lemma ema_from_bounds (alpha lo hi : R) (y : list R) :
  0 <= alpha <= 1 ->
  Forall (fun v => lo <= v <= hi) y ->
  forall prev, lo <= prev <= hi ->
               Forall (fun v => lo <= v <= hi) (Plot.ema_from alpha prev y).
Proof.
  intros Ha. induction 1 as [|yi rest Hy _ IH]; intros prev Hp; simpl.
  - constructor.
  - assert (Hv : lo <= alpha * prev + (1 - alpha) * yi <= hi) by nra.
    constructor; [exact Hv|]. apply IH. exact Hv.
Qed.

Lemma ema_from_length alpha (y : list R) :
  forall prev, length (Plot.ema_from alpha prev y) = length y.
Proof. induction y as [|yi rest IH]; intro prev; simpl; auto. Qed.

Lemma ema_from_zero (y : list R) : forall prev, Plot.ema_from 0 prev y = y.
Proof.
  induction y as [|yi rest IH]; intro prev; simpl; [reflexivity|].
  rewrite IH. f_equal. ring.
Qed.

Lemma ema_from_one (y : list R) :
  forall prev, Plot.ema_from 1 prev y = repeat prev (length y).
Proof.
  induction y as [|yi rest IH]; intro prev; simpl; [reflexivity|].
  replace (1 * prev + (1 - 1) * yi) with prev by ring.
  now rewrite IH.
Qed.

Lemma ema_from_constant alpha (c : R) (n : nat) :
  Plot.ema_from alpha c (repeat c n) = repeat c n.
Proof.
  induction n as [|n IH]; simpl; [reflexivity|].
  replace (alpha * c + (1 - alpha) * c) with c by ring.
  now rewrite IH.
Qed.

(** X23.  The smoothing of [plot_ema] keeps the number of samples and the
    first sample; with [alpha = 0] it returns the curve itself, with
    [alpha = 1] the first sample everywhere; a constant curve is left as it
    is; and for [0 <= alpha <= 1] the smoothed curve stays within any
    interval that holds the samples. *)
Theorem ema_smoothing (alpha : R) (y : list R) :
  length (Plot.y_ema alpha y) = length y
  /\ hd_error (Plot.y_ema alpha y) = hd_error y
  /\ Plot.y_ema 0 y = y
  /\ Plot.y_ema 1 y = repeat (hd 0 y) (length y)
  /\ (forall c n, Plot.y_ema alpha (repeat c n) = repeat c n)
  /\ (forall lo hi,
         0 <= alpha <= 1 ->
         Forall (fun v => lo <= v <= hi) y ->
         Forall (fun v => lo <= v <= hi) (Plot.y_ema alpha y)).
Proof.
  repeat split.
  - destruct y; simpl; [reflexivity|]. now rewrite ema_from_length.
  - destruct y; reflexivity.
  - destruct y; simpl; [reflexivity|]. now rewrite ema_from_zero.
  - destruct y; simpl; [reflexivity|]. now rewrite ema_from_one.
  - intros c [|n]; simpl; [reflexivity|]. now rewrite ema_from_constant.
  - intros lo hi Ha Hy. destruct y as [|y0 rest]; simpl; [constructor|].
    inversion Hy as [|? ? H0 Hrest]; subst.
    constructor; [exact H0|]. now apply ema_from_bounds.
Qed.

Lemma py_index_nat {A : Type} (d : A) (l : list A) (i : nat) :
  (i < length l)%nat -> Plot.py_index l (Z.of_nat i) = Ok (nth i l d).
Proof.
  intros Hi. unfold Plot.py_index.
  assert (E : (Z.of_nat i <? 0)%Z = false) by (apply Z.ltb_ge; lia).
  rewrite E. cbv zeta. rewrite E, Nat2Z.id.
  rewrite (nth_error_nth' l d Hi). reflexivity.
Qed.

Lemma py_index_past_end {A : Type} (l : list A) (i : nat) :
  (length l <= i)%nat -> Plot.py_index l (Z.of_nat i) = Raise IndexError.
Proof.
  intros Hi. unfold Plot.py_index.
  assert (E : (Z.of_nat i <? 0)%Z = false) by (apply Z.ltb_ge; lia).
  rewrite E. cbv zeta. rewrite E, Nat2Z.id.
  destruct (nth_error l i) eqn:N; [|reflexivity].
  assert (nth_error l i <> None) by congruence.
  apply nth_error_Some in H. lia.
Qed.

Lemma skipn_nth_cons {A : Type} (d : A) (l : list A) (i : nat) :
  (i < length l)%nat -> skipn i l = nth i l d :: skipn (S i) l.
Proof.
  revert i. induction l as [|a l IH]; intros [|i] Hi; simpl in *; try lia.
  - reflexivity.
  - apply IH. lia.
Qed.

Section Resample.
Variable data : list (R * R).

(** The interpolation between [data[di-1]] and [data[di]]. *)
Lemma interpolation_defined (di : nat) (v : R) :
  Plot.consecutive_distinct data -> (0 < di < length data)%nat ->
  exists y,
    (d0 <- Plot.py_index data (Z.of_nat di - 1) ;;
     y <- Plot.linear d0 (nth di data (0, 0)) v ;;
     Ok [(v, y)])
    = Ok [(v, y)].
Proof.
  intros Hd [H0 Hlt].
  replace (Z.of_nat di - 1)%Z with (Z.of_nat (di - 1)) by lia.
  rewrite (@py_index_nat (R * R) (0, 0) data (di - 1)) by lia. cbn [bind].
  rewrite linear_defined.
  - cbn [bind]. eauto.
  - specialize (Hd (di - 1)%nat).
    replace (S (di - 1)) with di in Hd by lia. apply Hd. exact Hlt.
Qed.

(** With ['constant'] the loop ends without error and answers every
    abscissa that is left. *)
Lemma resample_loop_constant (x : list R) :
  data <> [] -> Plot.consecutive_distinct data ->
  forall turns xi di,
    (di < length data)%nat ->
    ((length x - xi) + (length data - 1 - di) < turns)%nat ->
    exists out,
      Plot.resample_loop data x Plot.ExConstant turns xi di = Some (Ok out)
      /\ map fst out = skipn xi x.
Proof.
  intros Hne Hd. induction turns as [|turns IH]; intros xi di Hdi Hfuel;
    [lia|].
  cbn [Plot.resample_loop].
  destruct (Nat.ltb xi (length x)) eqn:Ex.
  2:{ apply Nat.ltb_ge in Ex. simpl. exists []. split; [reflexivity|].
      now rewrite skipn_all2. }
  apply Nat.ltb_lt in Ex.
  assert (Edi : Nat.ltb di (length data) = true) by now apply Nat.ltb_lt.
  rewrite Edi. cbn [andb].
  rewrite (skipn_nth_cons 0 x Ex).
  destruct (Rle_dec (nth xi x 0) (fst (nth di data (0, 0)))) as [Hle|Hgt].
  - destruct (IH (S xi) di Hdi ltac:(lia)) as (out & Hout & Hfst).
    rewrite Hout. destruct (Nat.eqb di 0) eqn:E0.
    + simpl. eexists. split; [reflexivity|]. simpl. now rewrite Hfst.
    + apply Nat.eqb_neq in E0.
      destruct (@interpolation_defined di (nth xi x 0) Hd ltac:(lia))
        as (y & ->).
      simpl. eexists. split; [reflexivity|]. simpl. now rewrite Hfst.
  - destruct (Z.of_nat di =? Z.of_nat (length data) - 1)%Z eqn:El.
    + destruct (IH (S xi) di Hdi ltac:(lia)) as (out & Hout & Hfst).
      rewrite Hout. simpl. eexists. split; [reflexivity|].
      simpl. now rewrite Hfst.
    + apply Z.eqb_neq in El.
      destruct (IH xi (S di) ltac:(lia) ltac:(lia)) as (out & Hout & Hfst).
      rewrite Hout. exists out. split; [reflexivity|].
      now rewrite Hfst, <- (skipn_nth_cons 0 x Ex).
Qed.

(** Resampling at the data's own abscissas, past the first one: two turns
    per point, the first moves to the next data point, the second
    interpolates at its right end. *)
Lemma resample_loop_own_abscissas (e : Plot.extrapolation) :
  Plot.increasing data ->
  forall m k turns,
    (k + m = length data)%nat -> (1 <= k)%nat -> (2 * m < turns)%nat ->
    Plot.resample_loop data (map fst data) e turns k (k - 1)
    = Some (Ok (skipn k data)).
Proof.
  intros Hinc. induction m as [|m IH]; intros k turns Hk H1 Hfuel.
  - destruct turns as [|turns]; [lia|]. cbn [Plot.resample_loop].
    rewrite length_map.
    replace (Nat.ltb k (length data)) with false
      by (symmetry; apply Nat.ltb_ge; lia).
    simpl. now rewrite skipn_all2 by lia.
  - destruct turns as [|[|turns]]; try lia.
    assert (Hklt : (k < length data)%nat) by lia.
    assert (Hx : nth k (map fst data) 0 = fst (nth k data (0, 0))).
    { change 0 with (fst (0, 0)) at 1. apply map_nth. }
    assert (Hlt : fst (nth (k - 1) data (0, 0)) < fst (nth k data (0, 0))).
    { destruct k as [|k]; [lia|]. simpl. rewrite Nat.sub_0_r.
      apply Hinc. exact Hklt. }
    (* first turn: the abscissa is to the right of data[k-1] *)
    cbn [Plot.resample_loop]. rewrite length_map.
    replace (Nat.ltb k (length data)) with true
      by (symmetry; apply Nat.ltb_lt; lia).
    replace (Nat.ltb (k - 1) (length data)) with true
      by (symmetry; apply Nat.ltb_lt; lia).
    cbn [andb]. rewrite Hx.
    destruct (Rle_dec (fst (nth k data (0, 0)))
                      (fst (nth (k - 1) data (0, 0)))) as [Hle|_]; [lra|].
    replace (Z.of_nat (k - 1) =? Z.of_nat (length data) - 1)%Z with false
      by (symmetry; apply Z.eqb_neq; lia).
    replace (S (k - 1)) with k by lia.
    (* second turn: the abscissa is the one of data[k] *)
    replace (Nat.ltb k (length data)) with true
      by (symmetry; apply Nat.ltb_lt; lia).
    cbn [andb].
    destruct (Rle_dec (fst (nth k data (0, 0)))
                      (fst (nth k data (0, 0)))) as [_|Hn]; [|lra].
    replace (Nat.eqb k 0) with false by (symmetry; apply Nat.eqb_neq; lia).
    replace (Z.of_nat k - 1)%Z with (Z.of_nat (k - 1)) by lia.
    rewrite (@py_index_nat (R * R) (0, 0) data (k - 1)) by lia. cbn [bind].
    destruct (@linear_endpoints
                (nth (k - 1) data (0, 0)) (nth k data (0, 0)) ltac:(lra))
      as [_ ->]. cbn [bind].
    pose proof (IH (S k) turns ltac:(lia) ltac:(lia) ltac:(lia)) as Hrest.
    replace (S k - 1)%nat with k in Hrest by lia.
    rewrite Hrest. simpl.
    rewrite (skipn_nth_cons (0, 0) data Hklt).
    now destruct (nth k data (0, 0)).
Qed.

End Resample.

(** X24.  [resample_data(data, x, 'constant')] on data that is not empty
    and in which no two consecutive points share their abscissa: the loop
    ends, raises nothing, and returns exactly one point per element of [x],
    in the order of [x] (so the result is as long as [x], which [__main__]
    asserts).  Without data the result is empty, whatever the mode. *)
Theorem resample_constant_answers_every_abscissa
        (data : list (R * R)) (x : list R) :
  data <> [] ->
  Plot.consecutive_distinct data ->
  (exists out,
      Plot.resample_data data x Plot.ExConstant = Some (Ok out)
      /\ map fst out = x)
  /\ (forall e, Plot.resample_data [] x e = Some (Ok [])).
Proof.
  intros Hne Hd. split.
  - unfold Plot.resample_data.
    destruct (@resample_loop_constant data x Hne Hd
                (S (length x + length data)) 0%nat 0%nat) as (out & H1 & H2).
    + destruct data; [congruence|simpl; lia].
    + lia.
    + exists out. split; [exact H1|exact H2].
  - intros e. unfold Plot.resample_data. cbn [Plot.resample_loop].
    simpl. now rewrite andb_false_r.
Qed.

Lemma resample_constant_answers_every_abscissa_witness :
  [(0, 1); (2, 5)] <> []
  /\ Plot.consecutive_distinct [(0, 1); (2, 5)]
  /\ exists out,
       Plot.resample_data [(0, 1); (2, 5)] [-1; 1; 3] Plot.ExConstant
       = Some (Ok out)
       /\ map fst out = [-1; 1; 3].
Proof.
  assert (H1 : [(0, 1); (2, 5)] <> ([] : list (R * R))) by discriminate.
  assert (H2 : Plot.consecutive_distinct [(0, 1); (2, 5)]).
  { intros [|[|i]] Hi; simpl in *; try lia. lra. }
  split; [exact H1|]. split; [exact H2|].
  exact (proj1 (@resample_constant_answers_every_abscissa
                  [(0, 1); (2, 5)] [-1; 1; 3] H1 H2)).
Defined.

(** X25.  Resampling data with strictly increasing abscissas at its own
    abscissas gives the data back, with ['constant'] and, from two points
    on, with ['linear']; with ['none'] the first point is lost, because an
    abscissa equal to the first one counts as lying before the data. *)
Theorem resample_at_own_abscissas (data : list (R * R)) :
  Plot.increasing data ->
  Plot.resample_data data (map fst data) Plot.ExConstant = Some (Ok data)
  /\ ((2 <= length data)%nat ->
      Plot.resample_data data (map fst data) Plot.ExLinear = Some (Ok data))
  /\ Plot.resample_data data (map fst data) Plot.ExNone
     = Some (Ok (tl data)).
Proof.
  intros Hinc. destruct data as [|d0 rest].
  - repeat split; intros; reflexivity.
  - set (data := d0 :: rest) in *.
    assert (Hrest : forall e,
               Plot.resample_loop data (map fst data) e
                                  (length (map fst data) + length data) 1 0
               = Some (Ok rest)).
    { intros e.
      apply (@resample_loop_own_abscissas data e Hinc (length rest) 1%nat).
      - reflexivity.
      - lia.
      - rewrite length_map. simpl. lia. }
    assert (Hturn : forall e,
               Plot.resample_data data (map fst data) e
               = Plot.then_points
                   (Plot.extrapolate e
                      (d1 <- Plot.py_index data (Z.of_nat 0 + 1) ;;
                       Plot.linear d0 d1 (fst d0))
                      (fst d0) d0)
                   (Some (Ok rest))).
    { intros e. unfold Plot.resample_data. cbn [Plot.resample_loop].
      rewrite Hrest.
      change (Nat.ltb 0 (length (map fst data)) && Nat.ltb 0 (length data))
        with true.
      change (nth 0 (map fst data) 0) with (fst d0).
      change (nth 0 data (0, 0)) with d0.
      destruct (Rle_dec (fst d0) (fst d0)) as [_|Hn]; [|lra].
      reflexivity. }
    split; [|split].
    + rewrite Hturn. simpl. now destruct d0.
    + intros Hlen. rewrite Hturn.
      destruct rest as [|d1 rest']; [simpl in Hlen; lia|].
      change (Plot.py_index data (Z.of_nat 0 + 1)) with (Ok d1).
      cbn [bind Plot.extrapolate].
      assert (Hlt : fst d0 < fst d1) by (apply (Hinc 0%nat); simpl; lia).
      destruct (@linear_endpoints d0 d1 ltac:(lra)) as [-> _].
      simpl. now destruct d0.
    + rewrite Hturn. reflexivity.
Qed.

Lemma resample_at_own_abscissas_witness :
  Plot.increasing [(0, 1); (2, 5); (3, 4)]
  /\ Plot.resample_data [(0, 1); (2, 5); (3, 4)] [0; 2; 3] Plot.ExConstant
     = Some (Ok [(0, 1); (2, 5); (3, 4)])
  /\ Plot.resample_data [(0, 1); (2, 5); (3, 4)] [0; 2; 3] Plot.ExNone
     = Some (Ok [(2, 5); (3, 4)]).
Proof.
  assert (H : Plot.increasing [(0, 1); (2, 5); (3, 4)]).
  { intros [|[|[|i]]] Hi; simpl in *; try lia; lra. }
  split; [exact H|].
  destruct (@resample_at_own_abscissas [(0, 1); (2, 5); (3, 4)] H)
    as (Hc & _ & Hn).
  split; [exact Hc | exact Hn].
Defined.

Lemma resample_loop_single_constant (d : R * R) (x : list R) :
  forall turns xi,
    (length x - xi < turns)%nat ->
    Plot.resample_loop [d] x Plot.ExConstant turns xi 0
    = Some (Ok (map (fun v => (v, snd d)) (skipn xi x))).
Proof.
  induction turns as [|turns IH]; intros xi Hfuel; [lia|].
  cbn [Plot.resample_loop].
  destruct (Nat.ltb xi (length x)) eqn:Ex.
  2:{ apply Nat.ltb_ge in Ex. simpl. now rewrite skipn_all2. }
  apply Nat.ltb_lt in Ex. rewrite (skipn_nth_cons 0 x Ex).
  change (Nat.ltb 0 (length [d])) with true. cbn [andb].
  change (nth 0 [d] (0, 0)) with d.
  rewrite (IH (S xi)) by lia.
  destruct (Rle_dec (nth xi x 0) (fst d)); reflexivity.
Qed.

(** X26.  With a single data point, ['constant'] gives every abscissa the
    ordinate of that point; ['linear'] raises on the first abscissa,
    [IndexError] when it is not to the right of the point ([data[1]]) and
    [ZeroDivisionError] when it is ([data[-1]] is the point itself); an
    unknown mode raises [ValueError] on the first abscissa. *)
Theorem resample_single_point (d : R * R) (x0 : R) (rest : list R) :
  Plot.resample_data [d] (x0 :: rest) Plot.ExConstant
  = Some (Ok (map (fun v => (v, snd d)) (x0 :: rest)))
  /\ (x0 <= fst d ->
      Plot.resample_data [d] (x0 :: rest) Plot.ExLinear
      = Some (Raise IndexError))
  /\ (fst d < x0 ->
      Plot.resample_data [d] (x0 :: rest) Plot.ExLinear
      = Some (Raise ZeroDivisionError))
  /\ Plot.resample_data [d] (x0 :: rest) Plot.ExOther
     = Some (Raise ValueError).
Proof.
  split; [|split; [|split]].
  - unfold Plot.resample_data.
    rewrite resample_loop_single_constant by (simpl; lia). reflexivity.
  - intros Hle. unfold Plot.resample_data. cbn [Plot.resample_loop].
    simpl. destruct (Rle_dec x0 (fst d)) as [_|Hn]; [|contradiction].
    reflexivity.
  - intros Hlt. unfold Plot.resample_data. cbn [Plot.resample_loop].
    simpl. destruct (Rle_dec x0 (fst d)) as [Hle|_]; [lra|].
    destruct d as [x1 y1]. simpl.
    destruct (Req_dec_T (x1 - x1) 0) as [_|Hn]; [reflexivity|].
    exfalso. apply Hn. ring.
  - unfold Plot.resample_data. cbn [Plot.resample_loop]. simpl.
    destruct (Rle_dec x0 (fst d)); reflexivity.
Qed.

(** What one turn appends: nothing but the point at the current abscissa,
    unless it raises or the mode is ['none']. *)
Lemma extrapolate_shape (e : Plot.extrapolation) (lin : result R)
      (x_xi : R) (d : R * R) :
  (exists ex, Plot.extrapolate e lin x_xi d = Raise ex)
  \/ (exists y, Plot.extrapolate e lin x_xi d = Ok [(x_xi, y)])
  \/ (e = Plot.ExNone /\ Plot.extrapolate e lin x_xi d = Ok []).
Proof.
  destruct e; simpl.
  - destruct lin as [y|ex]; simpl; eauto.
  - eauto.
  - auto.
  - eauto.
Qed.

Lemma interpolate_shape (a : result (R * R)) (lin : R * R -> result R)
      (x_xi : R) :
  (exists ex, (d0 <- a ;; y <- lin d0 ;; Ok [(x_xi, y)]) = Raise ex)
  \/ (exists y, (d0 <- a ;; y <- lin d0 ;; Ok [(x_xi, y)]) = Ok [(x_xi, y)]).
Proof.
  destruct a as [d0|ex]; simpl; [|eauto].
  destruct (lin d0) as [y|ex]; simpl; eauto.
Qed.

Lemma then_points_shape (e : Plot.extrapolation) (x_xi : R) (tl_x : list R)
      (pts : result (list (R * R))) (rest : result (list (R * R))) :
  (exists ex, pts = Raise ex)
  \/ (exists y, pts = Ok [(x_xi, y)])
  \/ (e = Plot.ExNone /\ pts = Ok []) ->
  (forall out, rest = Ok out ->
               (e <> Plot.ExNone -> map fst out = tl_x)
               /\ (length out <= length tl_x)%nat) ->
  exists r,
    Plot.then_points pts (Some rest) = Some r
    /\ forall out, r = Ok out ->
                   (e <> Plot.ExNone -> map fst out = x_xi :: tl_x)
                   /\ (length out <= S (length tl_x))%nat.
Proof.
  intros [(ex & ->)|[(y & ->)|(He & ->)]] Hrest; simpl.
  - eexists. split; [reflexivity|]. discriminate.
  - destruct rest as [l'|ex]; eexists; (split; [reflexivity|]);
      [|discriminate].
    intros out [= <-]. destruct (Hrest l' eq_refl) as [H1 H2].
    split; [intros Hn; simpl; now rewrite (H1 Hn)|simpl; lia].
  - destruct rest as [l'|ex]; eexists; (split; [reflexivity|]);
      [|discriminate].
    intros out [= <-]. destruct (Hrest l' eq_refl) as [H1 H2].
    split; [intros Hn; congruence|simpl; lia].
Qed.

Lemma resample_loop_ends (data : list (R * R)) (x : list R)
      (e : Plot.extrapolation) :
  forall turns xi di,
    (di < length data)%nat ->
    ((length x - xi) + (length data - 1 - di) < turns)%nat ->
    exists r,
      Plot.resample_loop data x e turns xi di = Some r
      /\ forall out, r = Ok out ->
                     (e <> Plot.ExNone -> map fst out = skipn xi x)
                     /\ (length out <= length x - xi)%nat.
Proof.
  induction turns as [|turns IH]; intros xi di Hdi Hfuel; [lia|].
  cbn [Plot.resample_loop].
  destruct (Nat.ltb xi (length x)) eqn:Ex.
  2:{ apply Nat.ltb_ge in Ex. simpl. eexists. split; [reflexivity|].
      intros out [= <-]. rewrite skipn_all2 by lia. split; [reflexivity|].
      simpl. lia. }
  apply Nat.ltb_lt in Ex.
  replace (Nat.ltb di (length data)) with true
    by (symmetry; apply Nat.ltb_lt; lia).
  cbn [andb]. rewrite (skipn_nth_cons 0 x Ex).
  replace (length x - xi)%nat with (S (length x - S xi)) by lia.
  rewrite <- (length_skipn (S xi) x).
  destruct (Rle_dec (nth xi x 0) (fst (nth di data (0, 0)))) as [Hle|Hgt].
  - destruct (IH (S xi) di Hdi ltac:(lia)) as (r' & -> & Hr').
    apply then_points_shape.
    + destruct (Nat.eqb di 0).
      * apply extrapolate_shape.
      * destruct (interpolate_shape
                    (Plot.py_index data (Z.of_nat di - 1))
                    (fun d0 => Plot.linear d0 (nth di data (0, 0))
                                           (nth xi x 0))
                    (nth xi x 0)) as [H|H]; auto.
    + intros out Hout. rewrite length_skipn. exact (Hr' out Hout).
  - destruct (Z.of_nat di =? Z.of_nat (length data) - 1)%Z eqn:Ed.
    + destruct (IH (S xi) di Hdi ltac:(lia)) as (r' & -> & Hr').
      apply then_points_shape.
      * apply extrapolate_shape.
      * intros out Hout. rewrite length_skipn. exact (Hr' out Hout).
    + apply Z.eqb_neq in Ed.
      destruct (IH xi (S di) ltac:(lia) ltac:(lia)) as (r' & -> & Hr').
      exists r'. split; [reflexivity|].
      intros out Hout. destruct (Hr' out Hout) as [H1 H2].
      rewrite <- (skipn_nth_cons 0 x Ex). split; [exact H1|].
      rewrite length_skipn. lia.
Qed.

(** X27.  The loop of [resample_data] ends on every input, within
    [len(x) + len(data)] turns, and raises nothing but [IndexError],
    [ZeroDivisionError] or [ValueError]; when it returns, it returns at most
    one point per element of [x], and, with data that is not empty and a
    mode other than ['none'], exactly the abscissas [x], in order. *)
Theorem resample_data_ends (data : list (R * R)) (x : list R)
        (e : Plot.extrapolation) :
  exists r,
    Plot.resample_data data x e = Some r
    /\ (forall out, r = Ok out ->
                    (length out <= length x)%nat
                    /\ (data <> [] -> e <> Plot.ExNone -> map fst out = x))
    /\ (forall ex, r = Raise ex ->
                   ex = IndexError \/ ex = ZeroDivisionError
                   \/ ex = ValueError).
Proof.
  assert (Hexn : forall turns xi di ex,
             Plot.resample_loop data x e turns xi di = Some (Raise ex) ->
             ex = IndexError \/ ex = ZeroDivisionError \/ ex = ValueError).
  { assert (Hidx : forall i d0,
               Plot.py_index data i = Raise d0 -> d0 = IndexError).
    { intros i d0. unfold Plot.py_index. cbv zeta.
      destruct (i <? 0)%Z;
        (destruct (_ <? 0)%Z; [congruence|]);
        destruct (nth_error data _); congruence. }
    assert (Hlin : forall p1 p2 v d0,
               Plot.linear p1 p2 v = Raise d0 -> d0 = ZeroDivisionError).
    { intros [x1 y1] [x2 y2] v d0. simpl.
      destruct (Req_dec_T (x2 - x1) 0); congruence. }
    assert (Hext : forall (a : unit) lin v d0 ex,
               (forall ex', lin = Raise ex' ->
                            ex' = IndexError \/ ex' = ZeroDivisionError) ->
               Plot.extrapolate e lin v d0 = Raise ex ->
               ex = IndexError \/ ex = ZeroDivisionError
               \/ ex = ValueError).
    { intros _ lin v d0 ex Hl. destruct e; simpl; try discriminate.
      - destruct lin as [y|ex']; simpl; [discriminate|].
        intros [= <-]. destruct (Hl ex' eq_refl); auto.
      - intros [= <-]. auto. }
    assert (Hbind : forall i (f : R * R -> result R) ex',
               (forall d0, exists p1 p2 v, f d0 = Plot.linear p1 p2 v) ->
               (d0 <- Plot.py_index data i ;; f d0) = Raise ex' ->
               ex' = IndexError \/ ex' = ZeroDivisionError).
    { intros i f ex' Hf. destruct (Plot.py_index data i) as [d0|ex0] eqn:E;
        simpl.
      - destruct (Hf d0) as (p1 & p2 & v & ->). intros H.
        right. eapply Hlin; eauto.
      - intros [= <-]. left. eapply Hidx; eauto. }
    assert (Hthen : forall pts rest ex,
               Plot.then_points pts rest = Some (Raise ex) ->
               pts = Raise ex \/ rest = Some (Raise ex)).
    { intros [l|ex0] rest ex; simpl.
      - destruct rest as [[l'|ex1]|]; try discriminate.
        intros [= <-]. auto.
      - intros [= <-]. auto. }
    induction turns as [|turns IH]; intros xi di ex; [discriminate|].
    cbn [Plot.resample_loop].
    destruct (Nat.ltb xi (length x) && Nat.ltb di (length data));
      [|discriminate].
    destruct (Rle_dec _ _).
    - intros H. apply Hthen in H. destruct H as [H|H]; [|eauto].
      destruct (Nat.eqb di 0).
      + eapply (Hext tt); [|exact H]. intros ex'. apply Hbind.
        intros d0. eauto.
      + destruct (Plot.py_index data (Z.of_nat di - 1)) as [d0|ex0] eqn:E;
          simpl in H.
        * destruct (Plot.linear d0 _ _) as [y|ex1] eqn:E1; simpl in H;
            [discriminate|].
          injection H as <-. right. left. eapply Hlin; eauto.
        * injection H as <-. left. eapply Hidx; eauto.
    - destruct (Z.of_nat di =? Z.of_nat (length data) - 1)%Z; [|eauto].
      intros H. apply Hthen in H. destruct H as [H|H]; [|eauto].
      eapply (Hext tt); [|exact H]. intros ex'. apply Hbind.
      intros d0. eauto. }
  unfold Plot.resample_data in *.
  destruct data as [|d0 rest].
  - exists (Ok []). cbn [Plot.resample_loop]. simpl.
    rewrite andb_false_r. split; [reflexivity|]. split.
    + intros out [= <-]. split; [simpl; lia|]. congruence.
    + discriminate.
  - destruct (@resample_loop_ends (d0 :: rest) x e
                (S (length x + length (d0 :: rest))) 0%nat 0%nat)
      as (r & Hr & Hshape); [simpl; lia|simpl; lia|].
    exists r. split; [exact Hr|]. split.
    + intros out Hout. destruct (Hshape out Hout) as [H1 H2].
      split; [lia|]. intros _ Hn. exact (H1 Hn).
    + intros ex Hex. subst r. eapply Hexn. exact Hr.
Qed.

End PlotFacts.

(** ** The minibatch generator: how many arrays, and what they cover *)

Module EnumFacts.
Import Tensor TensorFacts MinibatchFacts.
Local Open Scope Z_scope.

Lemma py_slice_nonneg {A : Type} (l : list A) (lo hi : Z) :
  0 <= lo <= hi -> hi <= Z.of_nat (length l) ->
  py_slice l lo hi = firstn (Z.to_nat (hi - lo)) (skipn (Z.to_nat lo) l).
Proof.
  intros Hlo Hhi. unfold py_slice, slice_bound.
  destruct (lo <? 0) eqn:E1; [apply Z.ltb_lt in E1; lia|].
  destruct (hi <? 0) eqn:E2; [apply Z.ltb_lt in E2; lia|].
  rewrite !Z.min_l by lia. reflexivity.
Qed.

Lemma py_slice_In {A : Type} (l : list A) (lo hi : Z) (x : A) :
  In x (py_slice l lo hi) -> In x l.
Proof.
  unfold py_slice. cbv zeta. intros H.
  match type of H with
  | In x (firstn ?a (skipn ?b l)) =>
      rewrite <- (firstn_skipn b l); apply in_or_app; right;
      rewrite <- (firstn_skipn a (skipn b l)); apply in_or_app; left;
      exact H
  end.
Qed.

Lemma py_slice_NoDup {A : Type} (l : list A) (lo hi : Z) :
  NoDup l -> NoDup (py_slice l lo hi).
Proof.
  unfold py_slice. cbv zeta. intros H.
  match goal with
  | |- NoDup (firstn ?a (skipn ?b l)) =>
      rewrite <- (firstn_skipn b l) in H;
      apply NoDup_app_remove_l in H;
      rewrite <- (firstn_skipn a (skipn b l)) in H;
      apply NoDup_app_remove_r in H; exact H
  end.
Qed.

Lemma arange_range (n x : Z) : In x (Minibatch.arange n) -> 0 <= x < n.
Proof.
  unfold Minibatch.arange. intros H. apply in_map_iff in H.
  destruct H as (k & <- & Hk). apply in_seq in Hk. lia.
Qed.

Lemma firstn_add {A : Type} (a b : nat) (l : list A) :
  firstn (a + b) l = firstn a l ++ firstn b (skipn a l).
Proof.
  revert l. induction a as [|a IH]; intros l; simpl; [reflexivity|].
  destruct l as [|x l]; simpl.
  - now rewrite firstn_nil.
  - now rewrite IH.
Qed.

Lemma firstn_skipn_seq (a n N : nat) :
  (a + n <= N)%nat -> firstn n (skipn a (seq 0 N)) = seq a n.
Proof.
  intros H. rewrite skipn_seq. simpl.
  replace (N - a)%nat with (n + (N - a - n))%nat by lia.
  rewrite seq_app, firstn_app, length_seq, Nat.sub_diag. simpl.
  rewrite app_nil_r. apply firstn_all2. rewrite length_seq. lia.
Qed.

Section Enum.
Variable shuffle : nat -> list Z -> list Z.
Variables batch_size minibatch_size num_minibatches : Z.

Local Abbreviation enum :=
  (Minibatch.enum_minibatches shuffle batch_size minibatch_size
                              num_minibatches false).
Local Abbreviation enum_replace :=
  (Minibatch.enum_minibatches shuffle batch_size minibatch_size
                              num_minibatches true).
Local Abbreviation shuffled := (Minibatch.shuffled shuffle batch_size).
Local Abbreviation n := (batch_size / minibatch_size).

(** Without replacement the generator yields [num_minibatches] arrays and
    returns, as soon as [n = batch_size // minibatch_size] is not zero. *)
Lemma enum_count (fuel : nat) :
  minibatch_size <> 0 -> n <> 0 ->
  (Z.to_nat num_minibatches < fuel)%nat ->
  snd (drain enum fuel Minibatch.Start) = Finished
  /\ length (fst (drain enum fuel Minibatch.Start))
     = Z.to_nat num_minibatches.
Proof.
  intros Hm Hn Hf.
  rewrite (@drain_start shuffle batch_size minibatch_size num_minibatches
             fuel Hm).
  destruct (Z.le_gt_cases 0 num_minibatches) as [Hpos|Hneg].
  - destruct (@drain_loop_total shuffle batch_size minibatch_size
                num_minibatches n fuel Hn (shuffled 0) 0 0%nat) as [H1 H2];
      [lia|rewrite Z.sub_0_r; exact Hf|].
    split; [exact H1|]. rewrite H2. now rewrite Z.sub_0_r.
  - destruct fuel as [|fuel]; [lia|].
    cbn [drain Minibatch.enum_minibatches]. unfold Minibatch.loop.
    replace (num_minibatches <=? 0) with true
      by (symmetry; apply Z.leb_le; lia).
    simpl. split; [reflexivity|lia].
Qed.

(** The arrays of a run: turn [t] yields slice number [t mod n] of the
    array left by shuffle number [t // n]. *)
Lemma enum_arrays (fuel : nat) :
  minibatch_size <> 0 -> 1 <= n ->
  (Z.to_nat num_minibatches < fuel)%nat ->
  fst (drain enum fuel Minibatch.Start)
  = map (fun t : nat =>
           py_slice (shuffled (Z.to_nat (Z.of_nat t / n + 1)))
                    ((Z.of_nat t mod n) * minibatch_size)
                    ((Z.of_nat t mod n + 1) * minibatch_size))
        (seq 0 (Z.to_nat num_minibatches)).
Proof.
  intros Hm Hn Hf.
  destruct (@enum_count fuel Hm ltac:(lia) Hf) as [_ Hlen].
  apply nth_error_ext. intros p.
  rewrite nth_error_map, nth_error_seq.
  destruct (nth_error (fst (drain enum fuel Minibatch.Start)) p) as [m|] eqn:E.
  - assert (Hp : (p < Z.to_nat num_minibatches)%nat).
    { rewrite <- Hlen. apply nth_error_Some. congruence. }
    replace (Nat.ltb p (Z.to_nat num_minibatches)) with true
      by (symmetry; apply Nat.ltb_lt; exact Hp).
    simpl. f_equal.
    rewrite (@drain_start shuffle batch_size minibatch_size num_minibatches
               fuel Hm) in E.
    assert (H0 : Z.to_nat ((0 + n - 1) / n) = 0%nat).
    { rewrite Z.div_small by lia. reflexivity. }
    pose proof (@drain_loop shuffle batch_size minibatch_size
                  num_minibatches n fuel Hn 0 p m ltac:(lia)) as L.
    rewrite H0 in L. destruct (L E) as [_ ->]. now rewrite Z.add_0_l.
  - apply nth_error_None in E. rewrite Hlen in E.
    replace (Nat.ltb p (Z.to_nat num_minibatches)) with false
      by (symmetry; apply Nat.ltb_ge; exact E).
    reflexivity.
Qed.

(** X3.  The first [next()] on [enum_minibatches]: without replacement it
    raises exactly when [minibatch_size] is 0, or when the batch is smaller
    than a minibatch ([batch_size // minibatch_size] is 0) and at least one
    minibatch is asked for, and what it raises is [ZeroDivisionError]; it
    returns at once exactly when [minibatch_size] is not 0 and
    [num_minibatches <= 0].  With replacement it raises exactly when
    [minibatch_size] is 0, and then [ValueError], from [range]. *)
Theorem first_next_of_enum_minibatches (e : exn) :
  (enum Minibatch.Start = Raised e
   <-> e = ZeroDivisionError
       /\ (minibatch_size = 0
           \/ ((0 <= batch_size < minibatch_size
                \/ minibatch_size < batch_size <= 0)
               /\ 1 <= num_minibatches)))
  /\ (enum Minibatch.Start = Returned
      <-> minibatch_size <> 0 /\ num_minibatches <= 0)
  /\ (enum_replace Minibatch.Start = Raised e
      <-> e = ValueError /\ minibatch_size = 0).
Proof.
  cbn [Minibatch.enum_minibatches].
  unfold Minibatch.floordiv, Minibatch.loop, Minibatch.pymod,
    Minibatch.loop_replace.
  destruct (minibatch_size =? 0) eqn:Em;
    [apply Z.eqb_eq in Em | apply Z.eqb_neq in Em].
  - intuition (try discriminate; try congruence).
  - pose proof (Z.div_small_iff batch_size minibatch_size Em) as Hsmall.
    destruct (if 0 <? minibatch_size then 0 <? batch_size
              else batch_size <? 0);
      (destruct (num_minibatches <=? 0) eqn:En;
       [apply Z.leb_le in En
       |apply Z.leb_gt in En;
        destruct (n =? 0) eqn:E0;
        [apply Z.eqb_eq in E0 | apply Z.eqb_neq in E0]]);
      intuition (try discriminate; try congruence; try lia).
Qed.

Hypothesis shuffle_permutes : forall k a, Permutation a (shuffle k a).

(** X1.  [enum_minibatches] without replacement, with
    [1 <= minibatch_size <= batch_size] and a shuffle that permutes its
    array: a consumer that keeps asking receives exactly [num_minibatches]
    index arrays (none when that number is negative), then the generator
    returns; every array holds [minibatch_size] indices, all different,
    all in [[0, batch_size)]. *)
Theorem enum_minibatches_yields_num_minibatches (fuel : nat) :
  1 <= minibatch_size <= batch_size ->
  (Z.to_nat num_minibatches < fuel)%nat ->
  snd (drain enum fuel Minibatch.Start) = Finished
  /\ length (fst (drain enum fuel Minibatch.Start))
     = Z.to_nat num_minibatches
  /\ Forall (fun m => Z.of_nat (length m) = minibatch_size
                      /\ NoDup m
                      /\ Forall (fun x => 0 <= x < batch_size) m)
            (fst (drain enum fuel Minibatch.Start)).
Proof.
  intros Hm Hf.
  assert (Hn : 1 <= n) by (apply Z.div_le_lower_bound; lia).
  assert (Hnm : n * minibatch_size <= batch_size).
  { rewrite Z.mul_comm. apply Z.mul_div_le. lia. }
  destruct (@enum_count fuel ltac:(lia) ltac:(lia) Hf) as [H1 H2].
  split; [exact H1|]. split; [exact H2|].
  rewrite (@enum_arrays fuel ltac:(lia) Hn Hf).
  apply Forall_forall. intros m Hin. apply in_map_iff in Hin.
  destruct Hin as (t & <- & _).
  pose proof (Z.mod_pos_bound (Z.of_nat t) n ltac:(lia)) as Hj.
  set (arr := shuffled (Z.to_nat (Z.of_nat t / n + 1))).
  assert (Hnd : NoDup arr)
    by (apply (@shuffled_NoDup shuffle shuffle_permutes batch_size)).
  assert (Hlen : Z.of_nat (length arr) = batch_size).
  { unfold arr.
    rewrite (@shuffled_length shuffle shuffle_permutes batch_size). lia. }
  split; [|split].
  - rewrite py_slice_length; nia.
  - now apply py_slice_NoDup.
  - apply Forall_forall. intros x Hx. apply py_slice_In in Hx.
    apply arange_range.
    eapply Permutation_in; [|exact Hx]. apply Permutation_sym.
    apply (@shuffled_Permutation shuffle shuffle_permutes batch_size).
Qed.

(** The slices of one pass, put end to end, are the head of the array. *)
Lemma concat_slices (arr : list Z) (a : nat) (q : Z) :
  1 <= minibatch_size -> 1 <= n -> 0 <= q ->
  Z.of_nat a = q * n ->
  n * minibatch_size <= Z.of_nat (length arr) ->
  forall k : nat,
    Z.of_nat k <= n ->
    concat (map (fun t : nat =>
                   py_slice arr ((Z.of_nat t mod n) * minibatch_size)
                            ((Z.of_nat t mod n + 1) * minibatch_size))
                (seq a k))
    = firstn (k * Z.to_nat minibatch_size) arr.
Proof.
  intros Hm Hn Hq Ha Hlen. induction k as [|k IH]; intros Hk.
  - reflexivity.
  - rewrite seq_S, map_app, concat_app, IH by lia. simpl.
    rewrite app_nil_r.
    assert (Hmod : Z.of_nat (a + k) mod n = Z.of_nat k).
    { symmetry. apply (Z.mod_unique_pos _ _ q); lia. }
    rewrite Hmod.
    rewrite py_slice_nonneg by nia.
    replace (Z.to_nat ((Z.of_nat k + 1) * minibatch_size
                       - Z.of_nat k * minibatch_size))
      with (Z.to_nat minibatch_size) by lia.
    replace (Z.to_nat (Z.of_nat k * minibatch_size))
      with (k * Z.to_nat minibatch_size)%nat by nia.
    replace (Z.to_nat minibatch_size + k * Z.to_nat minibatch_size)%nat
      with (k * Z.to_nat minibatch_size + Z.to_nat minibatch_size)%nat
      by lia.
    now rewrite firstn_add.
Qed.

(** X2.  When [minibatch_size] divides [batch_size], the index arrays of a
    pass (the [n = batch_size // minibatch_size] arrays yielded from turn
    [q * n] on), put end to end, are a permutation of
    [arange(batch_size)]: within a pass every transition is used exactly
    once. *)
Theorem a_pass_covers_the_batch (fuel q : nat) :
  1 <= minibatch_size <= batch_size ->
  batch_size mod minibatch_size = 0 ->
  (Z.of_nat q + 1) * n <= num_minibatches ->
  (Z.to_nat num_minibatches < fuel)%nat ->
  Permutation
    (concat (firstn (Z.to_nat n)
                    (skipn (q * Z.to_nat n)
                           (fst (drain enum fuel Minibatch.Start)))))
    (Minibatch.arange batch_size).
Proof.
  intros Hm Hdiv Hq Hf.
  assert (Hn : 1 <= n) by (apply Z.div_le_lower_bound; lia).
  assert (Hnm : batch_size = n * minibatch_size).
  { pose proof (Z.div_mod batch_size minibatch_size ltac:(lia)). lia. }
  rewrite (@enum_arrays fuel ltac:(lia) Hn Hf).
  rewrite skipn_map, firstn_map, firstn_skipn_seq by nia.
  set (arr := shuffled (S q)).
  assert (Hlen : Z.of_nat (length arr) = batch_size).
  { unfold arr.
    rewrite (@shuffled_length shuffle shuffle_permutes batch_size). lia. }
  assert (Hmap :
            map (fun t : nat =>
                   py_slice (shuffled (Z.to_nat (Z.of_nat t / n + 1)))
                            ((Z.of_nat t mod n) * minibatch_size)
                            ((Z.of_nat t mod n + 1) * minibatch_size))
                (seq (q * Z.to_nat n) (Z.to_nat n))
            = map (fun t : nat =>
                     py_slice arr ((Z.of_nat t mod n) * minibatch_size)
                              ((Z.of_nat t mod n + 1) * minibatch_size))
                  (seq (q * Z.to_nat n) (Z.to_nat n))).
  { apply map_ext_in. intros t Ht. apply in_seq in Ht.
    assert (Hdivq : Z.of_nat t / n = Z.of_nat q).
    { symmetry.
      apply (Z.div_unique_pos _ _ _ (Z.of_nat t - Z.of_nat q * n)); nia. }
    rewrite Hdivq. unfold arr.
    replace (Z.to_nat (Z.of_nat q + 1)) with (S q) by lia. reflexivity. }
  rewrite Hmap.
  rewrite (@concat_slices arr (q * Z.to_nat n) (Z.of_nat q)) by lia.
  rewrite firstn_all2 by nia. unfold arr.
  apply Permutation_sym.
  apply (@shuffled_Permutation shuffle shuffle_permutes batch_size).
Qed.

(** With replacement, from any turn on: one array per remaining value of
    [range(0, batch_size, minibatch_size)]. *)
Lemma drain_replace :
  1 <= minibatch_size ->
  forall (fuel : nat) indices c k,
    Permutation (Minibatch.arange batch_size) indices ->
    0 <= c ->
    (Z.to_nat ((batch_size - c + minibatch_size - 1) / minibatch_size)
     < fuel)%nat ->
    snd (drain enum_replace fuel (Minibatch.LoopReplace indices c k))
    = Finished
    /\ length (fst (drain enum_replace fuel
                          (Minibatch.LoopReplace indices c k)))
       = Z.to_nat ((batch_size - c + minibatch_size - 1) / minibatch_size)
    /\ Forall (fun m => Z.of_nat (length m)
                        = Z.min minibatch_size batch_size
                        /\ NoDup m
                        /\ Forall (fun x => 0 <= x < batch_size) m)
              (fst (drain enum_replace fuel
                          (Minibatch.LoopReplace indices c k))).
Proof.
  intros Hm. induction fuel as [|fuel IH]; intros indices c k Hperm Hc Hf;
    [lia|].
  cbn [drain Minibatch.enum_minibatches]. unfold Minibatch.loop_replace.
  replace (0 <? minibatch_size) with true by (symmetry; apply Z.ltb_lt; lia).
  destruct (c <? batch_size) eqn:Ec.
  - apply Z.ltb_lt in Ec.
    assert (Hstep :
              (batch_size - c + minibatch_size - 1) / minibatch_size
              = (batch_size - (c + minibatch_size) + minibatch_size - 1)
                / minibatch_size + 1).
    { rewrite <- Z.div_add by lia. f_equal. ring. }
    assert (Hq : 0 <= (batch_size - (c + minibatch_size) + minibatch_size - 1)
                      / minibatch_size).
    { apply Z.div_pos; lia. }
    assert (Hperm' : Permutation (Minibatch.arange batch_size)
                                 (shuffle k indices)).
    { eapply Permutation_trans; [exact Hperm|apply shuffle_permutes]. }
    destruct (IH (shuffle k indices) (c + minibatch_size) (S k) Hperm'
                 ltac:(lia) ltac:(lia)) as (H1 & H2 & H3).
    destruct (drain enum_replace fuel _) as [ys e0]. cbn [fst snd] in *.
    split; [exact H1|]. split; [simpl; rewrite H2; lia|].
    constructor; [|exact H3].
    assert (Hlen : Z.of_nat (length (shuffle k indices)) = batch_size).
    { rewrite <- (Permutation_length Hperm'), arange_length. lia. }
    split; [|split].
    + unfold py_slice, slice_bound. cbv zeta.
      change (0 <? 0) with false. cbv iota.
      replace (minibatch_size <? 0) with false
        by (symmetry; apply Z.ltb_ge; lia).
      rewrite length_firstn, length_skipn. lia.
    + apply py_slice_NoDup.
      eapply Permutation_NoDup; [exact Hperm'|apply arange_NoDup].
    + apply Forall_forall. intros x Hx. apply py_slice_In in Hx.
      apply arange_range.
      eapply Permutation_in; [|exact Hx]. now apply Permutation_sym.
  - apply Z.ltb_ge in Ec. simpl.
    assert (Hz : (batch_size - c + minibatch_size - 1) / minibatch_size <= 0).
    { apply Z.lt_succ_r. apply Z.div_lt_upper_bound; lia. }
    repeat split; [lia|constructor].
Qed.

(** X4.  [enum_minibatches] with [replace=True] and [minibatch_size >= 1]:
    whatever [num_minibatches] is, the generator yields one array per value
    of [range(0, batch_size, minibatch_size)], that is
    [ceil(batch_size / minibatch_size)] arrays, then returns; every array
    is the head of a fresh shuffle: [min(minibatch_size, batch_size)]
    indices, all different, all in [[0, batch_size)]. *)
Theorem enum_minibatches_with_replacement (fuel : nat) :
  1 <= minibatch_size ->
  (Z.to_nat ((batch_size + minibatch_size - 1) / minibatch_size)
   < fuel)%nat ->
  snd (drain enum_replace fuel Minibatch.Start) = Finished
  /\ length (fst (drain enum_replace fuel Minibatch.Start))
     = Z.to_nat ((batch_size + minibatch_size - 1) / minibatch_size)
  /\ Forall (fun m => Z.of_nat (length m) = Z.min minibatch_size batch_size
                      /\ NoDup m
                      /\ Forall (fun x => 0 <= x < batch_size) m)
            (fst (drain enum_replace fuel Minibatch.Start)).
Proof.
  intros Hm Hf.
  assert (Hstart :
            drain enum_replace fuel Minibatch.Start
            = drain enum_replace fuel
                    (Minibatch.LoopReplace (Minibatch.arange batch_size)
                                           0 0)).
  { destruct fuel as [|fuel]; [reflexivity|].
    cbn [drain Minibatch.enum_minibatches].
    replace (minibatch_size =? 0) with false
      by (symmetry; apply Z.eqb_neq; lia).
    reflexivity. }
  rewrite Hstart.
  replace (batch_size + minibatch_size - 1)
    with (batch_size - 0 + minibatch_size - 1) in * by ring.
  apply (@drain_replace Hm fuel (Minibatch.arange batch_size) 0 0%nat);
    [apply Permutation_refl|lia|exact Hf].
Qed.

End Enum.

Lemma enum_minibatches_yields_num_minibatches_witness :
  (forall (k : nat) (a : list Z), Permutation a (rev a))
  /\ 1 <= 2 <= 5
  /\ (Z.to_nat 3 < 4)%nat
  /\ snd (drain (Minibatch.enum_minibatches (fun _ a => rev a) 5 2 3 false) 4
                Minibatch.Start)
     = Finished
  /\ length (fst (drain (Minibatch.enum_minibatches
                           (fun _ a => rev a) 5 2 3 false) 4
                        Minibatch.Start))
     = Z.to_nat 3.
Proof.
  assert (P : forall (k : nat) (a : list Z), Permutation a (rev a)).
  { intros _ a. apply Permutation_rev. }
  assert (M : 1 <= 2 <= 5) by lia.
  assert (F : (Z.to_nat 3 < 4)%nat) by (simpl; lia).
  split; [exact P|]. split; [exact M|]. split; [exact F|].
  destruct (@enum_minibatches_yields_num_minibatches
              (fun _ a => rev a) 5 2 3 P 4%nat M F) as (H1 & H2 & _).
  split; [exact H1 | exact H2].
Defined.

Lemma a_pass_covers_the_batch_witness :
  (forall (k : nat) (a : list Z), Permutation a (rev a))
  /\ 1 <= 2 <= 4
  /\ 4 mod 2 = 0
  /\ (Z.of_nat 1 + 1) * (4 / 2) <= 4
  /\ (Z.to_nat 4 < 5)%nat
  /\ Permutation
       (concat (firstn (Z.to_nat (4 / 2))
                  (skipn (1 * Z.to_nat (4 / 2))
                     (fst (drain (Minibatch.enum_minibatches
                                    (fun _ a => rev a) 4 2 4 false) 5
                                 Minibatch.Start)))))
       (Minibatch.arange 4).
Proof.
  assert (P : forall (k : nat) (a : list Z), Permutation a (rev a)).
  { intros _ a. apply Permutation_rev. }
  assert (M : 1 <= 2 <= 4) by lia.
  assert (D : 4 mod 2 = 0) by reflexivity.
  assert (Q : (Z.of_nat 1 + 1) * (4 / 2) <= 4) by (vm_compute; discriminate).
  assert (F : (Z.to_nat 4 < 5)%nat) by (simpl; lia).
  split; [exact P|]. split; [exact M|]. split; [exact D|].
  split; [exact Q|]. split; [exact F|].
  exact (@a_pass_covers_the_batch (fun _ a => rev a) 4 2 4 P 5%nat 1%nat
           M D Q F).
Defined.

Lemma enum_minibatches_with_replacement_witness :
  (forall (k : nat) (a : list Z), Permutation a (rev a))
  /\ 1 <= 2
  /\ (Z.to_nat ((5 + 2 - 1) / 2) < 4)%nat
  /\ snd (drain (Minibatch.enum_minibatches (fun _ a => rev a) 5 2 1 true) 4
                Minibatch.Start)
     = Finished
  /\ length (fst (drain (Minibatch.enum_minibatches
                           (fun _ a => rev a) 5 2 1 true) 4
                        Minibatch.Start))
     = Z.to_nat ((5 + 2 - 1) / 2).
Proof.
  assert (P : forall (k : nat) (a : list Z), Permutation a (rev a)).
  { intros _ a. apply Permutation_rev. }
  assert (M : 1 <= 2) by lia.
  assert (F : (Z.to_nat ((5 + 2 - 1) / 2) < 4)%nat) by (vm_compute; lia).
  split; [exact P|]. split; [exact M|]. split; [exact F|].
  destruct (@enum_minibatches_with_replacement
              (fun _ a => rev a) 5 2 1 P 4%nat M F) as (H1 & H2 & _).
  split; [exact H1 | exact H2].
Defined.

End EnumFacts.

(** ** The PPO losses: signs, clipping, and how many records a run has *)

Module LossFacts.
Import Tensor TensorFacts GeneratorFacts PPOFacts.
Local Open Scope R_scope.

Lemma tsum_nonneg (l : list R) : Forall (fun x => 0 <= x) l -> 0 <= tsum l.
Proof.
  induction 1 as [|x l Hx _ IH]; unfold tsum in *; simpl; lra.
Qed.

Lemma mean_nonneg (l : list R) : Forall (fun x => 0 <= x) l -> 0 <= mean l.
Proof.
  intros H. unfold mean. destruct l as [|x l].
  - unfold tsum, Rdiv. simpl. lra.
  - apply Rmult_le_pos; [now apply tsum_nonneg|].
    apply Rlt_le, Rinv_0_lt_compat, lt_0_INR. simpl. lia.
Qed.

Lemma tsum_zero_all (l : list R) :
  Forall (fun x => 0 <= x) l -> tsum l = 0 -> Forall (fun x => x = 0) l.
Proof.
  induction 1 as [|x l Hx Hl IH]; intros Hs; [constructor|].
  change (tsum (x :: l)) with (x + tsum l) in Hs.
  pose proof (tsum_nonneg Hl) as Hn.
  constructor; [lra|]. apply IH. lra.
Qed.



(** The terms of [approx_kl]: [exp(l) - 1 - l] over the log-ratios. *)
Lemma approx_kl_terms (lp lp_old : list R) :
  PPO.approx_kl_of lp lp_old
  = mean (map (fun l => exp l - 1 - l) (zip_with Rminus lp lp_old)).
Proof.
  unfold PPO.approx_kl_of. cbv zeta. f_equal.
  induction (zip_with Rminus lp lp_old) as [|l ls IH]; simpl;
    [reflexivity|].
  now rewrite IH.
Qed.

Lemma approx_kl_same (lp : list R) : PPO.approx_kl_of lp lp = 0.
Proof.
  rewrite approx_kl_terms.
  assert (H : map (fun l => exp l - 1 - l) (zip_with Rminus lp lp)
              = repeat 0 (length lp)).
  { induction lp as [|x lp IH]; simpl; [reflexivity|].
    rewrite IH. f_equal.
    replace (x - x) with 0 by ring. rewrite exp_0. ring. }
  rewrite H. unfold mean. rewrite tsum_repeat. unfold Rdiv. ring.
Qed.

(** X8.  [approx_kl], the mean of [(ratio - 1) - logratio], is never
    negative; it is zero when the new log-probabilities are the old ones;
    and on two non-empty tensors of one length it is zero only then. *)
Theorem approx_kl_is_nonnegative (lp lp_old : list R) :
  0 <= PPO.approx_kl_of lp lp_old
  /\ PPO.approx_kl_of lp lp = 0
  /\ (length lp = length lp_old ->
      PPO.approx_kl_of lp lp_old = 0 -> lp = lp_old).
Proof.
  assert (Hterms : Forall (fun x => 0 <= x)
                          (map (fun l => exp l - 1 - l)
                               (zip_with Rminus lp lp_old))).
  { apply Forall_forall. intros x Hx. apply in_map_iff in Hx.
    destruct Hx as (l & <- & _). pose proof (exp_ineq1_le l). lra. }
  split; [|split].
  - rewrite approx_kl_terms. now apply mean_nonneg.
  - apply approx_kl_same.
  - intros Hlen Hz. rewrite approx_kl_terms in Hz.
    destruct lp as [|x lp]; [destruct lp_old; [reflexivity|discriminate]|].
    destruct lp_old as [|y lp_old]; [discriminate|].
    assert (Hs : tsum (map (fun l => exp l - 1 - l)
                           (zip_with Rminus (x :: lp) (y :: lp_old))) = 0).
    { unfold mean in Hz.
      apply Rmult_integral in Hz. destruct Hz as [Hz|Hz]; [exact Hz|].
      exfalso. revert Hz. apply Rinv_neq_0_compat, not_0_INR.
      simpl. discriminate. }
    pose proof (tsum_zero_all Hterms Hs) as Hall.
    clear Hz Hs Hterms. revert Hlen Hall.
    generalize (x :: lp) (y :: lp_old). clear.
    induction l as [|a l IH]; intros [|b l0] Hlen Hall;
      try discriminate; [reflexivity|].
    simpl in Hall. inversion Hall as [|? ? Hab Hrest]; subst.
    assert (E : a - b = 0).
    { destruct (Req_dec (a - b) 0) as [E|E]; [exact E|].
      pose proof (exp_ineq1 _ E). lra. }
    f_equal; [lra|]. apply IH; [now injection Hlen|exact Hrest].
Qed.









Section Collaborators.
Variables Params Obs Act Logits : Type.
Variable log_prob : list Logits -> list Act -> list R.
Variable entropy : list Logits -> list R.
Variable generalized_advantage_estimate :
  list (list R) -> list (list R) -> list (list R) -> list (list bool) ->
  R -> R -> list (list R).
Variable clipped_advantage_policy_gradient_loss :
  list R -> list R -> list R -> list bool -> R -> list R.
Variable preprocess_input_fn : option (Obs -> Obs).
Variable model : Params -> list Obs -> PPO.net_output Logits.
Variable shuffle : nat -> list Z -> list Z.
Variable obs0 : Obs.
Variable act0 : Act.
Variable rmodel :
  Params -> list Obs -> PPO.hidden_state -> PPO.rnet_output Logits.
Variable init_hidden : Params -> nat -> PPO.hidden_state.
Variable zip2 :
  list (list Obs) -> list (list bool) -> list (list Obs * list bool).
Variable hp : PPO.hyper.
Variables minibatch_size num_minibatches num_epochs : Z.

Local Abbreviation flat_resume :=
  (PPO.compute_ppo_losses_flat
     log_prob entropy generalized_advantage_estimate
     clipped_advantage_policy_gradient_loss preprocess_input_fn
     model shuffle obs0 act0 hp minibatch_size num_minibatches).

Local Abbreviation rec_resume :=
  (PPO.compute_ppo_losses_rec
     log_prob entropy generalized_advantage_estimate
     clipped_advantage_policy_gradient_loss preprocess_input_fn
     rmodel init_hidden zip2 hp num_epochs).

Local Abbreviation epoch_record_of :=
  (PPO.epoch_record
     log_prob entropy clipped_advantage_policy_gradient_loss
     preprocess_input_fn rmodel init_hidden zip2 hp).

Local Abbreviation freeze_of :=
  (PPO.freeze log_prob generalized_advantage_estimate
              preprocess_input_fn rmodel init_hidden zip2 hp).

Lemma rec_count_from_frame :
  PPO.target_kl hp = None ->
  forall (thetas : list Params) f i kl,
    length (fst (drive rec_resume thetas (PPO.RYielded f i kl)))
    = Nat.min (length thetas) (Z.to_nat (num_epochs - (i + 1)))
    /\ ((Z.to_nat (num_epochs - (i + 1)) < length thetas)%nat ->
        snd (drive rec_resume thetas (PPO.RYielded f i kl)) = Finished).
Proof.
  intros Ht. induction thetas as [|theta thetas IH]; intros f i kl.
  - simpl. split; [reflexivity|lia].
  - cbn [drive PPO.compute_ppo_losses_rec]. rewrite Ht.
    cbn [PPO.kl_break]. unfold PPO.epoch.
    destruct (num_epochs <=? i + 1)%Z eqn:E.
    + apply Z.leb_le in E. simpl.
      replace (Z.to_nat (num_epochs - (i + 1))) with 0%nat by lia.
      split; reflexivity.
    + apply Z.leb_gt in E.
      destruct (IH f (i + 1)%Z
                   (PPO.r_approx_kl (epoch_record_of theta f))) as [H1 H2].
      destruct (drive rec_resume thetas _) as [ys e0]. cbn [fst snd] in *.
      split.
      * cbn [length]. rewrite H1. lia.
      * intros Hlt. apply H2. cbn [length] in Hlt. lia.
Qed.

(** X5.  The recurrent [compute_ppo_losses] without [target_kl]: a
    consumer that asks [k] times receives [min(k, num_epochs)] records
    (none when [num_epochs <= 0]), and the generator returns on the
    [next()] that follows the last epoch. *)
Theorem recurrent_run_has_num_epochs_records
        (thetas : list Params) (h : PPO.rhistory Obs Act) :
  PPO.target_kl hp = None ->
  length (fst (drive rec_resume thetas (PPO.RStart h)))
  = Nat.min (length thetas) (Z.to_nat num_epochs)
  /\ ((Z.to_nat num_epochs < length thetas)%nat ->
      snd (drive rec_resume thetas (PPO.RStart h)) = Finished).
Proof.
  intros Ht. destruct thetas as [|theta thetas].
  - simpl. split; [reflexivity|lia].
  - cbn [drive]. rewrite rec_resume_start. unfold PPO.epoch.
    destruct (num_epochs <=? 0)%Z eqn:E.
    + apply Z.leb_le in E. simpl.
      replace (Z.to_nat num_epochs) with 0%nat by lia.
      split; reflexivity.
    + apply Z.leb_gt in E.
      destruct (@rec_count_from_frame Ht thetas (freeze_of theta h) 0%Z
                  (PPO.r_approx_kl
                     (epoch_record_of theta (freeze_of theta h))))
        as [H1 H2].
      destruct (drive rec_resume thetas _) as [ys e0]. cbn [fst snd] in *.
      split.
      * cbn [length]. rewrite H1. lia.
      * intros Hlt. apply H2. cbn [length] in Hlt. lia.
Qed.

(** In the first epoch the network that is replayed is the one that
    produced the old log-probabilities. *)
Lemma first_epoch_kl theta (h : PPO.rhistory Obs Act) :
  PPO.r_approx_kl (epoch_record_of theta (freeze_of theta h)) = 0.
Proof.
  unfold PPO.epoch_record, PPO.freeze. cbn [PPO.fr_history].
  destruct (PPO.replay _ _ _ _ _ _) as [net_out curr_hidden].
  cbn [PPO.r_approx_kl PPO.fr_log_action_probs_old fst].
  apply approx_kl_same.
Qed.

(** X6.  The first record of the recurrent [compute_ppo_losses] has
    [approx_kl = 0]: the first epoch replays the trajectory through the
    very network that gave the old log-probabilities.  Hence a
    [target_kl >= 0] never stops the run after its first epoch (with
    [num_epochs >= 2] a second record follows, whatever the parameters
    then), and a negative [target_kl] always does. *)
Theorem first_epoch_has_zero_kl theta (h : PPO.rhistory Obs Act) :
  (1 <= num_epochs)%Z ->
  exists r s',
    rec_resume theta (PPO.RStart h) = Yielded r s'
    /\ PPO.r_approx_kl r = 0
    /\ (forall theta',
           (forall t, PPO.target_kl hp = Some t -> 0 <= t) ->
           (2 <= num_epochs)%Z ->
           exists r' s'', rec_resume theta' s' = Yielded r' s'')
    /\ (forall theta' t,
           PPO.target_kl hp = Some t -> t < 0 ->
           rec_resume theta' s' = Returned).
Proof.
  intros Hn. rewrite rec_resume_start. unfold PPO.epoch.
  replace (num_epochs <=? 0)%Z with false
    by (symmetry; apply Z.leb_gt; lia).
  eexists. eexists. split; [reflexivity|].
  rewrite first_epoch_kl. split; [reflexivity|]. split.
  - intros theta' Ht H2. cbn [PPO.compute_ppo_losses_rec].
    destruct (PPO.target_kl hp) as [t|] eqn:E.
    + rewrite kl_break_not_above by (apply Ht; reflexivity).
      unfold PPO.epoch.
      replace (num_epochs <=? 0 + 1)%Z with false
        by (symmetry; apply Z.leb_gt; lia).
      eauto.
    + cbn [PPO.kl_break]. unfold PPO.epoch.
      replace (num_epochs <=? 0 + 1)%Z with false
        by (symmetry; apply Z.leb_gt; lia).
      eauto.
  - intros theta' t Ht Hneg. cbn [PPO.compute_ppo_losses_rec].
    rewrite Ht, kl_break_above by lra. reflexivity.
Qed.

Local Abbreviation enum_of batch_size :=
  (Minibatch.enum_minibatches shuffle batch_size minibatch_size
                              num_minibatches false).

Local Abbreviation flat_next_of :=
  (PPO.flat_next log_prob entropy clipped_advantage_policy_gradient_loss
                 model shuffle obs0 act0 hp minibatch_size num_minibatches).

(** Without [target_kl] the flattened generator yields and stops with
    its minibatch generator. *)
Lemma flat_drive_drain :
  PPO.target_kl hp = None ->
  forall (thetas : list Params) f batch_size mbs kl,
    length (fst (drive flat_resume thetas
                       (PPO.FYielded f batch_size mbs kl)))
    = length (fst (drain (enum_of batch_size) (length thetas) mbs))
    /\ snd (drive flat_resume thetas (PPO.FYielded f batch_size mbs kl))
       = snd (drain (enum_of batch_size) (length thetas) mbs).
Proof.
  intros Ht. induction thetas as [|theta thetas IH]; intros f bs mbs kl.
  - split; reflexivity.
  - cbn [drive drain length PPO.compute_ppo_losses_flat]. rewrite Ht.
    cbn [PPO.kl_break]. unfold PPO.flat_next.
    destruct (enum_of bs mbs) as [mb mbs'| |e]; try (split; reflexivity).
    match goal with
    | |- context [drive flat_resume thetas (PPO.FYielded f bs mbs' ?k)] =>
        destruct (IH f bs mbs' k) as [H1 H2];
        destruct (drive flat_resume thetas (PPO.FYielded f bs mbs' k))
          as [ys e0]
    end.
    destruct (drain (enum_of bs) (length thetas) mbs') as [ms e1].
    cbn [fst snd length] in *. split; congruence.
Qed.

(** X7.  The flattened [compute_ppo_losses] without [target_kl], with
    [1 <= minibatch_size <= batch_size]: a consumer that keeps asking
    receives exactly [num_minibatches] records, then the generator
    returns. *)
Theorem flat_run_has_num_minibatches_records
        (thetas : list Params) (h : PPO.history Obs Act) :
  PPO.target_kl hp = None ->
  (1 <= minibatch_size <= PPO.batch_size_of h)%Z ->
  (Z.to_nat num_minibatches < length thetas)%nat ->
  length (fst (drive flat_resume thetas (PPO.FStart h)))
  = Z.to_nat num_minibatches
  /\ snd (drive flat_resume thetas (PPO.FStart h)) = Finished.
Proof.
  intros Ht Hm Hf.
  assert (Hn : (1 <= PPO.batch_size_of h / minibatch_size)%Z)
    by (apply Z.div_le_lower_bound; lia).
  destruct (@EnumFacts.enum_count shuffle (PPO.batch_size_of h)
              minibatch_size num_minibatches (length thetas)
              ltac:(lia) ltac:(lia) Hf) as [Hend Hlen].
  destruct thetas as [|theta thetas]; [simpl in Hf; lia|].
  cbn [drive]. rewrite flat_resume_start. unfold PPO.flat_next.
  cbn [drain length] in Hend, Hlen.
  destruct (enum_of (PPO.batch_size_of h) Minibatch.Start)
    as [mb mbs'| |e].
  - match goal with
    | |- context [drive flat_resume thetas (PPO.FYielded ?f ?b mbs' ?k)] =>
        destruct (@flat_drive_drain Ht thetas f b mbs' k) as [H1 H2];
        destruct (drive flat_resume thetas (PPO.FYielded f b mbs' k))
          as [ys e0]
    end.
    destruct (drain (enum_of (PPO.batch_size_of h)) (length thetas) mbs')
      as [ms e1].
    cbn [fst snd length] in *. split; congruence.
  - cbn [fst snd length] in *. split; [exact Hlen|reflexivity].
  - discriminate.
Qed.

End Collaborators.

Lemma recurrent_run_has_num_epochs_records_witness :
  let hp := PPO.mkHyper 0.99 0.95 true None 0.01 0.5 None in
  let resume :=
    PPO.compute_ppo_losses_rec
      Toy.log_prob Toy.entropy Toy.generalized_advantage_estimate
      Toy.clipped_advantage_policy_gradient_loss None Toy.rmodel
      Toy.init_hidden Toy.zip2 hp 2 in
  PPO.target_kl hp = None
  /\ length (fst (drive resume [0; 1; 2] (PPO.RStart Toy.rhistory1)))
     = Nat.min (length [0; 1; 2]) (Z.to_nat 2)
  /\ snd (drive resume [0; 1; 2] (PPO.RStart Toy.rhistory1)) = Finished.
Proof.
  intros hp resume.
  assert (H : PPO.target_kl hp = None) by reflexivity.
  split; [exact H|].
  destruct (@recurrent_run_has_num_epochs_records
              R unit unit R
              Toy.log_prob Toy.entropy Toy.generalized_advantage_estimate
              Toy.clipped_advantage_policy_gradient_loss None Toy.rmodel
              Toy.init_hidden Toy.zip2 hp 2%Z [0; 1; 2] Toy.rhistory1 H)
    as [H1 H2].
  split; [exact H1|]. apply H2. simpl. lia.
Defined.

Lemma first_epoch_has_zero_kl_witness :
  (1 <= 2)%Z
  /\ exists r s',
       Toy.rec_resume 2 0 (PPO.RStart Toy.rhistory1) = Yielded r s'
       /\ PPO.r_approx_kl r = 0.
Proof.
  assert (H : (1 <= 2)%Z) by lia.
  split; [exact H|].
  destruct (@first_epoch_has_zero_kl
              R unit unit R
              Toy.log_prob Toy.entropy Toy.generalized_advantage_estimate
              Toy.clipped_advantage_policy_gradient_loss None Toy.rmodel
              Toy.init_hidden Toy.zip2 Toy.hp 2%Z 0 Toy.rhistory1 H)
    as (r & s' & E & K & _).
  exists r, s'. split; [exact E | exact K].
Defined.

Lemma flat_run_has_num_minibatches_records_witness :
  let hp := PPO.mkHyper 0.99 0.95 true None 0.01 0.5 None in
  let resume :=
    PPO.compute_ppo_losses_flat
      Toy.log_prob Toy.entropy Toy.generalized_advantage_estimate
      Toy.clipped_advantage_policy_gradient_loss None Toy.model
      Toy.shuffle tt tt hp 2 3 in
  PPO.target_kl hp = None
  /\ (1 <= 2 <= PPO.batch_size_of Toy.history4)%Z
  /\ (Z.to_nat 3 < length [0; 1; 2; 3])%nat
  /\ length (fst (drive resume [0; 1; 2; 3] (PPO.FStart Toy.history4)))
     = Z.to_nat 3
  /\ snd (drive resume [0; 1; 2; 3] (PPO.FStart Toy.history4)) = Finished.
Proof.
  intros hp resume.
  assert (H1 : PPO.target_kl hp = None) by reflexivity.
  assert (H2 : (1 <= 2 <= PPO.batch_size_of Toy.history4)%Z).
  { unfold PPO.batch_size_of. simpl. lia. }
  assert (H3 : (Z.to_nat 3 < length [0; 1; 2; 3])%nat) by (simpl; lia).
  split; [exact H1|]. split; [exact H2|]. split; [exact H3|].
  exact (@flat_run_has_num_minibatches_records
           R unit unit R
           Toy.log_prob Toy.entropy Toy.generalized_advantage_estimate
           Toy.clipped_advantage_policy_gradient_loss None Toy.model
           Toy.shuffle tt tt hp 2%Z 3%Z [0; 1; 2; 3] Toy.history4
           H1 H2 H3).
Defined.

End LossFacts.

(** ** The rollout loop: what the history and the episode statistics hold *)

Module EpisodeFacts.
Import Tensor TensorFacts RolloutFacts.
Local Open Scope R_scope.

Lemma clamp_bounds (r c : R) : 0 <= c -> - c <= clamp r (- c) c <= c.
Proof.
  intros Hc. unfold clamp, Rmin, Rmax.
  destruct (Rle_dec r (- c)); destruct (Rle_dec _ c); lra.
Qed.

Lemma nth_error_mask_assign {A : Type} (v : A) :
  forall mask (a : list A) k m x,
    nth_error mask k = Some m -> nth_error a k = Some x ->
    nth_error (mask_assign mask a v) k = Some (if m then v else x).
Proof.
  intros mask a k m x Hm Hx. unfold mask_assign.
  now rewrite (nth_error_zip_with _ _ _ _ Hm Hx).
Qed.

Lemma nth_error_map_some {A B : Type} (f : A -> B) (l : list A) k x :
  nth_error l k = Some x -> nth_error (map f l) k = Some (f x).
Proof. intros H. now rewrite nth_error_map, H. Qed.

(** [a[mask]] has one entry per [True] of the mask. *)
Lemma mask_select_length {A : Type} :
  forall (mask : list bool) (a : list A),
    length a = length mask ->
    length (mask_select mask a) = length (filter (fun b => b) mask).
Proof.
  induction mask as [|m mask IH]; intros [|x a] Hlen; simpl in *;
    try discriminate; [reflexivity|].
  injection Hlen as Hlen. destruct m; simpl; now rewrite IH.
Qed.

Lemma mask_assign_length {A : Type} (mask : list bool) (a : list A) (v : A) :
  length (mask_assign mask a v) = Nat.min (length mask) (length a).
Proof. unfold mask_assign. apply zip_with_length. Qed.

Section Env.
Variables Params Obs Act Logits : Type.
Variable rmodel :
  Params -> list Obs -> PPO.hidden_state -> PPO.rnet_output Logits.
Variable init_hidden : Params -> nat -> PPO.hidden_state.
Variable preprocess : list Obs -> list Obs.
Variable theta : Params.
Variable num_envs : nat.
Variable cfg : Rollout.config.

Local Abbreviation step :=
  (Rollout.rollout_step rmodel init_hidden preprocess theta num_envs cfg).
Local Abbreviation rollout :=
  (Rollout.rollout rmodel init_hidden preprocess theta num_envs cfg).
Local Abbreviation done_of e :=
  (zip_with orb (Rollout.e_terminated e) (Rollout.e_truncated e)).

(** X10.  With [reward_clip = c >= 0], every reward that a rollout writes
    to the history lies in [[-c, c]], whatever the environment returned
    and whatever [reward_scale] is; the rollout writes one row of rewards
    per step. *)
Theorem history_rewards_are_clipped
        (c : R) (st : Rollout.state Obs Act)
        (steps : list (Rollout.env_step Obs Act)) :
  Rollout.reward_clip cfg = Some c ->
  0 <= c ->
  exists rows,
    Rollout.reward_history (Rollout.history (rollout st steps))
    = Rollout.reward_history (Rollout.history st) ++ rows
    /\ length rows = length steps
    /\ Forall (Forall (fun r => - c <= r <= c)) rows.
Proof.
  intros Hclip Hc.
  exists (map (fun e => Rollout.shape_reward cfg (Rollout.e_reward e)) steps).
  split; [|split].
  - unfold Rollout.rollout.
    now rewrite fold_rollout_step_reward_history.
  - apply length_map.
  - apply Forall_forall. intros row Hrow. apply in_map_iff in Hrow.
    destruct Hrow as (e & <- & _). unfold Rollout.shape_reward.
    rewrite Hclip. apply Forall_forall. intros r Hr.
    apply in_map_iff in Hr. destruct Hr as (r0 & <- & _).
    now apply clamp_bounds.
Qed.

Lemma step_counters (st : Rollout.state Obs Act) e :
  Rollout.global_step (step st e)
  = (Rollout.global_step st + Z.of_nat num_envs)%Z
  /\ Rollout.obs_history (Rollout.history (step st e))
     = Rollout.obs_history (Rollout.history st) ++ [Rollout.e_obs e]
  /\ Rollout.action_history (Rollout.history (step st e))
     = Rollout.action_history (Rollout.history st) ++ [Rollout.e_action e]
  /\ Rollout.terminal_history (Rollout.history (step st e))
     = Rollout.terminal_history (Rollout.history st) ++ [done_of e]
  /\ length (Rollout.misc_history (Rollout.history (step st e)))
     = S (length (Rollout.misc_history (Rollout.history st))).
Proof.
  unfold Rollout.rollout_step.
  destruct (existsb (fun b => b) (done_of e)); cbn;
    rewrite length_app; cbn; repeat split; lia.
Qed.

Lemma fold_step_counters (steps : list (Rollout.env_step Obs Act)) :
  forall st,
    Rollout.global_step (fold_left step steps st)
    = (Rollout.global_step st
       + Z.of_nat num_envs * Z.of_nat (length steps))%Z
    /\ Rollout.obs_history (Rollout.history (fold_left step steps st))
       = Rollout.obs_history (Rollout.history st)
         ++ map (@Rollout.e_obs Obs Act) steps
    /\ Rollout.action_history (Rollout.history (fold_left step steps st))
       = Rollout.action_history (Rollout.history st)
         ++ map (@Rollout.e_action Obs Act) steps
    /\ Rollout.terminal_history (Rollout.history (fold_left step steps st))
       = Rollout.terminal_history (Rollout.history st)
         ++ map (fun e => done_of e) steps
    /\ length (Rollout.misc_history
                 (Rollout.history (fold_left step steps st)))
       = (length (Rollout.misc_history (Rollout.history st))
          + length steps)%nat.
Proof.
  induction steps as [|e steps IH]; intro st.
  - cbn. rewrite !app_nil_r. repeat split; lia.
  - cbn [fold_left map length].
    destruct (IH (step st e)) as (H1 & H2 & H3 & H4 & H5).
    destruct (step_counters st e) as (G1 & G2 & G3 & G4 & G5).
    rewrite H1, H2, H3, H4, H5, G1, G2, G3, G4, G5, <- !app_assoc.
    repeat split; lia.
Qed.

(** X11.  A rollout of [k] steps adds [num_envs * k] to the global step
    counter and writes to the history, in the order of the steps, the [k]
    actions taken, the [k] observations received and the [k] masks
    [terminated | truncated], and [k] hidden states; so a history that
    held one more observation than actions still does. *)
Theorem rollout_counts_steps
        (st : Rollout.state Obs Act)
        (steps : list (Rollout.env_step Obs Act)) :
  let st' := rollout st steps in
  Rollout.global_step st'
  = (Rollout.global_step st + Z.of_nat num_envs * Z.of_nat (length steps))%Z
  /\ Rollout.obs_history (Rollout.history st')
     = Rollout.obs_history (Rollout.history st)
       ++ map (@Rollout.e_obs Obs Act) steps
  /\ Rollout.action_history (Rollout.history st')
     = Rollout.action_history (Rollout.history st)
       ++ map (@Rollout.e_action Obs Act) steps
  /\ Rollout.terminal_history (Rollout.history st')
     = Rollout.terminal_history (Rollout.history st)
       ++ map (fun e => done_of e) steps
  /\ length (Rollout.misc_history (Rollout.history st'))
     = (length (Rollout.misc_history (Rollout.history st))
        + length steps)%nat
  /\ (length (Rollout.obs_history (Rollout.history st))
      = S (length (Rollout.action_history (Rollout.history st))) ->
      length (Rollout.obs_history (Rollout.history st'))
      = S (length (Rollout.action_history (Rollout.history st')))).
Proof.
  intros st'. subst st'. unfold Rollout.rollout.
  match goal with
  | |- context [fold_left step steps ?s0] =>
      destruct (fold_step_counters steps s0) as (H1 & H2 & H3 & H4 & H5)
  end.
  cbn [Rollout.global_step Rollout.history] in *.
  split; [exact H1|]. split; [exact H2|]. split; [exact H3|].
  split; [exact H4|]. split; [exact H5|].
  intros Hlen. rewrite H2, H3, !length_app, !length_map. lia.
Qed.

(** X12.  One step of the rollout, seen from the environment slot [k]:
    the return, the true return and the length of its episode are reset to
    0 when the slot is done ([terminated | truncated]); otherwise the
    return grows by the reward as the environment gave it, the true return
    by [info['reward']] when present and by the reward when not, and the
    length by 1. *)
Theorem episode_stats_of_a_slot
        (st : Rollout.state Obs Act) (e : Rollout.env_step Obs Act)
        (k : nat) (x xt n r rt : R) (a b : bool) :
  nth_error (Rollout.episode_reward st) k = Some x ->
  nth_error (Rollout.episode_true_reward st) k = Some xt ->
  nth_error (Rollout.episode_steps st) k = Some n ->
  nth_error (Rollout.e_reward e) k = Some r ->
  nth_error (match Rollout.e_info_reward e with
             | Some ir => ir
             | None => Rollout.e_reward e
             end) k = Some rt ->
  nth_error (Rollout.e_terminated e) k = Some a ->
  nth_error (Rollout.e_truncated e) k = Some b ->
  nth_error (Rollout.episode_reward (step st e)) k
  = Some (if a || b then 0 else x + r)
  /\ nth_error (Rollout.episode_true_reward (step st e)) k
     = Some (if a || b then 0 else xt + rt)
  /\ nth_error (Rollout.episode_steps (step st e)) k
     = Some (if a || b then 0 else n + 1).
Proof.
  intros Hx Hxt Hn Hr Hrt Ha Hb.
  pose proof (nth_error_zip_with orb _ _ _ Ha Hb) as Hd.
  pose proof (nth_error_zip_with Rplus _ _ _ Hx Hr) as Hsum.
  pose proof (nth_error_zip_with Rplus _ _ _ Hxt Hrt) as Hsumt.
  pose proof (nth_error_map_some (fun v => v + 1) _ _ Hn) as Hsteps.
  unfold Rollout.rollout_step.
  destruct (existsb (fun b => b) (done_of e)) eqn:Eany;
    cbn [Rollout.episode_reward Rollout.episode_true_reward
         Rollout.episode_steps].
  - rewrite (nth_error_mask_assign 0 _ _ _ Hd Hsum),
      (nth_error_mask_assign 0 _ _ _ Hd Hsumt),
      (nth_error_mask_assign 0 _ _ _ Hd Hsteps).
    repeat split.
  - rewrite (existsb_false_nth _ Eany _ Hd).
    rewrite Hsum, Hsumt, Hsteps. repeat split.
Qed.

(** The accumulators keep the shape [num_envs]. *)
Lemma step_episode_reward_length
      (st : Rollout.state Obs Act) (e : Rollout.env_step Obs Act) :
  length (Rollout.episode_reward st) = num_envs ->
  length (Rollout.e_reward e) = num_envs ->
  length (Rollout.e_terminated e) = num_envs ->
  length (Rollout.e_truncated e) = num_envs ->
  length (Rollout.episode_reward (step st e)) = num_envs
  /\ length (Rollout.episode_rewards (step st e))
     = (length (Rollout.episode_rewards st)
        + length (filter (fun b => b) (done_of e)))%nat.
Proof.
  intros Hr He Ha Hb.
  assert (Hd : length (done_of e) = num_envs).
  { rewrite zip_with_length. lia. }
  assert (Hs : length (zip_with Rplus (Rollout.episode_reward st)
                                (Rollout.e_reward e)) = num_envs).
  { rewrite zip_with_length. lia. }
  unfold Rollout.rollout_step.
  destruct (existsb (fun b => b) (done_of e)) eqn:Eany;
    cbn [Rollout.episode_reward Rollout.episode_rewards].
  - rewrite mask_assign_length, length_app, mask_select_length by lia.
    split; lia.
  - split; [exact Hs|].
    assert (Hnone : filter (fun b => b) (done_of e) = []).
    { clear - Eany. induction (done_of e) as [|m l IH]; [reflexivity|].
      simpl in *. apply orb_false_elim in Eany. destruct Eany as [-> H].
      now apply IH. }
    rewrite Hnone. simpl. lia.
Qed.

Lemma fold_episode_rewards_length (steps : list (Rollout.env_step Obs Act)) :
  Forall (fun e => length (Rollout.e_reward e) = num_envs
                   /\ length (Rollout.e_terminated e) = num_envs
                   /\ length (Rollout.e_truncated e) = num_envs) steps ->
  forall st,
    length (Rollout.episode_reward st) = num_envs ->
    length (Rollout.episode_rewards (fold_left step steps st))
    = (length (Rollout.episode_rewards st)
       + length (filter (fun b => b)
                        (concat (map (fun e => done_of e) steps))))%nat.
Proof.
  induction 1 as [|e steps (He & Ha & Hb) _ IH]; intros st Hr.
  - simpl. lia.
  - cbn [fold_left map concat].
    destruct (step_episode_reward_length st e Hr He Ha Hb) as [H1 H2].
    rewrite (IH _ H1), H2, filter_app, length_app. lia.
Qed.

(** X13.  [episode_rewards], emptied at the start of a rollout, ends
    with one entry per finished episode: as many entries as there are
    [True] in the masks [terminated | truncated] of its steps, when the
    environment answers with arrays of length [num_envs]. *)
Theorem episode_rewards_has_one_entry_per_episode
        (st : Rollout.state Obs Act)
        (steps : list (Rollout.env_step Obs Act)) :
  length (Rollout.episode_reward st) = num_envs ->
  Forall (fun e => length (Rollout.e_reward e) = num_envs
                   /\ length (Rollout.e_terminated e) = num_envs
                   /\ length (Rollout.e_truncated e) = num_envs) steps ->
  length (Rollout.episode_rewards (rollout st steps))
  = length (filter (fun b => b) (concat (map (fun e => done_of e) steps))).
Proof.
  intros Hr Hsteps. unfold Rollout.rollout.
  rewrite (fold_episode_rewards_length Hsteps) by exact Hr.
  reflexivity.
Qed.

End Env.

Lemma history_rewards_are_clipped_witness :
  Rollout.reward_clip (Rollout.mkConfig 1 (Some 1)) = Some 1
  /\ 0 <= 1
  /\ exists rows,
       Rollout.reward_history
         (Rollout.history
            (Toy.rollout 0 (Rollout.mkConfig 1 (Some 1)) Toy.rollout_state0
                         [Toy.env_step1]))
       = Rollout.reward_history (Rollout.history Toy.rollout_state0) ++ rows
       /\ length rows = length [Toy.env_step1]
       /\ Forall (Forall (fun r => - (1) <= r <= 1)) rows.
Proof.
  assert (H1 : Rollout.reward_clip (Rollout.mkConfig 1 (Some 1)) = Some 1)
    by reflexivity.
  assert (H2 : 0 <= 1) by lra.
  split; [exact H1|]. split; [exact H2|].
  exact (@history_rewards_are_clipped
           R unit unit R Toy.rmodel Toy.init_hidden (fun o => o) 0 2%nat
           (Rollout.mkConfig 1 (Some 1)) 1 Toy.rollout_state0
           [Toy.env_step1] H1 H2).
Defined.

Lemma episode_stats_of_a_slot_witness :
  nth_error
    (Rollout.episode_reward
       (Rollout.rollout_step Toy.rmodel Toy.init_hidden (fun o => o) 0 2
                             (Rollout.mkConfig 1 None)
                             Toy.rollout_state0 Toy.env_step1)) 0
  = Some 0
  /\ nth_error
       (Rollout.episode_reward
          (Rollout.rollout_step Toy.rmodel Toy.init_hidden (fun o => o) 0 2
                                (Rollout.mkConfig 1 None)
                                Toy.rollout_state0 Toy.env_step1)) 1
     = Some (0 + 7).
Proof.
  split.
  - exact (proj1 (@episode_stats_of_a_slot
                    R unit unit R Toy.rmodel Toy.init_hidden (fun o => o)
                    0 2%nat (Rollout.mkConfig 1 None)
                    Toy.rollout_state0 Toy.env_step1
                    0%nat 0 0 0 5 5 true false
                    eq_refl eq_refl eq_refl eq_refl eq_refl eq_refl
                    eq_refl)).
  - exact (proj1 (@episode_stats_of_a_slot
                    R unit unit R Toy.rmodel Toy.init_hidden (fun o => o)
                    0 2%nat (Rollout.mkConfig 1 None)
                    Toy.rollout_state0 Toy.env_step1
                    1%nat 0 0 0 7 7 false false
                    eq_refl eq_refl eq_refl eq_refl eq_refl eq_refl
                    eq_refl)).
Defined.

Lemma episode_rewards_has_one_entry_per_episode_witness :
  length (Rollout.episode_reward Toy.rollout_state0) = 2%nat
  /\ Forall (fun e : Rollout.env_step unit unit =>
               length (Rollout.e_reward e) = 2%nat
               /\ length (Rollout.e_terminated e) = 2%nat
               /\ length (Rollout.e_truncated e) = 2%nat)
            [Toy.env_step1; Toy.env_step1]
  /\ length (Rollout.episode_rewards
               (Toy.rollout 0 (Rollout.mkConfig 1 None) Toy.rollout_state0
                            [Toy.env_step1; Toy.env_step1]))
     = 2%nat.
Proof.
  assert (H1 : length (Rollout.episode_reward Toy.rollout_state0) = 2%nat)
    by reflexivity.
  assert (H2 : Forall (fun e : Rollout.env_step unit unit =>
                         length (Rollout.e_reward e) = 2%nat
                         /\ length (Rollout.e_terminated e) = 2%nat
                         /\ length (Rollout.e_truncated e) = 2%nat)
                      [Toy.env_step1; Toy.env_step1]).
  { repeat constructor. }
  split; [exact H1|]. split; [exact H2|].
  exact (@episode_rewards_has_one_entry_per_episode
           R unit unit R Toy.rmodel Toy.init_hidden (fun o => o) 0 2%nat
           (Rollout.mkConfig 1 None) Toy.rollout_state0
           [Toy.env_step1; Toy.env_step1] H1 H2).
Defined.

End EpisodeFacts.

(** ** Multitask weights: the running scores, their errors, the order of
    the weights *)

Module WeightFacts.
Import Tensor TensorFacts.
Local Open Scope R_scope.

Lemma set_item_none {A : Type} (v : A) :
  forall (l : list A) i, set_item l i v = None <-> (length l <= i)%nat.
Proof.
  induction l as [|x l IH]; intros [|i]; simpl.
  - split; [lia|reflexivity].
  - split; [lia|reflexivity].
  - split; [discriminate|lia].
  - specialize (IH i). destruct (set_item l i v); simpl.
    + split; [discriminate|]. intros H.
      assert (Hn : Some l0 = None) by (apply IH; lia). discriminate.
    + split; [|reflexivity]. intros _.
      assert (length l <= i)%nat by now apply IH.
      lia.
Qed.

Lemma set_item_nth_error {A : Type} (v : A) :
  forall (l l' : list A) i j,
    set_item l i v = Some l' ->
    nth_error l' j = if Nat.eqb j i then Some v else nth_error l j.
Proof.
  induction l as [|x l IH]; intros l' [|i] j H; simpl in H;
    try discriminate.
  - injection H as <-. destruct j; reflexivity.
  - destruct (set_item l i v) as [l0|] eqn:E; [|discriminate].
    injection H as <-. destruct j as [|j]; [reflexivity|].
    simpl. exact (IH l0 i j E).
Qed.

Module Dynamic.
Import MultitaskDynamicWeight.

(** The running average of one task after the returns [task_scores]. *)
Local Abbreviation ema w :=
  (fold_left (fun x s : R => x * w + s * (1 - w))).

Lemma step_task_ok w i : forall task_scores score,
  (i < length score)%nat ->
  exists score',
    step_task w score i task_scores = Ok score'
    /\ length score' = length score
    /\ forall j,
        nth_error score' j
        = if Nat.eqb j i
          then option_map (ema w task_scores) (nth_error score j)
          else nth_error score j.
Proof.
  induction task_scores as [|s rest IH]; intros score Hi.
  - exists score. split; [reflexivity|]. split; [reflexivity|].
    intros j. destruct (Nat.eqb j i); [|reflexivity].
    now destruct (nth_error score j).
  - cbn [step_task].
    destruct (nth_error score i) as [x|] eqn:Ex;
      [|apply nth_error_None in Ex; lia].
    destruct (set_item score i (x * w + s * (1 - w))) as [sc|] eqn:Es;
      [|apply set_item_none in Es; lia].
    pose proof (@set_item_length _ _ _ _ _ Es) as Hlen.
    destruct (IH sc ltac:(lia)) as (score' & H1 & H2 & H3).
    exists score'. split; [exact H1|]. split; [lia|].
    intros j. rewrite H3, (@set_item_nth_error _ _ _ _ _ j Es).
    destruct (Nat.eqb j i) eqn:Ej; [|reflexivity].
    apply Nat.eqb_eq in Ej. subst j. now rewrite Ex.
Qed.

Lemma step_task_raise w i : forall task_scores score,
  (length score <= i)%nat -> task_scores <> [] ->
  step_task w score i task_scores = Raise IndexError.
Proof.
  intros [|s rest] score Hi Hne; [congruence|]. cbn [step_task].
  apply nth_error_None in Hi. now rewrite Hi.
Qed.

(** The outer loop: either every task with returns has a slot, and then
    each slot holds the running average over its own returns, or the
    first task without a slot raises. *)
Lemma step_from_spec w : forall scores score i,
  (forall k ts, nth_error scores k = Some ts -> ts <> [] ->
                (i + k < length score)%nat) ->
  exists score',
    step_from w score i scores = Ok score'
    /\ length score' = length score
    /\ forall j,
        nth_error score' j
        = if Nat.leb i j
          then option_map (ema w (nth (j - i) scores []))
                          (nth_error score j)
          else nth_error score j.
Proof.
  induction scores as [|ts rest IH]; intros score i Hslots.
  - exists score. split; [reflexivity|]. split; [reflexivity|].
    intros j. destruct (Nat.leb i j); [|reflexivity].
    destruct (j - i)%nat; now destruct (nth_error score j).
  - cbn [step_from].
    assert (Hhead : exists sc,
               step_task w score i ts = Ok sc
               /\ length sc = length score
               /\ forall j,
                   nth_error sc j
                   = if Nat.eqb j i
                     then option_map (ema w ts) (nth_error score j)
                     else nth_error score j).
    { destruct ts as [|s ts'].
      - exists score. split; [reflexivity|]. split; [reflexivity|].
        intros j. destruct (Nat.eqb j i); [|reflexivity].
        now destruct (nth_error score j).
      - apply step_task_ok.
        specialize (Hslots 0%nat (s :: ts') eq_refl ltac:(discriminate)).
        lia. }
    destruct Hhead as (sc & -> & Hlen & Hsc). cbn [bind].
    destruct (IH sc (S i)) as (score' & H1 & H2 & H3).
    { intros k ts' Hk Hne. rewrite Hlen.
      specialize (Hslots (S k) ts' Hk Hne). lia. }
    exists score'. split; [exact H1|]. split; [lia|].
    intros j. rewrite H3, Hsc.
    destruct (Nat.leb (S i) j) eqn:E1.
    + apply Nat.leb_le in E1.
      replace (Nat.leb i j) with true by (symmetry; apply Nat.leb_le; lia).
      replace (Nat.eqb j i) with false by (symmetry; apply Nat.eqb_neq; lia).
      replace (j - i)%nat with (S (j - S i)) by lia. reflexivity.
    + apply Nat.leb_gt in E1. destruct (Nat.eqb j i) eqn:E2.
      * apply Nat.eqb_eq in E2. subst j.
        rewrite Nat.leb_refl, Nat.sub_diag. reflexivity.
      * apply Nat.eqb_neq in E2.
        replace (Nat.leb i j) with false
          by (symmetry; apply Nat.leb_gt; lia).
        reflexivity.
Qed.

Lemma step_from_raise w : forall scores score i e,
  step_from w score i scores = Raise e ->
  e = IndexError
  /\ exists k ts, nth_error scores k = Some ts /\ ts <> []
                  /\ (length score <= i + k)%nat.
Proof.
  induction scores as [|ts rest IH]; intros score i e H; [discriminate|].
  cbn [step_from] in H.
  destruct (Nat.lt_ge_cases i (length score)) as [Hi|Hi].
  - destruct (@step_task_ok w i ts score Hi) as (sc & E & Hlen & _).
    rewrite E in H. cbn [bind] in H.
    destruct (IH sc (S i) e H) as (-> & k & ts' & Hk & Hne & Hlen').
    split; [reflexivity|]. exists (S k), ts'.
    split; [exact Hk|]. split; [exact Hne|]. lia.
  - destruct ts as [|s ts'].
    + cbn [step_task bind] in H.
      destruct (IH score (S i) e H) as (-> & k & ts' & Hk & Hne & Hlen').
      split; [reflexivity|]. exists (S k), ts'.
      split; [exact Hk|]. split; [exact Hne|]. lia.
    + rewrite step_task_raise in H by (auto; discriminate).
      cbn [bind] in H. injection H as <-. split; [reflexivity|].
      exists 0%nat, (s :: ts'). split; [reflexivity|].
      split; [discriminate|lia].
Qed.

Lemma step_from_ok_slots w : forall scores score i sc,
  step_from w score i scores = Ok sc ->
  forall k ts, nth_error scores k = Some ts -> ts <> [] ->
               (i + k < length score)%nat.
Proof.
  induction scores as [|ts0 rest IH]; intros score i sc H k ts Hk Hne.
  - destruct k; discriminate.
  - cbn [step_from] in H.
    destruct (step_task w score i ts0) as [sc0|e0] eqn:E; [|discriminate].
    cbn [bind] in H.
    pose proof (@MultitaskFacts.Dynamic.step_task_length _ _ _ _ _ E) as Hlen.
    destruct k as [|k].
    + injection Hk as ->.
      destruct (Nat.lt_ge_cases i (length score)) as [Hi|Hi]; [lia|].
      rewrite step_task_raise in E by assumption. discriminate.
    + specialize (IH sc0 (S i) sc H k ts Hk Hne). lia.
Qed.

(** X16.  [MultitaskDynamicWeight.step(scores)] raises exactly when some
    task of [scores] that has at least one return has no slot in the score
    array (its position is [len(max_score)] or more), and what it raises
    is [IndexError]; a task without returns never does, wherever it
    stands. *)
Theorem dynamic_step_raises (st : t) (scores : list (list R)) (e : exn) :
  step st scores = Raise e
  <-> e = IndexError
      /\ exists k ts, nth_error scores k = Some ts /\ ts <> []
                      /\ (length (_score st) <= k)%nat.
Proof.
  unfold step. split.
  - intros H.
    destruct (step_from (_ema_weight st) (_score st) 0 scores)
      as [sc|e0] eqn:E; [discriminate|].
    cbn [bind] in H. injection H as <-.
    exact (@step_from_raise _ _ _ _ _ E).
  - intros (-> & k & ts & Hk & Hne & Hlen).
    destruct (step_from (_ema_weight st) (_score st) 0 scores)
      as [sc|e0] eqn:E; cbn [bind].
    + pose proof (@step_from_ok_slots _ _ _ _ _ E k ts Hk Hne). lia.
    + destruct (@step_from_raise _ _ _ _ _ E) as [-> _]. reflexivity.
Qed.

(** X14.  A [step] that raises nothing leaves, in every slot, the
    exponential moving average of the slot's old score and the returns of
    the task at that position, taken in order:
    [score <- score * ema_weight + s * (1 - ema_weight)] for each return
    [s]; slots without a task in [scores], or with a task that has no
    return, keep their score; nothing else of the object changes. *)
Theorem dynamic_step_is_ema_per_task (st st' : t) (scores : list (list R)) :
  step st scores = Ok st' ->
  (forall j,
      nth_error (_score st') j
      = option_map (ema (_ema_weight st) (nth j scores []))
                   (nth_error (_score st) j))
  /\ length (_score st') = length (_score st)
  /\ _max_score st' = _max_score st
  /\ _random_score st' = _random_score st
  /\ _temperature st' = _temperature st
  /\ _ema_weight st' = _ema_weight st.
Proof.
  intros H. unfold step in H.
  destruct (step_from (_ema_weight st) (_score st) 0 scores)
    as [sc|e0] eqn:E; [|discriminate].
  cbn [bind] in H. injection H as <-. cbn.
  destruct (@step_from_spec (_ema_weight st) scores (_score st) 0%nat
              (@step_from_ok_slots _ _ _ _ _ E))
    as (sc' & E' & Hlen & Hnth).
  rewrite E in E'. injection E' as <-.
  repeat split; try assumption.
  intros j. rewrite Hnth. cbn. now rewrite Nat.sub_0_r.
Qed.

Lemma ema_bounds (w lo hi : R) (ts : list R) :
  0 <= w <= 1 ->
  Forall (fun s => lo <= s <= hi) ts ->
  forall x, lo <= x <= hi -> lo <= ema w ts x <= hi.
Proof.
  intros Hw. induction 1 as [|s ts Hs _ IH]; intros x Hx; simpl.
  - exact Hx.
  - apply IH. nra.
Qed.

(** X15.  With [0 <= ema_weight <= 1], a [step] keeps the scores within
    any interval that holds the old scores and the returns: the running
    scores never leave the range of what was observed. *)
Theorem dynamic_scores_stay_in_range
        (st st' : t) (scores : list (list R)) (lo hi : R) :
  0 <= _ema_weight st <= 1 ->
  Forall (fun x => lo <= x <= hi) (_score st) ->
  Forall (Forall (fun s => lo <= s <= hi)) scores ->
  step st scores = Ok st' ->
  Forall (fun x => lo <= x <= hi) (_score st').
Proof.
  intros Hw Hold Hnew H. unfold step in H.
  destruct (step_from (_ema_weight st) (_score st) 0 scores)
    as [sc|e0] eqn:E; [|discriminate].
  cbn [bind] in H. injection H as <-. cbn.
  destruct (@step_from_spec (_ema_weight st) scores (_score st) 0%nat
              (@step_from_ok_slots _ _ _ _ _ E))
    as (sc' & E' & Hlen & Hnth).
  rewrite E in E'. injection E' as <-.
  apply Forall_forall. intros x Hx. apply In_nth_error in Hx.
  destruct Hx as [j Hj]. rewrite Hnth in Hj. cbn in Hj.
  rewrite Nat.sub_0_r in Hj.
  destruct (nth_error (_score st) j) as [x0|] eqn:E0; [|discriminate].
  cbn in Hj. injection Hj as <-.
  apply ema_bounds; [exact Hw| |].
  - destruct (nth_in_or_default j scores []) as [Hin| ->]; [|constructor].
    rewrite Forall_forall in Hnew. now apply Hnew.
  - apply nth_error_In in E0. rewrite Forall_forall in Hold.
    now apply Hold.
Qed.



End Dynamic.

Module Static.
Import MultitaskStaticWeight.

Lemma forallb_nonneg_iff (w : list R) :
  forallb (fun x => Rgeb x 0) w = true <-> Forall (fun x => 0 <= x) w.
Proof.
  induction w as [|x w IH]; simpl.
  - split; [constructor|reflexivity].
  - unfold Rgeb at 1. destruct (Rle_dec 0 x) as [Hx|Hx]; simpl.
    + rewrite IH. split; [now constructor|].
      intros H. now inversion H.
    + split; [discriminate|]. intros H. inversion H. contradiction.
Qed.

Lemma entry_le_tsum (w : list R) :
  Forall (fun x => 0 <= x) w -> Forall (fun x => x <= tsum w) w.
Proof.
  induction 1 as [|x w Hx Hw IH]; [constructor|].
  change (tsum (x :: w)) with (x + tsum w).
  assert (Hs : 0 <= tsum w).
  { clear - Hw. induction Hw as [|y w Hy _ IH]; unfold tsum in *; simpl; lra. }
  constructor; [lra|].
  eapply Forall_impl; [|exact IH]. intros y Hy. simpl in Hy. lra.
Qed.

(** X18.  [MultitaskStaticWeight(weight)] raises exactly when some entry
    is negative, and then [AssertionError]; otherwise the object holds the
    entries divided by their sum, in the same order, and, the sum being
    positive, every weight lies in [[0, 1]]. *)
Theorem static_weight_construction (w : list R) :
  (forall e, init w = Raise e
             <-> e = AssertionError /\ Exists (fun x => x < 0) w)
  /\ (forall st, init w = Ok st ->
                 Forall (fun x => 0 <= x) w
                 /\ weight st = map (fun x => x / tsum w) w
                 /\ length (weight st) = length w
                 /\ (0 < tsum w ->
                     Forall (fun x => 0 <= x <= 1) (weight st))).
Proof.
  unfold init.
  destruct (forallb (fun x => Rgeb x 0) w) eqn:E.
  - apply forallb_nonneg_iff in E. split.
    + intros e. split; [discriminate|]. intros [_ Hex]. exfalso.
      apply Exists_exists in Hex. destruct Hex as (x & Hin & Hneg).
      rewrite Forall_forall in E. specialize (E x Hin). simpl in E. lra.
    + intros st [= <-]. cbn. split; [exact E|]. split; [reflexivity|].
      split; [apply length_map|].
      intros Hpos. apply Forall_forall. intros y Hy.
      apply in_map_iff in Hy. destruct Hy as (x & <- & Hin).
      pose proof (entry_le_tsum E) as Hle.
      rewrite Forall_forall in E, Hle.
      specialize (E x Hin). specialize (Hle x Hin). simpl in *.
      split.
      * apply Rmult_le_pos; [exact E|].
        apply Rlt_le. now apply Rinv_0_lt_compat.
      * apply Rmult_le_reg_r with (tsum w); [exact Hpos|].
        unfold Rdiv. rewrite Rmult_assoc, Rinv_l by lra. lra.
  - split.
    + intros e. split.
      * intros [= <-]. split; [reflexivity|].
        apply Exists_exists.
        assert (Hn : ~ Forall (fun x => 0 <= x) w).
        { intros H. apply forallb_nonneg_iff in H. congruence. }
        apply neg_Forall_Exists_neg in Hn.
        -- apply Exists_exists in Hn. destruct Hn as (x & Hin & Hx).
           exists x. split; [exact Hin|lra].
        -- intros x. destruct (Rle_dec 0 x); [left|right]; assumption.
      * intros [-> _]. reflexivity.
    + intros st H. discriminate.
Qed.

End Static.

Lemma dynamic_step_is_ema_per_task_witness :
  let st := MultitaskDynamicWeight.mk
              [1; 1] [0; 0] 1 0.99
              [0 * 0.99 + 1 * (1 - 0.99); 0 * 0.99 + 1 * (1 - 0.99)] in
  MultitaskDynamicWeight.step
    (MultitaskDynamicWeight.init [1; 1] [0; 0] 1 0.99) [[1]; [1]]
  = Ok st
  /\ length (MultitaskDynamicWeight._score st)
     = length (MultitaskDynamicWeight._score
                 (MultitaskDynamicWeight.init [1; 1] [0; 0] 1 0.99)).
Proof.
  intros st.
  assert (H : MultitaskDynamicWeight.step
                (MultitaskDynamicWeight.init [1; 1] [0; 0] 1 0.99)
                [[1]; [1]]
              = Ok st) by reflexivity.
  split; [exact H|].
  exact (proj1 (proj2 (@Dynamic.dynamic_step_is_ema_per_task _ _ _ H))).
Defined.

Lemma dynamic_scores_stay_in_range_witness :
  let st := MultitaskDynamicWeight.mk
              [1; 1] [0; 0] 1 0.99
              [0 * 0.99 + 1 * (1 - 0.99); 0 * 0.99 + 1 * (1 - 0.99)] in
  0 <= 0.99 <= 1
  /\ MultitaskDynamicWeight.step
       (MultitaskDynamicWeight.init [1; 1] [0; 0] 1 0.99) [[1]; [1]]
     = Ok st
  /\ Forall (fun x => 0 <= x <= 1) (MultitaskDynamicWeight._score st).
Proof.
  intros st.
  assert (Hw : 0 <= 0.99 <= 1) by lra.
  assert (Hold : Forall (fun x => 0 <= x <= 1) [0; 0]).
  { repeat constructor; lra. }
  assert (Hnew : Forall (Forall (fun s => 0 <= s <= 1)) [[1]; [1]]).
  { repeat constructor; lra. }
  assert (H : MultitaskDynamicWeight.step
                (MultitaskDynamicWeight.init [1; 1] [0; 0] 1 0.99)
                [[1]; [1]]
              = Ok st) by reflexivity.
  split; [exact Hw|]. split; [exact H|].
  exact (@Dynamic.dynamic_scores_stay_in_range
           (MultitaskDynamicWeight.init [1; 1] [0; 0] 1 0.99) st
           [[1]; [1]] 0 1 Hw Hold Hnew H).
Defined.


End WeightFacts.

(** ** The loss that [train] back-propagates *)

Module TrainFacts.
Import Tensor TensorFacts.
Local Open Scope R_scope.

Lemma dynamic_weight_length (st : MultitaskDynamicWeight.t) :
  length (MultitaskDynamicWeight._max_score st)
  = length (MultitaskDynamicWeight._random_score st) ->
  length (MultitaskDynamicWeight._score st)
  = length (MultitaskDynamicWeight._random_score st) ->
  length (MultitaskDynamicWeight.weight st)
  = length (MultitaskDynamicWeight._random_score st).
Proof.
  intros H1 H2.
  rewrite MultitaskFacts.Dynamic.weight_softmax,
    MultitaskFacts.Dynamic.softmax_length.
  now apply MultitaskFacts.Dynamic.deficit_length.
Qed.

(** What [make_multitask] returns when it returns a strategy. *)
Lemma make_multitask_cases (num_envs : nat)
      (env_random_score env_max_score : option (list R))
      (dynamic : bool) (temperature : R)
      (static_weight : option (list R)) (m : Train.multitask) :
  Train.make_multitask num_envs env_random_score env_max_score dynamic
                       temperature static_weight
  = Ok (Some m) ->
  (exists random_score max_score,
      dynamic = true
      /\ length random_score = num_envs
      /\ length max_score = num_envs
      /\ m = Train.Dynamic
               (MultitaskDynamicWeight.init max_score random_score
                                            temperature 0.99))
  \/ (exists w st,
         dynamic = false
         /\ static_weight = Some w
         /\ length w = num_envs
         /\ MultitaskStaticWeight.init w = Ok st
         /\ m = Train.Static st).
Proof.
  unfold Train.make_multitask, Train.assert_then. intros H.
  destruct dynamic.
  - left. destruct static_weight; [discriminate|].
    destruct env_random_score as [rs|]; [|discriminate].
    destruct env_max_score as [ms|]; [|discriminate].
    destruct (Nat.eqb (length rs) (length ms)) eqn:E1; [|discriminate].
    destruct (Nat.eqb (length rs) num_envs) eqn:E2; [|discriminate].
    apply Nat.eqb_eq in E1, E2. injection H as <-.
    exists rs, ms. repeat split; congruence.
  - right. destruct static_weight as [w|]; [|discriminate].
    destruct (Nat.eqb (length w) num_envs) eqn:E; [|discriminate].
    apply Nat.eqb_eq in E.
    destruct (MultitaskStaticWeight.init w) as [st|e] eqn:Ei;
      [|discriminate].
    cbn [bind] in H. injection H as <-.
    exists w, st. repeat split; assumption.
Qed.

(** X19.  The strategy that [train] constructs has one weight per
    environment group, and keeps one after every [step] that raises
    nothing: the product [all_losses * weight] pairs every loss with a
    weight. *)
Theorem multitask_weight_has_one_entry_per_env
        (num_envs : nat) (env_random_score env_max_score : option (list R))
        (dynamic : bool) (temperature : R)
        (static_weight : option (list R)) (m : Train.multitask) :
  Train.make_multitask num_envs env_random_score env_max_score dynamic
                       temperature static_weight
  = Ok (Some m) ->
  length (Train.multitask_weight m) = num_envs
  /\ forall scores m',
      Train.multitask_step m scores = Ok m' ->
      length (Train.multitask_weight m') = num_envs.
Proof.
  intros H. destruct (make_multitask_cases _ _ _ _ _ _ H)
    as [(rs & ms & _ & Hrs & Hms & ->)|(w & st & _ & _ & Hw & Hi & ->)].
  - split.
    + cbn [Train.multitask_weight].
      rewrite dynamic_weight_length; cbn; congruence.
    + intros scores m' Hstep. cbn [Train.multitask_step] in Hstep.
      destruct (MultitaskDynamicWeight.step _ scores) as [st'|e] eqn:E;
        [|discriminate].
      cbn [bind] in Hstep. injection Hstep as <-.
      destruct (MultitaskFacts.Dynamic.step_frame _ _ E)
        as (H1 & H2 & _ & H4).
      cbn in H1, H2, H4. cbn [Train.multitask_weight].
      rewrite dynamic_weight_length; congruence.
  - unfold MultitaskStaticWeight.init in Hi.
    destruct (forallb _ w); [|discriminate]. injection Hi as <-.
    split.
    + cbn. now rewrite length_map.
    + intros scores m' Hstep. cbn in Hstep. injection Hstep as <-.
      cbn. now rewrite length_map.
Qed.

Lemma tsum_zip_repeat (k : R) (l : list R) :
  tsum (zip_with Rmult l (repeat k (length l))) = tsum l * k.
Proof.
  induction l as [|x l IH]; unfold tsum in *; simpl; [ring|].
  rewrite IH. ring.
Qed.

(** X20.  Static weights that are all equal make the weighted loss the
    plain mean of the losses: with [multitask_static_weight = [c, ..., c]],
    [c > 0], [train] back-propagates what it would without any
    weighting. *)
Theorem equal_static_weights_give_the_mean
        (c temperature : R) (losses : list R)
        (episode_rewards : list (list R)) :
  0 < c ->
  losses <> [] ->
  exists m,
    Train.make_multitask (length losses) None None false temperature
                         (Some (repeat c (length losses)))
    = Ok (Some m)
    /\ Train.mean_loss (Some m) losses episode_rewards
       = Ok (mean losses, Some m)
    /\ Train.mean_loss None losses episode_rewards
       = Ok (mean losses, None).
Proof.
  intros Hc Hne.
  assert (Hn : 0 < INR (length losses)).
  { destruct losses; [congruence|]. apply lt_0_INR. simpl. lia. }
  assert (Hinit : MultitaskStaticWeight.init (repeat c (length losses))
                  = Ok (MultitaskStaticWeight.mk
                          (repeat (c / (INR (length losses) * c))
                                  (length losses)))).
  { unfold MultitaskStaticWeight.init.
    rewrite MultitaskFacts.Static.forallb_nonneg.
    - now rewrite map_repeat, tsum_repeat.
    - apply Forall_forall. intros x Hx. apply repeat_spec in Hx. lra. }
  eexists. split; [|split].
  - unfold Train.make_multitask, Train.assert_then.
    rewrite repeat_length, Nat.eqb_refl, Hinit. reflexivity.
  - cbn. rewrite tsum_zip_repeat. unfold mean. do 2 f_equal.
    field. lra.
  - reflexivity.
Qed.




Lemma multitask_weight_has_one_entry_per_env_witness :
  let m := Train.Dynamic
             (MultitaskDynamicWeight.init [1; 1] [0; 0] 10 0.99) in
  Train.make_multitask 2 (Some [0; 0]) (Some [1; 1]) true 10 None
  = Ok (Some m)
  /\ length (Train.multitask_weight m) = 2%nat.
Proof.
  intros m.
  assert (H : Train.make_multitask 2 (Some [0; 0]) (Some [1; 1]) true 10
                                   None
              = Ok (Some m)) by reflexivity.
  split; [exact H|].
  exact (proj1 (@multitask_weight_has_one_entry_per_env
                  2%nat (Some [0; 0]) (Some [1; 1]) true 10 None m H)).
Defined.

Lemma equal_static_weights_give_the_mean_witness :
  0 < 2
  /\ exists m,
       Train.make_multitask (length [3; 5]) None None false 10
                            (Some (repeat 2 (length [3; 5])))
       = Ok (Some m)
       /\ Train.mean_loss (Some m) [3; 5] [[]; [1]]
          = Ok (mean [3; 5], Some m).
Proof.
  assert (Hc : 0 < 2) by lra.
  assert (Hne : [3; 5] <> ([] : list R)) by discriminate.
  split; [exact Hc|].
  destruct (@equal_static_weights_give_the_mean
              2 10 [3; 5] [[]; [1]] Hc Hne) as (m & H1 & H2 & _).
  exists m. split; [exact H1 | exact H2].
Defined.


End TrainFacts.

(** ** Bounds on a run of the loss generators; shifts of the advantages *)

Module RunFacts.
Import Tensor TensorFacts GeneratorFacts PPOFacts.
Local Open Scope R_scope.

Lemma tsum_map_shift (c : R) (l : list R) :
  tsum (map (fun x => x + c) l) = tsum l + INR (length l) * c.
Proof.
  induction l as [|x l IH].
  - unfold tsum. simpl. ring.
  - change (tsum (map (fun x => x + c) (x :: l)))
      with (x + c + tsum (map (fun x => x + c) l)).
    change (tsum (x :: l)) with (x + tsum l).
    change (length (x :: l)) with (S (length l)).
    rewrite IH, S_INR. ring.
Qed.

Lemma mean_shift (c : R) (l : list R) :
  l <> [] -> mean (map (fun x => x + c) l) = mean l + c.
Proof.
  intros Hne. unfold mean. rewrite tsum_map_shift, length_map.
  assert (Hn : INR (length l) <> 0).
  { destruct l; [congruence|]. apply not_0_INR. discriminate. }
  field. exact Hn.
Qed.

Lemma std_shift (c : R) (l : list R) :
  std (map (fun x => x + c) l) = std l.
Proof.
  destruct l as [|x0 l']; [reflexivity|].
  set (l := x0 :: l').
  assert (Hne : l <> []) by discriminate.
  unfold std. rewrite (mean_shift c Hne), map_map, length_map.
  do 3 f_equal. apply map_ext. intros x. ring.
Qed.

(** X30.  The normalization [(A - A.mean()) / (A.std() + 1e-8)] of the
    advantages does not see a constant added to all of them: the mean
    moves with the constant, the standard deviation stays, the normalized
    advantages are the same. *)
Theorem normalized_advantages_ignore_a_shift (c : R) (l : list R) :
  normalize (map (fun x => x + c) l) = normalize l
  /\ std (map (fun x => x + c) l) = std l
  /\ (l <> [] -> mean (map (fun x => x + c) l) = mean l + c).
Proof.
  split; [|split].
  - destruct l as [|x0 l']; [reflexivity|].
    set (l := x0 :: l').
    assert (Hne : l <> []) by discriminate.
    unfold normalize. rewrite std_shift, (mean_shift c Hne), map_map.
    apply map_ext. intros x. unfold Rdiv. ring.
  - apply std_shift.
  - apply mean_shift.
Qed.

Section Collaborators.
Variables Params Obs Act Logits : Type.
Variable log_prob : list Logits -> list Act -> list R.
Variable entropy : list Logits -> list R.
Variable generalized_advantage_estimate :
  list (list R) -> list (list R) -> list (list R) -> list (list bool) ->
  R -> R -> list (list R).
Variable clipped_advantage_policy_gradient_loss :
  list R -> list R -> list R -> list bool -> R -> list R.
Variable preprocess_input_fn : option (Obs -> Obs).
Variable model : Params -> list Obs -> PPO.net_output Logits.
Variable shuffle : nat -> list Z -> list Z.
Variable obs0 : Obs.
Variable act0 : Act.
Variable rmodel :
  Params -> list Obs -> PPO.hidden_state -> PPO.rnet_output Logits.
Variable init_hidden : Params -> nat -> PPO.hidden_state.
Variable zip2 :
  list (list Obs) -> list (list bool) -> list (list Obs * list bool).
Variable hp : PPO.hyper.
Variables minibatch_size num_minibatches num_epochs : Z.

Local Abbreviation flat_resume :=
  (PPO.compute_ppo_losses_flat
     log_prob entropy generalized_advantage_estimate
     clipped_advantage_policy_gradient_loss preprocess_input_fn
     model shuffle obs0 act0 hp minibatch_size num_minibatches).

Local Abbreviation rec_resume :=
  (PPO.compute_ppo_losses_rec
     log_prob entropy generalized_advantage_estimate
     clipped_advantage_policy_gradient_loss preprocess_input_fn
     rmodel init_hidden zip2 hp num_epochs).

(** X28.  The first [next()] on the flattened [compute_ppo_losses] raises
    exactly when [minibatch_size] is 0, or when the batch
    [(n-1) * num_training_envs] is smaller than one minibatch and at least
    one minibatch is asked for; what it raises is the [ZeroDivisionError]
    of [enum_minibatches]: a rollout shorter than a minibatch is an error,
    not an empty run, whatever [target_kl] is. *)
Theorem flat_first_next_raises theta (h : PPO.history Obs Act) (e : exn) :
  flat_resume theta (PPO.FStart h) = Raised e
  <-> e = ZeroDivisionError
      /\ (minibatch_size = 0
          \/ ((0 <= PPO.batch_size_of h < minibatch_size
               \/ minibatch_size < PPO.batch_size_of h <= 0)
              /\ 1 <= num_minibatches))%Z.
Proof.
  rewrite flat_resume_start. unfold PPO.flat_next.
  cbn [Minibatch.enum_minibatches].
  unfold Minibatch.floordiv, Minibatch.loop, Minibatch.pymod.
  destruct (minibatch_size =? 0)%Z eqn:Em;
    [apply Z.eqb_eq in Em | apply Z.eqb_neq in Em].
  - intuition (try discriminate; try congruence).
  - pose proof (Z.div_small_iff (PPO.batch_size_of h) minibatch_size Em)
      as Hsmall.
    destruct (num_minibatches <=? 0)%Z eqn:En;
      [apply Z.leb_le in En
      |apply Z.leb_gt in En;
       destruct (PPO.batch_size_of h / minibatch_size =? 0)%Z eqn:E0;
       [apply Z.eqb_eq in E0 | apply Z.eqb_neq in E0]];
      intuition (try discriminate; try congruence; try lia).
Qed.

Lemma rec_le_from_frame (thetas : list Params) :
  forall f i kl,
    (length (fst (drive rec_resume thetas (PPO.RYielded f i kl)))
     <= Z.to_nat (num_epochs - (i + 1)))%nat.
Proof.
  induction thetas as [|theta thetas IH]; intros f i kl.
  - simpl. lia.
  - cbn [drive PPO.compute_ppo_losses_rec].
    destruct (PPO.kl_break (PPO.target_kl hp) kl); [simpl; lia|].
    unfold PPO.epoch.
    destruct (num_epochs <=? i + 1)%Z eqn:E; [simpl; lia|].
    apply Z.leb_gt in E.
    match goal with
    | |- context [drive rec_resume thetas (PPO.RYielded f (i + 1) ?k)] =>
        specialize (IH f (i + 1)%Z k);
        destruct (drive rec_resume thetas (PPO.RYielded f (i + 1) k))
          as [ys e0]
    end.
    cbn [fst length] in *. lia.
Qed.

Lemma flat_le_from_loop (thetas : list Params) :
  forall f batch_size indices n i k kl,
    (0 <= i)%Z ->
    (length (fst (drive flat_resume thetas
                        (PPO.FYielded f batch_size
                                      (Minibatch.Loop indices n i k) kl)))
     <= Z.to_nat (num_minibatches - i))%nat.
Proof.
  induction thetas as [|theta thetas IH]; intros f bs indices n i k kl Hi.
  - simpl. lia.
  - cbn [drive PPO.compute_ppo_losses_flat].
    destruct (PPO.kl_break (PPO.target_kl hp) kl); [simpl; lia|].
    unfold PPO.flat_next. cbn [Minibatch.enum_minibatches].
    unfold Minibatch.loop, Minibatch.pymod.
    destruct (num_minibatches <=? i)%Z eqn:E; [simpl; lia|].
    apply Z.leb_gt in E.
    destruct (n =? 0)%Z; [simpl; lia|].
    match goal with
    | |- context [drive flat_resume thetas
                        (PPO.FYielded f bs (Minibatch.Loop ?a n (i + 1) ?c)
                                      ?kl')] =>
        specialize (IH f bs a n (i + 1)%Z c kl' ltac:(lia));
        destruct (drive flat_resume thetas
                        (PPO.FYielded f bs (Minibatch.Loop a n (i + 1) c)
                                      kl'))
          as [ys e0]
    end.
    cbn [fst length] in *. lia.
Qed.

(** X29.  Whatever [target_kl] is and however the parameters change
    between two [next()], a run of the recurrent [compute_ppo_losses]
    yields at most [num_epochs] records and a run of the flattened one at
    most [num_minibatches]: the early stop can only shorten a run. *)
Theorem a_run_is_never_longer_than_asked
        (thetas : list Params)
        (hr : PPO.rhistory Obs Act) (hf : PPO.history Obs Act) :
  (length (fst (drive rec_resume thetas (PPO.RStart hr)))
   <= Z.to_nat num_epochs)%nat
  /\ (length (fst (drive flat_resume thetas (PPO.FStart hf)))
      <= Z.to_nat num_minibatches)%nat.
Proof.
  split.
  - destruct thetas as [|theta thetas]; [simpl; lia|].
    cbn [drive]. rewrite rec_resume_start. unfold PPO.epoch.
    destruct (num_epochs <=? 0)%Z eqn:E; [simpl; lia|].
    apply Z.leb_gt in E.
    match goal with
    | |- context [drive rec_resume thetas (PPO.RYielded ?f 0 ?k)] =>
        pose proof (rec_le_from_frame thetas f 0%Z k) as IH;
        destruct (drive rec_resume thetas (PPO.RYielded f 0 k)) as [ys e0]
    end.
    cbn [fst length] in *. lia.
  - destruct thetas as [|theta thetas]; [simpl; lia|].
    cbn [drive]. rewrite flat_resume_start. unfold PPO.flat_next.
    cbn [Minibatch.enum_minibatches].
    unfold Minibatch.floordiv, Minibatch.loop, Minibatch.pymod.
    destruct (minibatch_size =? 0)%Z; [simpl; lia|].
    destruct (num_minibatches <=? 0)%Z eqn:E; [simpl; lia|].
    apply Z.leb_gt in E.
    destruct (PPO.batch_size_of hf / minibatch_size =? 0)%Z; [simpl; lia|].
    match goal with
    | |- context [drive flat_resume thetas
                        (PPO.FYielded ?f ?b (Minibatch.Loop ?a ?n (0 + 1) ?c)
                                      ?kl')] =>
        pose proof (@flat_le_from_loop thetas f b a n (0 + 1)%Z c kl'
                      ltac:(lia)) as IH;
        destruct (drive flat_resume thetas
                        (PPO.FYielded f b (Minibatch.Loop a n (0 + 1) c) kl'))
          as [ys e0]
    end.
    cbn [fst length] in *. lia.
Qed.

End Collaborators.

End RunFacts.
